(** * Dispatch: the per-project state machine, the review loop, the cycle
    scheduler and the reply router of src/src/index.js, with the
    collaborators they call (src/src/project/analyzer.js for reviewWork,
    src/src/admin/server.js for the project store, src/src/messaging/slack.js
    for messaging) as a shallow embedding in a state-and-exception monad. *)

From Stdlib Require Import String Ascii List ZArith Bool Lia.
Import ListNotations.
Open Scope string_scope.

Module Dispatch.

(** ** Data model (src/src/utils/schemas.js, index.js) *)

(** [validateProjectState] accepts exactly these four status strings. *)
Inductive Status := Active | Paused | Completed | WaitingInput.

Definition status_eqb (a b : Status) : bool :=
  match a, b with
  | Active, Active | Paused, Paused | Completed, Completed
  | WaitingInput, WaitingInput => true
  | _, _ => false
  end.

(** [state.inProgress = { task, startedAt, assignedTo }] *)
Record TaskRef := mkTaskRef { ip_task : string; startedAt : Z; assignedTo : string }.

(** The entry pushed on [state.completed]; [iteration] is [undefined]
    (here [None]) unless [maxIterations > 1]. *)
Record TaskRecord := mkTaskRecord {
  tr_task : string; completedAt : Z; tr_commitHash : string;
  tr_revisions : nat; tr_iteration : option nat }.

Record ProjectContext := mkContext {
  techStack : list string; preferences : list string; gregAvailability : string }.

(** A project record.  Nullable or optional strings ([gregDirection],
    commit hashes) are strings with [""] for the falsy values; the numeric
    fields [timeBudget] and [maxIterations] are [0] when absent, which is
    what [|| 0] and [|| 1] in processProject read them as.  [blockers] is
    left out: no function modelled here reads or writes it. *)
Record ProjectState := mkState {
  projectId : string; name : string; repoPath : string; currentGoal : string;
  status : Status; completed : list TaskRecord; inProgress : option TaskRef;
  gregDirection : string; context : ProjectContext;
  timeBudget : nat; maxIterations : nat; lastChecked : Z; lastActivity : Z }.

Definition with_status (s : ProjectState) (v : Status) : ProjectState :=
  mkState s.(projectId) s.(name) s.(repoPath) s.(currentGoal) v s.(completed)
    s.(inProgress) s.(gregDirection) s.(context) s.(timeBudget) s.(maxIterations)
    s.(lastChecked) s.(lastActivity).
Definition with_inProgress (s : ProjectState) (v : option TaskRef) : ProjectState :=
  mkState s.(projectId) s.(name) s.(repoPath) s.(currentGoal) s.(status) s.(completed)
    v s.(gregDirection) s.(context) s.(timeBudget) s.(maxIterations)
    s.(lastChecked) s.(lastActivity).
Definition with_gregDirection (s : ProjectState) (v : string) : ProjectState :=
  mkState s.(projectId) s.(name) s.(repoPath) s.(currentGoal) s.(status) s.(completed)
    s.(inProgress) v s.(context) s.(timeBudget) s.(maxIterations)
    s.(lastChecked) s.(lastActivity).
Definition with_currentGoal (s : ProjectState) (v : string) : ProjectState :=
  mkState s.(projectId) s.(name) s.(repoPath) v s.(status) s.(completed)
    s.(inProgress) s.(gregDirection) s.(context) s.(timeBudget) s.(maxIterations)
    s.(lastChecked) s.(lastActivity).
Definition with_completed (s : ProjectState) (v : list TaskRecord) : ProjectState :=
  mkState s.(projectId) s.(name) s.(repoPath) s.(currentGoal) s.(status) v
    s.(inProgress) s.(gregDirection) s.(context) s.(timeBudget) s.(maxIterations)
    s.(lastChecked) s.(lastActivity).
Definition with_context (s : ProjectState) (v : ProjectContext) : ProjectState :=
  mkState s.(projectId) s.(name) s.(repoPath) s.(currentGoal) s.(status) s.(completed)
    s.(inProgress) s.(gregDirection) v s.(timeBudget) s.(maxIterations)
    s.(lastChecked) s.(lastActivity).
Definition with_lastChecked (s : ProjectState) (v : Z) : ProjectState :=
  mkState s.(projectId) s.(name) s.(repoPath) s.(currentGoal) s.(status) s.(completed)
    s.(inProgress) s.(gregDirection) s.(context) s.(timeBudget) s.(maxIterations)
    v s.(lastActivity).
Definition with_lastActivity (s : ProjectState) (v : Z) : ProjectState :=
  mkState s.(projectId) s.(name) s.(repoPath) s.(currentGoal) s.(status) s.(completed)
    s.(inProgress) s.(gregDirection) s.(context) s.(timeBudget) s.(maxIterations)
    s.(lastChecked) v.

(** Grok's decision (validated by [validateDecision]); [isPrerequisite]
    is the value of [decision.nextStep.isPrerequisite === true]. *)
Record NextStep := mkNextStep {
  task : string; reasoning : string; details : string; isPrerequisite : bool }.
Record Decision := mkDecision {
  nextStep : NextStep; confidence : string; needsGreg : bool; questionForGreg : string }.

(** Claude's execution result ([inspectResult] in the Claude client). *)
Record ExecResult := mkExec {
  ex_status : string; ex_summary : string; ex_filesChanged : list string;
  ex_commitHash : string; ex_issues : list string; ex_questionsForGreg : list string }.

(** A review as parsed from Grok's JSON; [decision] is [""] when the field
    is absent, [approved] is the truthiness of the legacy [approved] field. *)
Record RevisionItem := mkRevItem { file : string; issue : string; suggestion : string }.
Record Review := mkReview {
  decision : string; approved : bool; rv_summary : string;
  revisions : list RevisionItem; feedback : string; rv_questionForGreg : string }.

(** One attempt of the review API call: the call throws, or it answers
    with content that [JSON.parse] rejects, or with a review object. *)
Inductive Attempt := ApiError | Unparseable | Response (r : Review).

(** [parseGoal]'s result; the optional arrays are [None] when absent. *)
Record ParsedGoal := mkParsed {
  pg_projectId : string; pg_name : string; pg_currentGoal : string;
  pg_techStack : option (list string); pg_preferences : option (list string);
  pg_repoName : string }.

(** [iterationBranches.push({ branch, summary, commitHash })] *)
Record IterationBranch := mkBranch {
  branch : string; ib_summary : string; ib_commitHash : string }.

(** What reviewLoop returns: the approved object or the string ['waiting']. *)
Inductive ReviewOutcome :=
| Finalized (commitHash summary : string) (filesChanged : list string)
            (revisionCount : nat) (beforeHash : string)
| Waiting.

(** Observable effects, newest first in the trace.  [ESave old s] is a
    [saveProject(s)] that replaced a stored record whose status was
    [old] ([None] when the file did not exist). *)
Inductive Event :=
| ESave (old : option Status) (s : ProjectState)
| ESend (text : string)
| EAskGreg (question : string)
| EAskGoal
| EProgress (summary commitHash : string)
| EReportError (msg phase : string)
| EAnalyze (path : string)
| EPropose (projectId : string)
| EExecTask (task : string)
| EExecRevision (task : string)
| EDiff (commitHash : string)
| EReviewAttempt (attempt : nat)
| ESleep (ms : Z)
| EGitBranch (branchName : string)
| EGitCheckoutMain
| EGitReset (commitHash : string)
| EMkdir (path : string).

(** The world the code runs against: the project files (in [readdir]
    order, each stored under its [projectId]), the module variable
    [cycleRunning], the clock, and the answers of the collaborators, one
    list per collaborator, consumed in call order.  An exhausted list
    means the collaborator call fails. *)
Record World := mkWorld {
  store : list ProjectState;
  dirOk : bool;
  events : list Event;
  cycleRunning : bool;
  clock : nat -> Z;
  ticks : nat;
  decisions : list (option Decision);
  executions : list (option ExecResult);
  revisionResults : list ExecResult;
  reviewAttempts : list Attempt;
  replies : list (option string);
  goals : list (option ParsedGoal);
  logHeads : list string;
  gitOk : list bool;
  repoBase : string }.

Definition set_store w v := mkWorld v w.(dirOk) w.(events) w.(cycleRunning) w.(clock) w.(ticks) w.(decisions) w.(executions) w.(revisionResults) w.(reviewAttempts) w.(replies) w.(goals) w.(logHeads) w.(gitOk) w.(repoBase).
Definition set_events w v := mkWorld w.(store) w.(dirOk) v w.(cycleRunning) w.(clock) w.(ticks) w.(decisions) w.(executions) w.(revisionResults) w.(reviewAttempts) w.(replies) w.(goals) w.(logHeads) w.(gitOk) w.(repoBase).
Definition set_cycleRunning w v := mkWorld w.(store) w.(dirOk) w.(events) v w.(clock) w.(ticks) w.(decisions) w.(executions) w.(revisionResults) w.(reviewAttempts) w.(replies) w.(goals) w.(logHeads) w.(gitOk) w.(repoBase).
Definition set_ticks w v := mkWorld w.(store) w.(dirOk) w.(events) w.(cycleRunning) w.(clock) v w.(decisions) w.(executions) w.(revisionResults) w.(reviewAttempts) w.(replies) w.(goals) w.(logHeads) w.(gitOk) w.(repoBase).
Definition set_decisions w v := mkWorld w.(store) w.(dirOk) w.(events) w.(cycleRunning) w.(clock) w.(ticks) v w.(executions) w.(revisionResults) w.(reviewAttempts) w.(replies) w.(goals) w.(logHeads) w.(gitOk) w.(repoBase).
Definition set_executions w v := mkWorld w.(store) w.(dirOk) w.(events) w.(cycleRunning) w.(clock) w.(ticks) w.(decisions) v w.(revisionResults) w.(reviewAttempts) w.(replies) w.(goals) w.(logHeads) w.(gitOk) w.(repoBase).
Definition set_revisionResults w v := mkWorld w.(store) w.(dirOk) w.(events) w.(cycleRunning) w.(clock) w.(ticks) w.(decisions) w.(executions) v w.(reviewAttempts) w.(replies) w.(goals) w.(logHeads) w.(gitOk) w.(repoBase).
Definition set_reviewAttempts w v := mkWorld w.(store) w.(dirOk) w.(events) w.(cycleRunning) w.(clock) w.(ticks) w.(decisions) w.(executions) w.(revisionResults) v w.(replies) w.(goals) w.(logHeads) w.(gitOk) w.(repoBase).
Definition set_replies w v := mkWorld w.(store) w.(dirOk) w.(events) w.(cycleRunning) w.(clock) w.(ticks) w.(decisions) w.(executions) w.(revisionResults) w.(reviewAttempts) v w.(goals) w.(logHeads) w.(gitOk) w.(repoBase).
Definition set_goals w v := mkWorld w.(store) w.(dirOk) w.(events) w.(cycleRunning) w.(clock) w.(ticks) w.(decisions) w.(executions) w.(revisionResults) w.(reviewAttempts) w.(replies) v w.(logHeads) w.(gitOk) w.(repoBase).
Definition set_logHeads w v := mkWorld w.(store) w.(dirOk) w.(events) w.(cycleRunning) w.(clock) w.(ticks) w.(decisions) w.(executions) w.(revisionResults) w.(reviewAttempts) w.(replies) w.(goals) v w.(gitOk) w.(repoBase).
Definition set_gitOk w v := mkWorld w.(store) w.(dirOk) w.(events) w.(cycleRunning) w.(clock) w.(ticks) w.(decisions) w.(executions) w.(revisionResults) w.(reviewAttempts) w.(replies) w.(goals) w.(logHeads) v w.(repoBase).

(** ** The monad: state passing with JavaScript exceptions.  [OutOfFuel]
    stands for a loop that has not finished within the fuel given. *)

Inductive Res (A : Type) : Type :=
| Ok (a : A)
| Throw (msg : string)
| OutOfFuel.
Arguments Ok {A} a.
Arguments Throw {A} msg.
Arguments OutOfFuel {A}.

Definition M (A : Type) : Type := World -> Res A * World.

Definition ret {A} (a : A) : M A := fun w => (Ok a, w).
Definition throw {A} (msg : string) : M A := fun w => (Throw msg, w).
Definition bind {A B} (m : M A) (k : A -> M B) : M B :=
  fun w => match m w with
           | (Ok a, w') => k a w'
           | (Throw e, w') => (Throw e, w')
           | (OutOfFuel, w') => (OutOfFuel, w')
           end.

Notation "x <- m ;; k" := (bind m (fun x => k))
  (at level 61, m at next level, right associativity).
Notation "m ;;; k" := (bind m (fun _ => k))
  (at level 61, right associativity).

(** [try { m } catch (err) { ... }] as a value: [inl err] or [inr a]. *)
Definition try_catch {A} (m : M A) : M (string + A) :=
  fun w => match m w with
           | (Ok a, w') => (Ok (inr a), w')
           | (Throw e, w') => (Ok (inl e), w')
           | (OutOfFuel, w') => (OutOfFuel, w')
           end.

(** [try { m } finally { fin }]: [fin] runs on every way out of [m]. *)
Definition try_finally {A} (m : M A) (fin : M unit) : M A :=
  fun w => match m w with
           | (OutOfFuel, w') => (OutOfFuel, w')
           | (r, w') => match fin w' with
                        | (Ok _, w'') => (r, w'')
                        | (Throw e, w'') => (Throw e, w'')
                        | (OutOfFuel, w'') => (OutOfFuel, w'')
                        end
           end.

Definition emit (e : Event) : M unit :=
  fun w => (Ok tt, set_events w (e :: w.(events))).

(** [Date.now()] and [new Date()]: one clock reading each. *)
Definition now : M Z :=
  fun w => (Ok (w.(clock) w.(ticks)), set_ticks w (S w.(ticks))).

(** ** Strings used in messages *)

Definition tpl (parts : list string) : string := String.concat "" parts.
Arguments tpl : simpl never.
Definition nl : string := String (ascii_of_nat 10) EmptyString.

Fixpoint nat_str_aux (fuel n : nat) (acc : string) : string :=
  match fuel with
  | O => acc
  | S f =>
      let d := String (ascii_of_nat (48 + n mod 10)) EmptyString in
      if Nat.ltb n 10 then d ++ acc else nat_str_aux f (n / 10) (d ++ acc)
  end.
(** [`${n}`] for a natural number. *)
Definition nat_str (n : nat) : string := nat_str_aux (S n) n "".
Arguments nat_str : simpl never.

(** [xs.join(sep)] *)
Definition join (sep : string) (xs : list string) : string := String.concat sep xs.

Definition is_empty (s : string) : bool := String.eqb s "".

(** A double quote character. *)
Definition dq : string := String (ascii_of_nat 34) EmptyString.

(** ** Project store (the state module, bundled in src/src/admin/server.js) *)

Fixpoint find_project (id : string) (l : list ProjectState) : option ProjectState :=
  match l with
  | [] => None
  | s :: r => if String.eqb (projectId s) id then Some s else find_project id r
  end.

(** [writeFile(projectPath(state.projectId), ...)]: overwrite the file of
    that id, or create it (a new file is listed last). *)
Fixpoint put_project (s : ProjectState) (l : list ProjectState) : list ProjectState :=
  match l with
  | [] => [s]
  | x :: r => if String.eqb (projectId x) (projectId s) then s :: r
              else x :: put_project s r
  end.

Definition loadProject (projectId' : string) : M ProjectState :=
  fun w => match find_project projectId' w.(store) with
           | Some s => (Ok s, w)
           | None => (Throw (tpl ["ENOENT: "; projectId'; ".json"]), w)
           end.

Definition validateProjectState (s : ProjectState) : list string :=
  app (if is_empty s.(projectId) then ["projectId is required"] else [])
  (app (if is_empty s.(name) then ["name is required"] else [])
       (if is_empty s.(repoPath) then ["repoPath is required"] else [])).

Definition write_project (s : ProjectState) : M unit :=
  fun w => let old := option_map status (find_project s.(projectId) w.(store)) in
           (Ok tt, set_events (set_store w (put_project s w.(store)))
                              (ESave old s :: w.(events))).

(** saveProject validates, then sets [state.lastChecked] on the caller's
    object and writes it; the updated object is returned. *)
Definition saveProject (s : ProjectState) : M ProjectState :=
  match validateProjectState s with
  | [] => t <- now ;;
          let s' := with_lastChecked s t in
          write_project s' ;;; ret s'
  | errors => throw (tpl ["Cannot save invalid project state: "; join ", " errors])
  end.

(** loadActiveProjects / loadWaitingProjects: [mkdir] + [readdir], then the
    ids whose record has the given status, in directory order. *)
Definition load_ids_with_status (st : Status) : M (list string) :=
  fun w => if w.(dirOk)
           then (Ok (map projectId (filter (fun s => status_eqb s.(status) st) w.(store))), w)
           else (Throw "EACCES: data/projects", w).

Definition loadActiveProjects : M (list string) := load_ids_with_status Active.
Definition loadWaitingProjects : M (list string) := load_ids_with_status WaitingInput.

Definition resumeProject (projectId' gregDirection' : string) : M ProjectState :=
  state <- loadProject projectId' ;;
  t <- now ;;
  saveProject (with_lastActivity (with_gregDirection (with_status state Active) gregDirection') t).

(** ** Collaborators *)

Definition pop {X} (get : World -> list X) (set : World -> list X -> World) : M (option X) :=
  fun w => match get w with
           | [] => (Ok None, w)
           | x :: r => (Ok (Some x), set w r)
           end.

(** Slack helpers: [postMessage] catches every error, so none of them throws. *)
Definition sendMessage (text : string) : M unit := emit (ESend text).
Definition askGreg (question : string) : M unit := emit (EAskGreg question).
Definition askGregForGoal : M unit := emit EAskGoal.
Definition reportProgress (summary commitHash : string) : M unit :=
  emit (EProgress summary commitHash).
Definition reportError (msg phase : string) : M unit := emit (EReportError msg phase).

(** [waitForGreg()]: the reply, or the 24h timeout rejection. *)
Definition waitForGreg : M string :=
  r <- pop replies set_replies ;;
  match r with
  | Some (Some text) => ret text
  | _ => throw "Timed out waiting for Greg"
  end.

(** analyzeRepo and getCommitDiff catch their own errors. *)
Definition analyzeRepo (path : string) : M unit := emit (EAnalyze path).
Definition getCommitDiff (path commitHash : string) : M unit := emit (EDiff commitHash).

(** proposeNextStep: its three attempts are one answer here; [None] is the
    final [throw]. *)
Definition proposeNextStep (state : ProjectState) : M Decision :=
  emit (EPropose state.(projectId)) ;;;
  d <- pop decisions set_decisions ;;
  match d with
  | Some (Some d) => ret d
  | _ => throw "Grok failed after 3 attempts"
  end.

(** parseGoal: an answer lacking projectId or currentGoal is a failed one. *)
Definition parseGoal (gregMessage : string) : M ParsedGoal :=
  g <- pop goals set_goals ;;
  match g with
  | Some (Some p) =>
      if is_empty p.(pg_projectId) || is_empty p.(pg_currentGoal)
      then throw "Grok parseGoal failed after 3 attempts"
      else ret p
  | _ => throw "Grok parseGoal failed after 3 attempts"
  end.

(** executeTask: [None] is [throw new Error('Claude failed after 3 attempts')]. *)
Definition executeTask (nextStep' : NextStep) (state : ProjectState) : M ExecResult :=
  emit (EExecTask nextStep'.(task)) ;;;
  r <- pop executions set_executions ;;
  match r with
  | Some (Some r) => ret r
  | _ => throw "Claude failed after 3 attempts"
  end.

(** executeRevision catches everything and answers [status: 'failed']. *)
Definition revision_failed : ExecResult :=
  mkExec "failed" "Revision failed" [] "" [] [].

Definition executeRevision (review : Review) (originalTask : string)
    (state : ProjectState) : M ExecResult :=
  emit (EExecRevision originalTask) ;;;
  r <- pop revisionResults set_revisionResults ;;
  ret (match r with Some r => r | None => revision_failed end).

Definition sleep (ms : Z) : M unit := emit (ESleep ms).

(** ** reviewWork (src/src/project/analyzer.js, lines 470-576) *)

Definition review_fallback : Review :=
  mkReview "approve" false "Review failed, auto-approved" [] "" "".

(** [if (!review.decision) review.decision = review.approved ? 'approve' : 'revise'] *)
Definition normalize_review (r : Review) : Review :=
  if is_empty r.(decision)
  then mkReview (if r.(approved) then "approve" else "revise") r.(approved)
         r.(rv_summary) r.(revisions) r.(feedback) r.(rv_questionForGreg)
  else r.

(** [for (let attempt = 1; attempt <= 3; attempt++) { try ... catch ... }] *)
Fixpoint review_attempts (fuel attempt : nat) : M Review :=
  match fuel with
  | O => ret review_fallback
  | S f =>
      if Nat.leb attempt 3 then
        emit (EReviewAttempt attempt) ;;;
        a <- pop reviewAttempts set_reviewAttempts ;;
        match a with
        | Some (Response r) => ret (normalize_review r)
        | _ =>
            (if Nat.ltb attempt 3 then sleep (1000 * 2 ^ Z.of_nat attempt)%Z else ret tt) ;;;
            review_attempts f (S attempt)
        end
      else ret review_fallback
  end.

Definition reviewWork (projectState : ProjectState) (taskDescription : string)
    (revisionHistory : list (string * list RevisionItem)) : M Review :=
  review_attempts 3 1.

(** ** reviewLoop (src/src/index.js, lines 351-434) *)

Definition SAFETY_CAP : nat := 6.

(** The HEAD before the task: [beforeHash], [""] for [null]. *)
Definition git_before_hash : M string :=
  h <- pop logHeads set_logHeads ;;
  ret (match h with Some h => h | None => "" end).

(** [while (revisionCount < SAFETY_CAP)]; the fuel is [SAFETY_CAP -
    revisionCount], so it runs out exactly when the loop condition fails. *)
Fixpoint review_rounds (fuel : nat) (state : ProjectState) (taskDescription beforeHash : string)
    (revisionCount : nat) (currentExecution : ExecResult)
    (revisionHistory : list (string * list RevisionItem)) : M (ProjectState * ReviewOutcome) :=
  let hit_safety_cap :=
    askGreg (tpl [":rotating_light: Hit "; nat_str SAFETY_CAP; " revision rounds on: *";
                  taskDescription; "*. Want me to accept the current state, or do you have direction?"]) ;;;
    state' <- saveProject (with_inProgress (with_status state WaitingInput) None) ;;
    ret (state', Waiting) in
  match fuel with
  | O => hit_safety_cap
  | S f =>
    if Nat.ltb revisionCount SAFETY_CAP then
      sendMessage (tpl [":mag: Grok is reviewing Claude's work on: *"; taskDescription; "*"]) ;;;
      getCommitDiff state.(repoPath) currentExecution.(ex_commitHash) ;;;
      review <- reviewWork state taskDescription revisionHistory ;;
      if String.eqb review.(decision) "approve" then
        sendMessage (tpl [":white_check_mark: Grok approved: "; review.(rv_summary)]) ;;;
        ret (state, Finalized currentExecution.(ex_commitHash)
                      (if is_empty currentExecution.(ex_summary) then review.(rv_summary)
                       else currentExecution.(ex_summary))
                      currentExecution.(ex_filesChanged) revisionCount beforeHash)
      else if String.eqb review.(decision) "ask_greg" then
        askGreg (tpl [":thinking_face: Grok reviewed the work and wants your input:"; nl; nl;
                      review.(rv_questionForGreg); nl; nl; "_Summary: "; review.(rv_summary); "_"]) ;;;
        state' <- saveProject (with_inProgress (with_status state WaitingInput) None) ;;
        ret (state', Waiting)
      else
        let revisionCount' := S revisionCount in
        let revisionHistory' := app revisionHistory [(review.(feedback), review.(revisions))] in
        sendMessage (tpl [":memo: Grok requested revisions (round "; nat_str revisionCount'; "): ";
                          review.(feedback)]) ;;;
        revisionResult <- executeRevision review taskDescription state ;;
        if String.eqb revisionResult.(ex_status) "completed"
           && negb (is_empty revisionResult.(ex_commitHash)) then
          review_rounds f state taskDescription beforeHash revisionCount' revisionResult revisionHistory'
        else
          askGreg (tpl [":warning: Claude's revision didn't produce a clean result."; nl; nl;
                        "Original task: "; taskDescription; nl;
                        "Attempted revisions: "; nat_str revisionCount'; nl; nl;
                        "How should we proceed?"]) ;;;
          state' <- saveProject (with_inProgress (with_status state WaitingInput) None) ;;
          ret (state', Waiting)
    else hit_safety_cap
  end.

Definition reviewLoop (state : ProjectState) (decision' : Decision) (execution : ExecResult)
    : M (ProjectState * ReviewOutcome) :=
  beforeHash <- git_before_hash ;;
  review_rounds SAFETY_CAP state decision'.(nextStep).(task) beforeHash 0 execution [].

(** ** processProject (src/src/index.js, lines 126-345) *)

Notation "' p <- m ;; k" := (bind m (fun x => match x with p => k end))
  (at level 61, p pattern, m at next level, right associativity).

(** [timeRemaining()]: [None] is [Infinity] (no time budget); the clock
    is read only when there is a budget. *)
Definition timeRemaining (timeBudgetMs sessionStart : Z) : M (option Z) :=
  if Z.ltb 0 timeBudgetMs
  then t <- now ;; ret (Some (timeBudgetMs - (t - sessionStart))%Z)
  else ret None.

Definition remaining_lt (r : option Z) (bound : Z) : bool :=
  match r with None => false | Some z => Z.ltb z bound end.
Definition remaining_gt (r : option Z) (bound : Z) : bool :=
  match r with None => true | Some z => Z.ltb bound z end.

Fixpoint prev_iterations (i : nat) (bs : list IterationBranch) : list string :=
  match bs with
  | [] => []
  | b :: r => tpl ["Iteration "; nat_str i; " (branch: "; b.(branch); "): "; b.(ib_summary)]
              :: prev_iterations (S i) r
  end.

Definition iteration_note (currentIteration : nat) (bs : list IterationBranch) : string :=
  tpl [nl; nl; "[ITERATION MODE] This is iteration "; nat_str currentIteration;
       ". Previous approaches:"; nl; join nl (prev_iterations 1 bs); nl; nl;
       "Try a meaningfully DIFFERENT approach this time. Different architecture, different libraries, different structure."].

(** How an iteration leaves the [while] loop: by its condition or a
    [break] (the session summary follows), or by [return]. *)
Inductive LoopExit := LoopDone | LoopReturn.

(** The branching step after an approved, non-prerequisite task: the
    [try] block succeeds or fails as a whole ([gitOk]); on failure the
    work stays on main and nothing is recorded. *)
Definition branch_iteration (maxIterations' currentIteration : nat) (timeBudgetMs sessionStart : Z)
    (branches : list IterationBranch) (summary commitHash beforeHash : string)
    : M (list IterationBranch) :=
  go <- (if Nat.ltb 1 maxIterations' && Nat.ltb currentIteration maxIterations'
         then r <- timeRemaining timeBudgetMs sessionStart ;; ret (remaining_gt r 60000)
         else ret false) ;;
  if go then
    ok <- pop gitOk set_gitOk ;;
    match ok with
    | Some true =>
        let branchName := tpl ["iteration-"; nat_str currentIteration] in
        emit (EGitBranch branchName) ;;;
        emit EGitCheckoutMain ;;;
        (if is_empty beforeHash then ret tt else emit (EGitReset beforeHash)) ;;;
        let branches' := app branches [mkBranch branchName summary commitHash] in
        sendMessage (tpl [":bookmark: Saved iteration "; nat_str currentIteration;
                          " as branch `"; branchName; "`"]) ;;;
        ret branches'
    | _ => ret branches
    end
  else ret branches.

(** What one pass of the loop body leaves: go round again, or leave the
    loop (by [break] or [return]). *)
Inductive Step :=
| Next (state : ProjectState) (branches : list IterationBranch) (currentIteration : nat)
| Leave (state : ProjectState) (branches : list IterationBranch) (currentIteration : nat)
        (exit : LoopExit).

(** The [timeRemaining() < 60000] test at the top of the loop body;
    it is only made when there is a time budget. *)
Definition time_up (timeBudgetMs sessionStart : Z) : M bool :=
  if Z.ltb 0 timeBudgetMs
  then r <- timeRemaining timeBudgetMs sessionStart ;; ret (remaining_lt r 60000)
  else ret false.

(** Steps 1 and 2 of the loop body: the iteration notice, [analyzeRepo],
    the iteration note, [proposeNextStep], adopting the direction as the
    goal and clearing the direction. *)
Definition consult (maxIterations' : nat) (state : ProjectState)
    (branches : list IterationBranch) (currentIteration : nat) : M (ProjectState * Decision) :=
  (if Nat.ltb 1 currentIteration
   then sendMessage (tpl [":repeat: Starting iteration "; nat_str currentIteration; "/";
                          nat_str maxIterations'; " - trying a different approach..."])
   else ret tt) ;;;
  analyzeRepo state.(repoPath) ;;;
  let state := if Nat.ltb 1 currentIteration && negb (Nat.eqb (length branches) 0)
               then with_gregDirection state
                      (state.(gregDirection) ++ iteration_note currentIteration branches)
               else state in
  decision' <- proposeNextStep state ;;
  let state := if is_empty state.(currentGoal) && negb (is_empty state.(gregDirection))
               then with_currentGoal state state.(gregDirection) else state in
  state <- (if negb (is_empty state.(gregDirection))
            then saveProject (with_gregDirection state "") else ret state) ;;
  ret (state, decision').

(** The body of [while (currentIteration < maxIterations) { ... }],
    from [currentIteration++] to [if (timeBudget === 0) break]. *)
Definition iteration (projectId' : string) (timeBudgetMs : Z)
    (maxIterations' : nat) (sessionStart : Z) (state : ProjectState)
    (branches : list IterationBranch) (currentIteration : nat) : M Step :=
  let currentIteration := S currentIteration in
  stop <- time_up timeBudgetMs sessionStart ;;
  if stop then ret (Leave state branches currentIteration LoopDone) else
  ' (state, decision') <- consult maxIterations' state branches currentIteration ;;
  let task' := decision'.(nextStep).(task) in
  if decision'.(needsGreg) || String.eqb decision'.(confidence) "low" then
    askGreg (if is_empty decision'.(questionForGreg)
             then tpl ["Should I proceed with: "; task'; "?"]
             else decision'.(questionForGreg)) ;;;
    state <- saveProject (with_status state WaitingInput) ;;
    ret (Leave state branches currentIteration LoopReturn)
  else
  startedAt' <- now ;;
  state <- saveProject (with_inProgress state (Some (mkTaskRef task' startedAt' "claude"))) ;;
  execution <- executeTask decision'.(nextStep) state ;;
  if String.eqb execution.(ex_status) "completed" && negb (is_empty execution.(ex_commitHash)) then
    ' (state, result) <- reviewLoop state decision' execution ;;
    match result with
    | Waiting => ret (Leave state branches currentIteration LoopReturn)
    | Finalized commitHash summary filesChanged revisionCount beforeHash =>
        completedAt' <- now ;;
        let taskEntry := mkTaskRecord task' completedAt' commitHash revisionCount
                           (if Nat.ltb 1 maxIterations' then Some currentIteration else None) in
        ' (branches, currentIteration) <-
          (if decision'.(nextStep).(isPrerequisite)
           then ret (branches, currentIteration - 1)
           else bs <- branch_iteration maxIterations' currentIteration timeBudgetMs sessionStart
                        branches summary commitHash beforeHash ;;
                ret (bs, currentIteration)) ;;
        lastActivity' <- now ;;
        let state := with_lastActivity
                       (with_inProgress (with_completed state (app state.(completed) [taskEntry])) None)
                       lastActivity' in
        reportProgress summary commitHash ;;;
        state <- saveProject state ;;
        if Z.eqb timeBudgetMs 0 then ret (Leave state branches currentIteration LoopDone)
        else ret (Next state branches currentIteration)
    end
  else if String.eqb execution.(ex_status) "completed" then
    askGreg (tpl ["Claude worked on "; dq; task'; dq; " but didn't produce a commit. How should we proceed?"]) ;;;
    state <- saveProject (with_inProgress (with_status state WaitingInput) None) ;;
    ret (Leave state branches currentIteration LoopReturn)
  else if String.eqb execution.(ex_status) "needs_input" then
    let questions := join nl execution.(ex_questionsForGreg) in
    askGreg (if is_empty questions then execution.(ex_summary) else questions) ;;;
    state <- saveProject (with_inProgress (with_status state WaitingInput) None) ;;
    ret (Leave state branches currentIteration LoopReturn)
  else
    reportError execution.(ex_summary) "execution" ;;;
    state <- saveProject (with_inProgress state None) ;;
    ret (Leave state branches currentIteration LoopReturn).

(** The [while (currentIteration < maxIterations)] loop; one unit of fuel
    per pass. *)
Fixpoint iteration_loop (fuel : nat) (projectId' : string) (timeBudgetMs : Z)
    (maxIterations' : nat) (sessionStart : Z) (state : ProjectState)
    (branches : list IterationBranch) (currentIteration : nat)
    : M (ProjectState * list IterationBranch * nat * LoopExit) :=
  match fuel with
  | O => fun w => (OutOfFuel, w)
  | S f =>
      if Nat.ltb currentIteration maxIterations' then
        step <- iteration projectId' timeBudgetMs maxIterations' sessionStart state
                  branches currentIteration ;;
        match step with
        | Next state' branches' currentIteration' =>
            iteration_loop f projectId' timeBudgetMs maxIterations' sessionStart state'
              branches' currentIteration'
        | Leave state' branches' currentIteration' exit =>
            ret (state', branches', currentIteration', exit)
        end
      else ret (state, branches, currentIteration, LoopDone)
  end.

Definition processProject (fuel : nat) (projectId' : string) : M unit :=
  state <- loadProject projectId' ;;
  match state.(status) with
  | WaitingInput => ret tt
  | st0 =>
  state <- (match st0 with
            | Completed =>
                sendMessage (tpl [":tada: *"; state.(name); "* is complete! Nice work."; nl; nl;
                                  "What should we tackle next?"]) ;;;
                reply <- waitForGreg ;;
                parsed <- parseGoal reply ;;
                let ctx := state.(context) in
                let state := with_context
                  (with_gregDirection (with_status (with_currentGoal state parsed.(pg_currentGoal)) Active) "")
                  (mkContext (match parsed.(pg_techStack) with Some t => t | None => ctx.(techStack) end)
                             (match parsed.(pg_preferences) with Some p => p | None => ctx.(preferences) end)
                             ctx.(gregAvailability)) in
                state <- saveProject state ;;
                sendMessage (tpl [":rocket: New goal set: *"; parsed.(pg_currentGoal); "*"; nl; nl;
                                  "Starting work..."]) ;;;
                ret state
            | _ => ret state
            end) ;;
  let timeBudgetMs := (Z.of_nat state.(timeBudget) * 60 * 1000)%Z in
  let maxIterations' := if Nat.eqb state.(maxIterations) 0 then 1 else state.(maxIterations) in
  sessionStart <- now ;;
  (if Z.ltb 0 timeBudgetMs
   then sendMessage (tpl [":clock1: Starting timed session for *"; state.(name); "*: ";
                          nat_str state.(timeBudget); " minute budget, up to ";
                          nat_str maxIterations'; " iteration(s)."])
   else ret tt) ;;;
  ' (state, branches, _, exit) <-
    iteration_loop fuel projectId' timeBudgetMs maxIterations' sessionStart state [] 0 ;;
  match exit with
  | LoopReturn => ret tt
  | LoopDone =>
      if Nat.ltb 1 (length branches) then
        t <- now ;;
        let elapsed := ((t - sessionStart) / 60000)%Z in
        sendMessage (join nl [tpl [":checkered_flag: *Session complete for "; state.(name); "*"];
                              tpl ["Elapsed: "; nat_str (Z.to_nat elapsed); " minutes | ";
                                   nat_str (length branches); " iterations"];
                              ""; "*Branches to compare:*";
                              join nl (map (fun b => tpl ["  `"; b.(branch); "` - "; b.(ib_summary)]) branches);
                              ""; "Switch between them with `git checkout iteration-N` and pick your favorite."])
      else ret tt
  end
  end.

(** ** Onboarding and the dispatch cycle (src/src/index.js, lines 24-124) *)

Definition get_repoBase : M string := fun w => (Ok w.(repoBase), w).

Definition onboard : M string :=
  askGregForGoal ;;;
  gregReply <- waitForGreg ;;
  sendMessage ":brain: Parsing your goal..." ;;;
  parsed <- parseGoal gregReply ;;
  base <- get_repoBase ;;
  let repoPath' := tpl [base; "/"; if is_empty parsed.(pg_repoName) then parsed.(pg_projectId)
                                   else parsed.(pg_repoName)] in
  emit (EMkdir repoPath') ;;;
  lastChecked' <- now ;;
  lastActivity' <- now ;;
  let state := mkState parsed.(pg_projectId) parsed.(pg_name) repoPath' parsed.(pg_currentGoal)
                 Active [] None ""
                 (mkContext (match parsed.(pg_techStack) with Some t => t | None => [] end)
                            (match parsed.(pg_preferences) with Some p => p | None => [] end)
                            "Business hours weekdays, limited weekends")
                 0 0 lastChecked' lastActivity' in
  state <- saveProject state ;;
  sendMessage (tpl [":rocket: *Project created: "; state.(name); "*"]) ;;;
  ret state.(projectId).

Definition get_cycleRunning : M bool := fun w => (Ok w.(cycleRunning), w).
Definition put_cycleRunning (b : bool) : M unit := fun w => (Ok tt, set_cycleRunning w b).

(** [for (const projectId of projects) { try { ... } catch { reportError } }] *)
Fixpoint process_all (fuel : nat) (projects : list string) : M unit :=
  match projects with
  | [] => ret tt
  | projectId' :: rest =>
      r <- try_catch (processProject fuel projectId') ;;
      (match r with
       | inl err => reportError err "process_project"
       | inr _ => ret tt
       end) ;;;
      process_all fuel rest
  end.

Definition dispatch_body (fuel : nat) : M unit :=
  p <- try_catch loadActiveProjects ;;
  match p with
  | inl err => reportError err "load_projects"
  | inr [] =>
      waiting <- loadWaitingProjects ;;
      match waiting with
      | _ :: _ => ret tt
      | [] =>
          r <- try_catch onboard ;;
          match r with
          | inl err => reportError err "onboarding"
          | inr newId => process_all fuel [newId]
          end
      end
  | inr projects => process_all fuel projects
  end.

Definition dispatchCycle (fuel : nat) : M unit :=
  running <- get_cycleRunning ;;
  if running then ret tt
  else put_cycleRunning true ;;;
       try_finally (dispatch_body fuel) (put_cycleRunning false).

(** ** The reply router (registerGregHandler, src/src/index.js, lines 440-477) *)

(** The active-project branch: [state.gregDirection = text],
    [state.lastActivity = new Date()], [saveProject(state)]. *)
Definition attach_direction (projectId' text : string) : M ProjectState :=
  state <- loadProject projectId' ;;
  t <- now ;;
  saveProject (with_lastActivity (with_gregDirection state text) t).

Definition gregHandler (fuel : nat) (text : string) : M unit :=
  r <- try_catch (
    waiting <- loadWaitingProjects ;;
    match waiting with
    | projectId' :: _ =>
        resumeProject projectId' text ;;;
        dispatchCycle fuel
    | [] =>
        active <- loadActiveProjects ;;
        match active with
        | projectId' :: _ =>
            state <- attach_direction projectId' text ;;
            sendMessage (tpl [":thumbsup: Got it - I'll factor that into the next cycle for *";
                              state.(name); "*."]) ;;;
            dispatchCycle fuel
        | [] => dispatchCycle fuel
        end
    end) ;;
  match r with
  | inl err => reportError err "greg_reply_handler"
  | inr _ => ret tt
  end.

(** * Parsed JSON records (src/src/utils/schemas.js and the state module) *)

(** A value [JSON.parse] can produce.  A number is kept as the text
    JavaScript prints for it ([String(n)]), so [0] is ["0"]; an object as
    its properties in source order, where a repeated key stands for its
    last value, as [JSON.parse] keeps it.  Strings are sequences of 8-bit
    code units (each [ascii] one JavaScript code unit below 256). *)
#[warnings="-register-all"]
Inductive json :=
| JNull
| JBool (b : bool)
| JNum (text : string)
| JStr (s : string)
| JArr (items : list json)
| JObj (fields : list (string * json)).

(** [o[k]] on the own properties of an object; [None] is [undefined]. *)
Fixpoint obj_get (fields : list (string * json)) (k : string) : option json :=
  match fields with
  | [] => None
  | (k', v) :: r =>
      match obj_get r k with
      | Some x => Some x
      | None => if String.eqb k' k then Some v else None
      end
  end.

(** [o[k] = v] (CreateDataProperty): an existing key keeps its place, a
    new one goes last. *)
Definition obj_set (fields : list (string * json)) (k : string) (v : json) : list (string * json) :=
  if existsb (fun kv => String.eqb (fst kv) k) fields
  then map (fun kv => if String.eqb (fst kv) k then (k, v) else kv) fields
  else app fields [(k, v)].

(** [{ ...target, ...src }]: the properties of [src] copied in order. *)
Definition obj_spread (target src : list (string * json)) : list (string * json) :=
  fold_left (fun acc kv => obj_set acc (fst kv) (snd kv)) src target.

(** [v.k] for a value that is not [null] or [undefined]; the keys this
    code reads are no properties of strings, numbers, booleans or arrays. *)
Definition prop (v : json) (k : string) : option json :=
  match v with JObj fs => obj_get fs k | _ => None end.

(** [v?.k] *)
Definition oprop (v : option json) (k : string) : option json :=
  match v with Some v => prop v k | None => None end.

(** [!!v] *)
Definition truthy (v : option json) : bool :=
  match v with
  | None | Some JNull => false
  | Some (JBool b) => b
  | Some (JNum t) => negb (String.eqb t "0")
  | Some (JStr s) => negb (is_empty s)
  | Some (JArr _) | Some (JObj _) => true
  end.

Definition is_str (v : option json) : bool :=
  match v with Some (JStr _) => true | _ => false end.
Definition is_bool (v : option json) : bool :=
  match v with Some (JBool _) => true | _ => false end.
(** [Array.isArray(v)] *)
Definition is_array (v : option json) : bool :=
  match v with Some (JArr _) => true | _ => false end.
(** [[...].includes(v)] for a list of strings. *)
Definition includes_str (l : list string) (v : option json) : bool :=
  match v with Some (JStr s) => existsb (String.eqb s) l | _ => false end.

(** [String(v)] as a template literal computes it; [None] is the
    TypeError of an object whose own [toString] is no function.  An
    array prints as its items joined by commas, [null] items empty. *)
Fixpoint to_str (v : json) : option string :=
  match v with
  | JNull => Some "null"
  | JBool b => Some (if b then "true" else "false")
  | JNum t => Some t
  | JStr s => Some s
  | JArr items =>
      let fix go (l : list json) : option (list string) :=
        match l with
        | [] => Some []
        | JNull :: r => option_map (cons EmptyString) (go r)
        | e :: r => match to_str e, go r with
                    | Some s, Some ss => Some (s :: ss)
                    | _, _ => None
                    end
        end in
      option_map (join ",") (go items)
  | JObj fs => match obj_get fs "toString" with
               | Some _ => None
               | None => Some "[object Object]"
               end
  end.

Definition tmpl (v : option json) : option string :=
  match v with None => Some "undefined" | Some j => to_str j end.

(** The messages of the TypeErrors this code can raise (V8's wording). *)
Definition read_error (what k : string) : string :=
  tpl ["Cannot read properties of "; what; " (reading '"; k; "')"].
Definition primitive_error : string := "Cannot convert object to primitive value".

(** [if (![...].includes(v)) errors.push(`label${v}`)]; [inl] is a throw. *)
Definition check_in (l : list string) (label : string) (v : option json) : string + list string :=
  if includes_str l v then inr []
  else match tmpl v with
       | Some s => inr [label ++ s]
       | None => inl primitive_error
       end.

Definition STATUSES : list string := ["active"; "paused"; "completed"; "waiting_input"].

(** [validateProjectState] on a parsed record (schemas.js, lines 4-14);
    [inl] is the error it throws. *)
Definition validateProjectState_json (state : json) : string + list string :=
  match state with
  | JNull => inl (read_error "null" "projectId")
  | _ =>
      let required k :=
        if negb (truthy (prop state k)) || negb (is_str (prop state k))
        then [k ++ " is required"] else [] in
      match check_in STATUSES "invalid status: " (prop state "status") with
      | inl e => inl e
      | inr e4 =>
          inr (app (required "projectId") (app (required "name") (app (required "repoPath")
                (app e4 (if is_array (prop state "completed") then []
                         else ["completed must be an array"])))))
      end
  end.

(** [validateDecision] (schemas.js, lines 19-27). *)
Definition validateDecision (decision' : json) : string + list string :=
  match decision' with
  | JNull => inl (read_error "null" "nextStep")
  | _ =>
      let e1 := if truthy (oprop (prop decision' "nextStep") "task") then []
                else ["nextStep.task is required"] in
      match check_in ["high"; "medium"; "low"] "invalid confidence: " (prop decision' "confidence") with
      | inl e => inl e
      | inr e2 =>
          inr (app e1 (app e2 (if is_bool (prop decision' "needsGreg") then []
                               else ["needsGreg must be boolean"])))
      end
  end.

(** [validateExecution] (schemas.js, lines 32-39). *)
Definition validateExecution (result : json) : string + list string :=
  match result with
  | JNull => inl (read_error "null" "status")
  | _ =>
      match check_in ["completed"; "failed"; "needs_input"] "invalid status: " (prop result "status") with
      | inl e => inl e
      | inr e1 =>
          inr (app e1 (if truthy (prop result "summary") then [] else ["summary is required"]))
      end
  end.

(** The literal of [createProjectTemplate] (schemas.js, lines 44-63); the
    two [new Date().toISOString()] readings are arguments. *)
Definition project_template (lastChecked' lastActivity' : string) : list (string * json) :=
  [("projectId", JStr ""); ("name", JStr ""); ("repoPath", JStr ""); ("currentGoal", JStr "");
   ("status", JStr "active"); ("completed", JArr []); ("inProgress", JNull); ("blockers", JArr []);
   ("context", JObj [("techStack", JArr []); ("preferences", JArr []);
                     ("gregAvailability", JStr "Business hours weekdays, limited weekends")]);
   ("lastChecked", JStr lastChecked'); ("lastActivity", JStr lastActivity')].

Definition createProjectTemplate (lastChecked' lastActivity' : string)
    (overrides : list (string * json)) : json :=
  JObj (obj_spread (obj_spread [] (project_template lastChecked' lastActivity')) overrides).

(** ** File names of the project store (server.js, lines 262-330) *)

(** [s.endsWith(suffix)] *)
Fixpoint ends_with (suffix s : string) : bool :=
  String.eqb s suffix || match s with EmptyString => false | String _ r => ends_with suffix r end.

(** [s.includes(pat)] *)
Fixpoint contains (pat s : string) : bool :=
  String.prefix pat s || match s with EmptyString => false | String _ r => contains pat r end.

(** [s.replace(pat, rep)] with a string pattern and a replacement without
    [$]: the first occurrence only. *)
Fixpoint replace_first (pat rep s : string) : string :=
  if String.prefix pat s then rep ++ substring (String.length pat) (String.length s - String.length pat) s
  else match s with
       | EmptyString => s
       | String c r => String c (replace_first pat rep r)
       end.

Definition projectPath (projectId' : string) : string := projectId' ++ ".json".
Definition backupPath (projectId' : string) : string := projectId' ++ ".backup.json".

(** [files.filter(f => f.endsWith('.json') && !f.endsWith('.backup.json'))
          .map(f => f.replace('.json', ''))] *)
Definition file_ids (files : list string) : list string :=
  map (replace_first ".json" "")
      (filter (fun f => ends_with ".json" f && negb (ends_with ".backup.json" f)) files).

(** A file of the projects directory: its name and what [JSON.parse] of
    its contents gives ([inl]: the message of the SyntaxError it throws). *)
Definition Dir := list (string * (string + json)).

Fixpoint file_lookup (d : Dir) (f : string) : option (string + json) :=
  match d with
  | [] => None
  | (f', c) :: r => if String.eqb f' f then Some c else file_lookup r f
  end.

(** loadActiveProjects and loadWaitingProjects over the files: each id's
    record is loaded ([loadProject] reads, parses and validates, which may
    throw: the id is skipped) and kept if [state.status === st]. *)
Definition load_ids_fs (d : Dir) (st : string) : list string :=
  filter (fun id =>
            match file_lookup d (projectPath id) with
            | Some (inr j) =>
                match validateProjectState_json j with
                | inl _ => false
                | inr _ => match prop j "status" with
                           | Some (JStr s) => String.eqb s st
                           | _ => false
                           end
                end
            | _ => false
            end)
         (file_ids (map fst d)).

(** [markComplete] (server.js, lines 287-292). *)
Definition markComplete (state : ProjectState) : M unit :=
  saveProject (with_inProgress (with_status state Completed) None) ;;; ret tt.

(** ** The admin server's HTTP handlers (server.js, lines 20-141 and 199-211) *)

Module Admin.

(** [writeFile]: the file's new contents (a new file is listed last). *)
Fixpoint dir_put (d : Dir) (f : string) (c : string + json) : Dir :=
  match d with
  | [] => [(f, c)]
  | (f', c') :: r => if String.eqb f' f then (f, c) :: r else (f', c') :: dir_put r f c
  end.

(** [unlink] *)
Definition dir_remove (d : Dir) (f : string) : Dir :=
  filter (fun fc => negb (String.eqb (fst fc) f)) d.

(** [res.status(code).json(body)]; the projects directory is taken to be
    readable and writable, so [mkdir] succeeds. *)
Record Resp := mkResp { code : Z; body : json }.

Definition error_body (msg : string) : json := JObj [("error", JStr msg)].

(** [v.k] where [v] may be [undefined] ([None]) or [null]: the TypeError,
    or the property. *)
Definition get (v : option json) (k : string) : string + option json :=
  match v with
  | None => inl (read_error "undefined" k)
  | Some JNull => inl (read_error "null" k)
  | Some j => inr (prop j k)
  end.

Definition sbind {A B} (m : string + A) (k : A -> string + B) : string + B :=
  match m with inl e => inl e | inr a => k a end.

(** [a ?? b] *)
Definition nullish_or (a : option json) (b : string + option json) : string + option json :=
  match a with None | Some JNull => b | Some _ => inr a end.

(** [a || b] on values. *)
Definition or_else (a : option json) (b : json) : json :=
  match a with Some j => if truthy a then j else b | None => b end.

(** The own enumerable properties [{ ...v }] copies: an array's or a
    string's are its indices. *)
Fixpoint indexed {X} (f : X -> json) (n : nat) (l : list X) : list (string * json) :=
  match l with
  | [] => []
  | x :: r => (nat_str n, f x) :: indexed f (S n) r
  end.

Definition spread_src (v : option json) : list (string * json) :=
  match v with
  | Some (JObj fs) => fs
  | Some (JArr items) => indexed (fun j => j) 0 items
  | Some (JStr s) => indexed (fun c => JStr (String c EmptyString)) 0 (list_ascii_of_string s)
  | _ => []
  end.

(** A literal property [k: v]; a property set to [undefined] is left
    out, as [JSON.stringify] leaves it out of the file and the response
    (the key is never one [{ ...existing }] copied). *)
Definition set_opt (fs : list (string * json)) (k : string) (v : option json) : list (string * json) :=
  match v with Some j => obj_set fs k j | None => fs end.

Section Handlers.

(** [String(parseInt(v))]: the text of the number, ["NaN"] included. *)
Variable parseInt : option json -> string.

(** [parseInt(v) || d] *)
Definition parseInt_or (v : option json) (d : string) : json :=
  let n := parseInt v in
  if String.eqb n "0" || String.eqb n "NaN" then JNum d else JNum n.

(** POST /api/projects; [t1] and [t2] are the two [new Date()] readings
    of createProjectTemplate. *)
Definition post_project (t1 t2 : string) (data : option json) (d : Dir) : Resp * Dir :=
  match data with
  | None => (mkResp 500 (error_body (read_error "undefined" "projectId")), d)
  | Some JNull => (mkResp 500 (error_body (read_error "null" "projectId")), d)
  | Some data =>
      match prop data "projectId" with
      | Some pid' as pid =>
          if negb (truthy pid) then (mkResp 400 (error_body "projectId is required"), d)
          else
            let state := createProjectTemplate t1 t2
              [("projectId", pid');
               ("name", or_else (prop data "name") pid');
               ("repoPath", or_else (prop data "repoPath") (JStr ""));
               ("currentGoal", or_else (prop data "currentGoal") (JStr ""));
               ("status", or_else (prop data "status") (JStr "active"));
               ("timeBudget", parseInt_or (prop data "timeBudget") "0");
               ("maxIterations", parseInt_or (prop data "maxIterations") "1");
               ("context", JObj [("techStack", or_else (prop data "techStack") (JArr []));
                                 ("preferences", or_else (prop data "preferences") (JArr []));
                                 ("gregAvailability", or_else (prop data "gregAvailability")
                                    (JStr "Business hours weekdays, limited weekends"))])] in
            match validateProjectState_json state with
            | inl e => (mkResp 500 (error_body e), d)
            | inr ((_ :: _) as errors) => (mkResp 400 (error_body (join ", " errors)), d)
            | inr [] =>
                match tmpl (prop state "projectId") with
                | None => (mkResp 500 (error_body primitive_error), d)
                | Some id => (mkResp 200 state, dir_put d (id ++ ".json") (inr state))
                end
            end
      | None => (mkResp 400 (error_body "projectId is required"), d)
      end
  end.

End Handlers.

(** The record PUT /api/projects/:id builds (lines 94-110), or the
    TypeError building it throws; [t] is [new Date().toISOString()]. *)
Definition put_update (t : string) (existing : json) (data : option json) : string + json :=
  let ex := Some existing in
  let base := obj_spread [] (spread_src ex) in
  sbind (get data "name") (fun dn => sbind (nullish_or dn (get ex "name")) (fun name' =>
  sbind (get data "repoPath") (fun dr => sbind (nullish_or dr (get ex "repoPath")) (fun repoPath' =>
  sbind (get data "currentGoal") (fun dc => sbind (nullish_or dc (get ex "currentGoal")) (fun currentGoal' =>
  sbind (get data "status") (fun ds => sbind (nullish_or ds (get ex "status")) (fun status' =>
  sbind (get data "gregDirection") (fun dg => sbind (nullish_or dg (get ex "gregDirection")) (fun gregDirection' =>
  sbind (get data "timeBudget") (fun dt => sbind (get ex "timeBudget") (fun et =>
  sbind (nullish_or dt (nullish_or et (inr (Some (JNum "0"))))) (fun timeBudget' =>
  sbind (get data "maxIterations") (fun dm => sbind (get ex "maxIterations") (fun em =>
  sbind (nullish_or dm (nullish_or em (inr (Some (JNum "1"))))) (fun maxIterations' =>
  sbind (get ex "context") (fun ctx =>
  sbind (get data "techStack") (fun dts =>
  sbind (nullish_or dts (nullish_or (oprop ctx "techStack") (inr (Some (JArr []))))) (fun techStack' =>
  sbind (get data "preferences") (fun dp =>
  sbind (nullish_or dp (nullish_or (oprop ctx "preferences") (inr (Some (JArr []))))) (fun preferences' =>
  sbind (get data "gregAvailability") (fun da =>
  sbind (nullish_or da (nullish_or (oprop ctx "gregAvailability") (inr (Some (JStr ""))))) (fun gregAvailability' =>
  let context' := set_opt (set_opt (set_opt (obj_spread [] (spread_src ctx))
                    "techStack" techStack') "preferences" preferences') "gregAvailability" gregAvailability' in
  inr (JObj (obj_set (obj_set (set_opt (set_opt (set_opt (set_opt (set_opt (set_opt (set_opt base
             "name" name') "repoPath" repoPath') "currentGoal" currentGoal') "status" status')
             "gregDirection" gregDirection') "timeBudget" timeBudget') "maxIterations" maxIterations')
             "context" (JObj context')) "lastChecked" (JStr t)))
  ))))))))))))))))))))))).

(** PUT /api/projects/:id *)
Definition put_project (t id : string) (data : option json) (d : Dir) : Resp * Dir :=
  let filePath := id ++ ".json" in
  match file_lookup d filePath with
  | None => (mkResp 404 (error_body ("Project not found: " ++ id)), d)
  | Some (inl e) => (mkResp 500 (error_body e), d)
  | Some (inr existing) =>
      match put_update t existing data with
      | inl e => (mkResp 500 (error_body e), d)
      | inr updated =>
          match validateProjectState_json updated with
          | inl e => (mkResp 500 (error_body e), d)
          | inr ((_ :: _) as errors) => (mkResp 400 (error_body (join ", " errors)), d)
          | inr [] => (mkResp 200 updated, dir_put d filePath (inr updated))
          end
      end
  end.

(** DELETE /api/projects/:id; the backup's [unlink] errors are ignored. *)
Definition delete_project (id : string) (d : Dir) : Resp * Dir :=
  match file_lookup d (id ++ ".json") with
  | None => (mkResp 404 (error_body ("Project not found: " ++ id)), d)
  | Some _ => (mkResp 200 (JObj [("deleted", JStr id)]),
               dir_remove (dir_remove d (id ++ ".json")) (id ++ ".backup.json"))
  end.

(** JavaScript's white space and line terminators below 256. *)
Definition is_ws (c : ascii) : bool :=
  match nat_of_ascii c with 9 | 10 | 11 | 12 | 13 | 32 | 160 => true | _ => false end.

Fixpoint trim_start (s : string) : string :=
  match s with
  | EmptyString => EmptyString
  | String c r => if is_ws c then trim_start r else s
  end.

(** [s.trim()] *)
Definition trim (s : string) : string :=
  string_of_list_ascii (rev (list_ascii_of_string
    (trim_start (string_of_list_ascii (rev (list_ascii_of_string (trim_start s))))))).

(** [s.split(sep)] for a one-character separator. *)
Fixpoint split_on (sep : ascii) (s : string) : list string :=
  match s with
  | EmptyString => [EmptyString]
  | String c r =>
      let rest := split_on sep r in
      if Ascii.eqb c sep then EmptyString :: rest
      else match rest with
           | h :: t => String c h :: t
           | [] => [String c EmptyString]
           end
  end.

(** [xs.slice(-n)] *)
Definition slice_last {X} (n : nat) (xs : list X) : list X := skipn (length xs - n) xs.

(** GET /api/logs: the lines of today's log ([None]: reading it fails). *)
Definition get_logs (raw : option string) : list string :=
  match raw with
  | None => ["No logs found for today."]
  | Some raw => slice_last 100 (split_on (ascii_of_nat 10) (trim raw))
  end.

(** [a ?? b] on two property values, [None] being [undefined]. *)
Definition merged (dv ev : option json) : option json :=
  match dv with None | Some JNull => ev | _ => dv end.

End Admin.

(** ** The logger's level filter (src/src/utils/logger.js) *)

Module Logger.

(** The value of [LEVELS[k]]: a number, [undefined], or a member
    [LEVELS] inherits from [Object.prototype] (a function, or the
    prototype itself for [__proto__]), which converts to [NaN]. *)
Inductive level_val := LNum (n : Z) | LUndef | LInherited.

Definition proto_names : list string :=
  ["constructor"; "__defineGetter__"; "__defineSetter__"; "hasOwnProperty";
   "__lookupGetter__"; "__lookupSetter__"; "isPrototypeOf"; "propertyIsEnumerable";
   "toString"; "valueOf"; "__proto__"; "toLocaleString"].

(** [LEVELS[k]] for [const LEVELS = { debug: 0, info: 1, warn: 2, error: 3 }] *)
Definition LEVELS (k : string) : level_val :=
  if String.eqb k "debug" then LNum 0
  else if String.eqb k "info" then LNum 1
  else if String.eqb k "warn" then LNum 2
  else if String.eqb k "error" then LNum 3
  else if existsb (String.eqb k) proto_names then LInherited
  else LUndef.

(** [config.logLevel = process.env.LOG_LEVEL || 'info'] *)
Definition logLevel_of (env : option string) : string :=
  match env with Some s => if is_empty s then "info" else s | None => "info" end.

(** [LEVELS[config.logLevel] ?? LEVELS.info] *)
Definition currentLevel (logLevel : string) : level_val :=
  match LEVELS logLevel with LUndef => LEVELS "info" | v => v end.

(** [a < b]: a comparison with [NaN] or [undefined] is false. *)
Definition lt (a b : level_val) : bool :=
  match a, b with LNum x, LNum y => Z.ltb x y | _, _ => false end.

Definition to_upper (s : string) : string :=
  string_of_list_ascii (map (fun c => let n := nat_of_ascii c in
                              if Nat.leb 97 n && Nat.leb n 122 then ascii_of_nat (n - 32) else c)
                            (list_ascii_of_string s)).

(** [format(level, msg, meta)]; [meta] is an object at every call site,
    given here as the text [JSON.stringify] makes of it. *)
Definition format (ts level msg : string) (meta : option string) : string :=
  let base := tpl ["["; ts; "] ["; to_upper level; "] "; msg] in
  match meta with Some m => tpl [base; " "; m] | None => base end.

(** [write(level, msg, meta)]: the line printed and appended, if any. *)
Definition write (logLevel ts level msg : string) (meta : option string) : option string :=
  if lt (LEVELS level) (currentLevel logLevel) then None
  else Some (format ts level msg meta).

End Logger.

(** ** Helpers of src/src/project/analyzer.js *)

Module Analyzer.

(** [`${n}`] for an integer. *)
Definition z_str (z : Z) : string :=
  if Z.ltb z 0 then "-" ++ nat_str (Z.to_nat (- z)%Z) else nat_str (Z.to_nat z).

(** [timeSince(date)] (lines 217-223) with [Date.now()] = [now];
    [date.getTime()] is [None] for an invalid date ([NaN]).  The float
    division and [Math.floor] agree with [Z.div] while the distance is
    below 2^52 ms. *)
Definition timeSince (now : Z) (date : option Z) : string :=
  match date with
  | None => "NaNd"
  | Some t =>
      let seconds := ((now - t) / 1000)%Z in
      if Z.ltb seconds 60 then z_str seconds ++ "s"
      else if Z.ltb seconds 3600 then z_str (seconds / 60) ++ "m"
      else if Z.ltb seconds 86400 then z_str (seconds / 3600) ++ "h"
      else z_str (seconds / 86400) ++ "d"
  end.

Definition truncated_mark : string := nl ++ "... (truncated)".

(** [s.length > n ? s.slice(0, n) + '\n... (truncated)' : s]; a character
    here is one UTF-16 code unit of the JavaScript string. *)
Definition cap (n : N) (s : string) : string :=
  if N.ltb n (N.of_nat (String.length s)) then substring 0 (N.to_nat n) s ++ truncated_mark else s.

Record CommitInfo := mkCommitInfo {
  diff : string; filesChanged : list string; fileContents : list (string * string) }.

(** [obj[k] = v] for a string [v] on a plain object: the [__proto__]
    setter ignores a value that is no object. *)
Definition set_str (fs : list (string * string)) (k v : string) : list (string * string) :=
  if String.eqb k "__proto__" then fs
  else if existsb (fun kv => String.eqb (fst kv) k) fs
  then map (fun kv => if String.eqb (fst kv) k then (k, v) else kv) fs
  else app fs [(k, v)].

(** [getCommitDiff(repoPath, commitHash)] (lines 108-147): the answers of
    [git.diff([h~1, h])], [git.diff(['--name-only', ...])] and
    [git.show([h:file])], [inl] being the message of the error thrown.
    [fileContents] is kept in insertion order. *)
Definition getCommitDiff (diff_r names_r : string + string) (show : string -> string + string)
    : CommitInfo :=
  match diff_r, names_r with
  | inl e, _ | inr _, inl e => mkCommitInfo ("Error: " ++ e) [] []
  | inr diff', inr names =>
      let fileList := filter (fun f => negb (is_empty f)) (Admin.split_on (ascii_of_nat 10) names) in
      let contents := fold_left (fun acc file =>
                        set_str acc file (match show file with
                                          | inr content => cap 3000%N content
                                          | inl _ => "(file deleted or binary)"
                                          end))
                        (firstn 15 fileList) [] in
      mkCommitInfo (cap 8000%N diff') fileList contents
  end.

End Analyzer.

(** ** The retry loops of the Grok and Claude agents *)

Module Retry.

(** One attempt of [proposeNextStep] (analyzer.js, lines 417-463) or of
    the CLI [executeTask] (src/unnamed/part_002, lines 85-121): [inl] is
    the message of what the API call, reading the answer or [JSON.parse]
    threw, [inr] the parsed answer. *)
Definition answer : Type := (string + json)%type.

(** The three-attempt loop, from attempt [attempt] on, with the
    validator and the messages of the function: the result ([inl]: the
    error thrown at the end) and the [setTimeout] delays awaited. *)
Fixpoint attempts (fuel attempt : nat) (validate : json -> string + list string)
    (invalid failed : string) (ans : nat -> answer) (lastError : string) : (string + json) * list Z :=
  match fuel with
  | O => (inl (failed ++ lastError), [])
  | S f =>
      match match ans attempt with
            | inl e => inl e
            | inr v => match validate v with
                       | inl e => inl e
                       | inr [] => inr (inr v)
                       | inr errors => inr (inl (invalid ++ join ", " errors))
                       end
            end with
      | inr (inr v) => (inr v, [])
      | inr (inl err) => attempts f (S attempt) validate invalid failed ans err
      | inl err =>
          let '(r, sleeps) := attempts f (S attempt) validate invalid failed ans err in
          (r, app (if Nat.ltb attempt 3 then [(1000 * 2 ^ Z.of_nat attempt)%Z] else []) sleeps)
      end
  end.

Definition proposeNextStep (ans : nat -> answer) : (string + json) * list Z :=
  attempts 3 1 validateDecision "Invalid decision: " "Grok failed after 3 attempts: " ans "".

Definition executeTask (ans : nat -> answer) : (string + json) * list Z :=
  attempts 3 1 validateExecution "Invalid execution result: " "Claude failed after 3 attempts: " ans "".

(** [parseGoal] (analyzer.js, lines 582-632): a parsed answer without a
    truthy [projectId] and [currentGoal] is thrown, and so backed off. *)
Fixpoint parse_attempts (fuel attempt : nat) (ans : nat -> answer) (lastError : string)
    : (string + json) * list Z :=
  match fuel with
  | O => (inl ("Grok parseGoal failed after 3 attempts: " ++ lastError), [])
  | S f =>
      match match ans attempt with
            | inl e => inl e
            | inr parsed =>
                match Admin.get (Some parsed) "projectId" with
                | inl e => inl e
                | inr pid =>
                    if negb (truthy pid) || negb (truthy (prop parsed "currentGoal"))
                    then inl "Missing projectId or currentGoal in parsed result"
                    else inr parsed
                end
            end with
      | inr parsed => (inr parsed, [])
      | inl err =>
          let '(r, sleeps) := parse_attempts f (S attempt) ans err in
          (r, app (if Nat.ltb attempt 3 then [(1000 * 2 ^ Z.of_nat attempt)%Z] else []) sleeps)
      end
  end.

Definition parseGoal (ans : nat -> answer) : (string + json) * list Z :=
  parse_attempts 3 1 ans "".

End Retry.

(** ** [inspectResult] of the spawning Claude agent (src/unnamed/part_001, lines 95-157) *)

Module Inspect.

Record Commit := mkCommit { hash : string; message : string }.
Record GitStatus := mkGitStatus {
  isClean : bool; modified : list string; created : list string; not_added : list string }.
Record ExecOut := mkExecOut {
  status : string; summary : string; filesChanged : list string; commitHash : option string;
  nextSteps : list string; issues : list string; questionsForGreg : list string }.

(** The answer when no new commit is found. *)
Definition no_commit (st : GitStatus) : ExecOut :=
  if negb (isClean st) then
    let changedFiles := app (modified st) (app (created st) (not_added st)) in
    mkExecOut "needs_input" "Made changes but did not commit them" changedFiles None
      ["Review and commit the changes"]
      ["Claude made changes but did not commit — may need permissions or guidance"]
      [tpl ["Claude made changes to "; nat_str (length changedFiles); " file(s) but didn't commit. Files: ";
            join ", " changedFiles; ". Should I review and commit these, or retry the task?"]]
  else mkExecOut "failed" "No changes were made to the repository" [] None []
         ["Claude ran but produced no changes"] [].

(** [inspectResult(repoPath, beforeHash)], from the answers of
    [git.log({ maxCount: 5 })] (its [all]), [git.status()] and the
    [--name-only] diff of the latest commit ([inl]: the error's message). *)
Definition inspectResult (beforeHash : option string) (log_r : string + list Commit)
    (status_r : string + GitStatus) (names_r : string + string) : ExecOut :=
  match log_r, status_r with
  | inl e, _ | inr _, inl e =>
      mkExecOut "failed" ("Failed to inspect repo: " ++ e) [] None [] [e] []
  | inr all, inr st =>
      match hd_error all with
      | Some latestCommit =>
          if match beforeHash with
             | Some b => negb (String.eqb (hash latestCommit) b)
             | None => true
             end
          then
            let diff := match names_r with inr s => s | inl _ => "" end in
            mkExecOut "completed" (message latestCommit)
              (filter (fun f => negb (is_empty f)) (Admin.split_on (ascii_of_nat 10) diff))
              (Some (hash latestCommit)) [] [] []
          else no_commit st
      | None => no_commit st
      end
  end.

End Inspect.

(** Names that no array index can be: their first character is no digit. *)
Definition digit (c : ascii) : Prop := 48 <= nat_of_ascii c <= 57.

Definition word_key (k : string) : Prop :=
  match k with String c _ => ~ digit c | EmptyString => True end.

(** * Vocabulary of the properties *)

(** Counting events of one kind in a trace. *)
Definition count_ev (p : Event -> bool) (es : list Event) : nat := length (filter p es).
Definition is_exec_revision (e : Event) : bool :=
  match e with EExecRevision _ => true | _ => false end.
Definition is_exec_task (e : Event) : bool :=
  match e with EExecTask _ => true | _ => false end.
Definition is_review_attempt (e : Event) : bool :=
  match e with EReviewAttempt _ => true | _ => false end.
Definition is_propose (e : Event) : bool :=
  match e with EPropose _ => true | _ => false end.

(** A review verdict asking for a revision, and a revision run that
    comes back [completed] with a commit. *)
Definition revise_verdict (r : Review) : Prop := decision r = "revise".
Definition clean_result (x : ExecResult) : Prop :=
  ex_status x = "completed" /\ ex_commitHash x <> "".

(** The question sent when the revision loop reaches its cap. *)
Definition safety_cap_question (taskDescription : string) : string :=
  tpl [":rotating_light: Hit "; nat_str SAFETY_CAP; " revision rounds on: *";
       taskDescription; "*. Want me to accept the current state, or do you have direction?"].

(** The notice sent for a review whose verdict is [ask_greg] (the
    spec's [escalate]): the reviewer's question and its summary. *)
Definition review_escalation_text (r : Review) : string :=
  tpl [":thinking_face: Grok reviewed the work and wants your input:"; nl; nl;
       rv_questionForGreg r; nl; nl; "_Summary: "; rv_summary r; "_"].

(** The question sent when a decision needs the human: its own question,
    or the default built from the proposed task. *)
Definition decision_question (d : Decision) : string :=
  if is_empty (questionForGreg d)
  then tpl ["Should I proceed with: "; task (nextStep d); "?"]
  else questionForGreg d.

(** Parts of a loop step. *)
Definition step_state (s : Step) : ProjectState :=
  match s with Next st _ _ | Leave st _ _ _ => st end.
Definition step_branches (s : Step) : list IterationBranch :=
  match s with Next _ bs _ | Leave _ bs _ _ => bs end.
Definition step_iteration (s : Step) : nat :=
  match s with Next _ _ c | Leave _ _ c _ => c end.

(** A review call that fails: the API throws or the answer does not parse. *)
Definition failed_attempt (a : Attempt) : bool :=
  match a with Response _ => false | _ => true end.

(** The parts of the world that a review round does not change: the
    clock and the answers of the decision agent, the execution agent, git
    and the HEAD lookup. *)
Definition same_env (w w' : World) : Prop :=
  clock w' = clock w /\ gitOk w' = gitOk w /\ decisions w' = decisions w /\
  executions w' = executions w /\ logHeads w' = logHeads w.

(** The status edges of the spec's state machine. *)
Definition documented_edge (a b : Status) : bool :=
  match a, b with
  | Active, WaitingInput | WaitingInput, Active | Active, Active | Completed, Active => true
  | _, _ => false
  end.

(** A write of a project record that follows a documented edge from the
    record it replaces; creating a record is no transition, and is not
    allowed here either.  Other events are not writes. *)
Definition good_save (e : Event) : Prop :=
  match e with
  | ESave (Some a) s => documented_edge a (status s) = true
  | ESave None _ => False
  | _ => True
  end.

(** The trace grew by good events only. *)
Definition grows (w w' : World) : Prop :=
  exists new, events w' = app new (events w) /\ Forall good_save new.

(** The record stored under [pid] has status [a]. *)
Definition stored_is (pid : string) (a : Status) (l : list ProjectState) : Prop :=
  option_map status (find_project pid l) = Some a.

(** Triples over the project store: from a store satisfying [P], [m]
    writes only along documented edges, and if it returns [a] the store
    satisfies [Q a]. *)
Definition hoare {A} (P : list ProjectState -> Prop) (m : M A)
    (Q : A -> list ProjectState -> Prop) : Prop :=
  forall w, P (store w) ->
    grows w (snd (m w)) /\ forall a, fst (m w) = Ok a -> Q a (store (snd (m w))).

(** A computation that leaves the store alone and writes nothing. *)
Definition quiet {A} (m : M A) : Prop :=
  forall w, store (snd (m w)) = store w /\ grows w (snd (m w)).

(** [m] leaves the dispatch-cycle flag as it found it. *)
Definition keeps {A} (m : M A) : Prop :=
  forall w, cycleRunning (snd (m w)) = cycleRunning w.

(** [m] takes no decision from the planner's answers. *)
Definition nodec {A} (m : M A) : Prop :=
  forall w, decisions (snd (m w)) = decisions w.

(** ** Sample inputs *)

Definition sample_state : ProjectState :=
  mkState "p" "P" "/r/p" "goal" Active [] None "" (mkContext [] [] "") 0 0 0 0.
Definition decision_high : Decision := mkDecision (mkNextStep "t1" "" "" false) "high" false "".
Definition decision_low : Decision := mkDecision (mkNextStep "t1" "" "" false) "low" false "".
Definition exec_ok : ExecResult := mkExec "completed" "did it" ["a"] "abc" [] [].
Definition review_with (d : string) : Review := mkReview d false "sum" [] "fb" "q?".
Definition linear_clock (n : nat) : Z := Z.of_nat n.

(** Every review asks for a revision; every revision is clean. *)
Definition world_all_revise : World :=
  mkWorld [sample_state] true [] false linear_clock 0 [Some decision_high] [Some exec_ok]
    (repeat exec_ok 10) (repeat (Response (review_with "revise")) 10) [] [] ["h0"] [] "/repos".

(** The first review asks for the human. *)
Definition world_ask : World :=
  mkWorld [sample_state] true [] false linear_clock 0 [Some decision_high] [Some exec_ok]
    [] [Response (review_with "ask_greg")] [] [] ["h0"] [] "/repos".

(** The review agent fails three times. *)
Definition world_review_down : World :=
  mkWorld [sample_state] true [] false linear_clock 0 [Some decision_high] [Some exec_ok]
    [] [ApiError; Unparseable; ApiError] [] [] ["h0"] [] "/repos".

(** The decision agent answers with low confidence. *)
Definition world_low : World :=
  mkWorld [sample_state] true [] false linear_clock 0 [Some decision_low] [Some exec_ok]
    [] [] [] [] ["h0"] [] "/repos".

(** A decision for a prerequisite task. *)
Definition decision_prereq : Decision := mkDecision (mkNextStep "t1" "" "" true) "high" false "".

(** The review approves the first execution; git succeeds. *)
Definition world_approve : World :=
  mkWorld [sample_state] true [] false linear_clock 0 [Some decision_high] [Some exec_ok]
    [] [Response (review_with "approve")] [] [] ["h0"] [true] "/repos".
Definition world_prereq : World :=
  mkWorld [sample_state] true [] false linear_clock 0 [Some decision_prereq] [Some exec_ok]
    [] [Response (review_with "approve")] [] [] ["h0"] [true] "/repos".

(** A ten-minute session of up to two iterations: the first decision is
    carried out and approved, the second has low confidence. *)
Definition timed_state : ProjectState :=
  mkState "p" "P" "/r/p" "goal" Active [] None "" (mkContext [] [] "") 10 2 0 0.
Definition world_two_passes : World :=
  mkWorld [timed_state] true [] false linear_clock 0 [Some decision_high; Some decision_low]
    [Some exec_ok] [] [Response (review_with "approve")] [] [] ["h0"] [true] "/repos".

(** Two projects wait for the human; [b] was active last. *)
Definition waiting_a : ProjectState :=
  mkState "a" "A" "/r/a" "goal a" WaitingInput [] None "" (mkContext [] [] "") 0 0 0 1.
Definition waiting_b : ProjectState :=
  mkState "b" "B" "/r/b" "goal b" WaitingInput [] None "" (mkContext [] [] "") 0 0 0 9.
Definition world_two_waiting : World :=
  mkWorld [waiting_a; waiting_b] true [] false linear_clock 10 [] [] [] [] [] [] [] [] "/repos".

(** The execution agent fails on the first task; the next decision has
    low confidence. *)
Definition world_exec_down : World :=
  mkWorld [sample_state] true [] false linear_clock 0 [Some decision_high; Some decision_low] [None]
    [] [] [] [] [] [] "/repos".

(** * Lemmas on the review loop *)

Lemma validate_with_status s v : validateProjectState (with_status s v) = validateProjectState s.
Proof. reflexivity. Qed.
Lemma validate_with_inProgress s v : validateProjectState (with_inProgress s v) = validateProjectState s.
Proof. reflexivity. Qed.

Lemma review_attempts_ok : forall fuel attempt w,
  exists rv w', review_attempts fuel attempt w = (Ok rv, w') /\
    store w' = store w /\ ticks w' = ticks w /\ clock w' = clock w /\
    revisionResults w' = revisionResults w /\
    count_ev is_exec_revision (events w') = count_ev is_exec_revision (events w) /\
    count_ev is_review_attempt (events w') <= count_ev is_review_attempt (events w) + fuel /\
    same_env w w'.
Proof.
  induction fuel as [|f IH]; intros attempt w.
  - exists review_fallback, w. cbn. repeat split; lia.
  - cbn [review_attempts]. destruct (Nat.leb attempt 3).
    + destruct w as [st dk ev cr cl tk ds xs rrs ra rp gl lh go rb].
      assert (Hfail : forall w0, events w0 = EReviewAttempt attempt :: ev -> store w0 = st ->
                ticks w0 = tk -> clock w0 = cl -> revisionResults w0 = rrs ->
                gitOk w0 = go -> decisions w0 = ds -> executions w0 = xs -> logHeads w0 = lh ->
        exists rv w', ((if Nat.ltb attempt 3 then sleep (1000 * 2 ^ Z.of_nat attempt)%Z else ret tt) ;;;
                        review_attempts f (S attempt)) w0 = (Ok rv, w') /\
          store w' = st /\ ticks w' = tk /\ clock w' = cl /\ revisionResults w' = rrs /\
          count_ev is_exec_revision (events w') = count_ev is_exec_revision ev /\
          count_ev is_review_attempt (events w') <= count_ev is_review_attempt ev + S f /\
          clock w' = cl /\ gitOk w' = go /\ decisions w' = ds /\ executions w' = xs /\ logHeads w' = lh).
      { intros w0 E0 S0 T0 C0 R0 G0 D0 X0 L0.
        destruct (Nat.ltb attempt 3);
        [ edestruct (IH (S attempt) (set_events w0 (ESleep (1000 * 2 ^ Z.of_nat attempt)%Z :: events w0)))
            as (rv & w' & E & H1 & H2 & H3 & H4 & H5 & H6 & Q1 & Q2 & Q3 & Q4 & Q5)
        | edestruct (IH (S attempt) w0) as (rv & w' & E & H1 & H2 & H3 & H4 & H5 & H6 & Q1 & Q2 & Q3 & Q4 & Q5) ];
        exists rv, w'; cbv beta iota delta [bind sleep emit ret]; rewrite E; destruct w0;
        cbn in *; subst;
        unfold count_ev in *; cbn in *; repeat split; congruence || lia. }
      destruct ra as [|a ra].
      * destruct (Hfail (set_events (mkWorld st dk ev cr cl tk ds xs rrs [] rp gl lh go rb)
                          (EReviewAttempt attempt :: ev)))
          as (rv & w' & E & P); try reflexivity.
        exists rv, w'. split; [exact E|]. unfold same_env; cbn. intuition.
      * destruct a as [| |r];
          [ destruct (Hfail (set_reviewAttempts (set_events (mkWorld st dk ev cr cl tk ds xs rrs (ApiError :: ra) rp gl lh go rb)
                          (EReviewAttempt attempt :: ev)) ra)) as (rv & w' & E & P); try reflexivity
          | destruct (Hfail (set_reviewAttempts (set_events (mkWorld st dk ev cr cl tk ds xs rrs (Unparseable :: ra) rp gl lh go rb)
                          (EReviewAttempt attempt :: ev)) ra)) as (rv & w' & E & P); try reflexivity
          | ].
        -- exists rv, w'. split; [exact E|]. unfold same_env; cbn. intuition.
        -- exists rv, w'. split; [exact E|]. unfold same_env; cbn. intuition.
        -- cbn. eexists _, _. split; [reflexivity|]. unfold count_ev, same_env; cbn. repeat split; lia.
    + exists review_fallback, w. cbn. repeat split; lia.
Qed.

Lemma saveProject_valid s : validateProjectState s = [] ->
  saveProject s = (t <- now ;; write_project (with_lastChecked s t) ;;; ret (with_lastChecked s t)).
Proof. intros H. unfold saveProject. rewrite H. reflexivity. Qed.

Lemma find_put s l : find_project (projectId s) (put_project s l) = Some s.
Proof.
  induction l as [|x r IH]; cbn.
  - rewrite String.eqb_refl. reflexivity.
  - destruct (String.eqb (projectId x) (projectId s)) eqn:E; cbn.
    + rewrite String.eqb_refl. reflexivity.
    + rewrite E. exact IH.
Qed.

Ltac solve_find :=
  cbn [store set_events set_store set_ticks set_reviewAttempts set_revisionResults set_decisions
       set_executions set_logHeads set_gitOk set_replies set_goals set_cycleRunning];
  match goal with |- find_project _ (put_project ?s ?l) = _ => exact (find_put s l) end.
Ltac reduce_m := cbv beta iota delta [bind sendMessage askGreg getCommitDiff emit ret executeRevision pop].

Ltac env_tac := unfold same_env in *; cbn in *; repeat split; (lia || congruence).

Lemma review_rounds_ends : forall fuel st td bh k cur hist w,
  validateProjectState st = [] ->
  exists r w', review_rounds fuel st td bh k cur hist w = (Ok r, w') /\
    (ticks w <= ticks w' /\ same_env w w') /\
    count_ev is_exec_revision (events w') <= count_ev is_exec_revision (events w) + fuel /\
    match r with
    | (st', Finalized _ _ _ _ _) => st' = st
    | (st', Waiting) => status st' = WaitingInput /\ inProgress st' = None /\
                        completed st' = completed st /\ find_project (projectId st) (store w') = Some st'
    end.
Proof.
  induction fuel as [|f IH]; intros st td bh k cur hist w Hv.
  - cbn [review_rounds]. unfold saveProject.
    rewrite validate_with_inProgress, validate_with_status, Hv.
    destruct w; cbn. eexists _, _; split; [reflexivity|]. split; [env_tac|].
    unfold count_ev; cbn. split; [lia|]. repeat split. solve_find.
  - cbn [review_rounds]. destruct (Nat.ltb k SAFETY_CAP).
    2:{ unfold saveProject. rewrite validate_with_inProgress, validate_with_status, Hv.
        destruct w; cbn. eexists _, _; split; [reflexivity|]. split; [env_tac|].
        unfold count_ev; cbn. split; [lia|]. repeat split. solve_find. }
    reduce_m. unfold reviewWork.
    match goal with |- context [review_attempts 3 1 ?w1] =>
      destruct (review_attempts_ok 3 1 w1)
        as (rv & w2 & E & H1 & H2 & H3 & H4 & H5 & H6 & Q1 & Q2 & Q3 & Q4 & Q5) end.
    rewrite E. clear E. cbn in H1, H2, H3, H4, H5, Q1, Q2, Q3, Q4, Q5.
    destruct (String.eqb (decision rv) "approve").
    { reduce_m. eexists _, _; split; [reflexivity|]. split; [env_tac|].
      unfold count_ev in *; cbn in *. split; [lia|reflexivity]. }
    destruct (String.eqb (decision rv) "ask_greg").
    { reduce_m. unfold saveProject. rewrite validate_with_inProgress, validate_with_status, Hv.
      destruct w2; cbn. eexists _, _; split; [reflexivity|]. split; [env_tac|].
      unfold count_ev in *; cbn in *. split; [lia|]. repeat split. solve_find. }
    reduce_m. destruct w2 as [st2 dk ev cr cl tk ds xs rrs ra rp gl lh go rb]; cbn in *.
    destruct rrs as [|x rrs].
    + cbn. unfold saveProject. rewrite validate_with_inProgress, validate_with_status, Hv. cbn.
      eexists _, _; split; [reflexivity|]. split; [env_tac|].
      unfold count_ev in *; cbn in *. split; [lia|]. repeat split. solve_find.
    + cbn. destruct (String.eqb (ex_status x) "completed" && negb (is_empty (ex_commitHash x))).
      * match goal with |- context [review_rounds f st td bh ?k' x ?h' ?w3] =>
          destruct (IH st td bh k' x h' w3 Hv) as (r & w' & E' & F' & C' & P') end.
        rewrite E'. exists r, w'. split; [reflexivity|]. split; [|split; [|exact P']].
        -- destruct F' as (T' & F1 & F2 & F3 & F4 & F5). env_tac.
        -- unfold count_ev in *; cbn in *. lia.
      * unfold saveProject. rewrite validate_with_inProgress, validate_with_status, Hv. cbn.
        eexists _, _; split; [reflexivity|]. split; [env_tac|].
        unfold count_ev in *; cbn in *. split; [lia|]. repeat split. solve_find.
Qed.

Lemma review_attempts_resp f w r ra :
  reviewAttempts w = Response r :: ra ->
  review_attempts (S f) 1 w =
    (Ok (normalize_review r), set_reviewAttempts (set_events w (EReviewAttempt 1 :: events w)) ra).
Proof. intros H. destruct w; cbn in H; subst; reflexivity. Qed.

Lemma normalize_review_decided r : decision r <> "" -> normalize_review r = r.
Proof. destruct r as [[|c d] ? ? ? ? ?]; cbn; intros H; [congruence|reflexivity]. Qed.

Lemma review_rounds_revise_step f st td bh k cur hist w r ra x rrs :
  Nat.ltb k SAFETY_CAP = true ->
  reviewAttempts w = Response r :: ra -> revise_verdict r ->
  revisionResults w = x :: rrs -> clean_result x ->
  exists w3 new,
    review_rounds (S f) st td bh k cur hist w =
      review_rounds f st td bh (S k) x (app hist [(feedback r, revisions r)]) w3 /\
    store w3 = store w /\ reviewAttempts w3 = ra /\ revisionResults w3 = rrs /\
    events w3 = EExecRevision td :: app new (events w) /\
    count_ev is_exec_revision new = 0.
Proof.
  intros Hk Ha Hr Hres [Hx1 Hx2].
  cbn [review_rounds]. rewrite Hk. reduce_m. unfold reviewWork.
  match goal with |- context [review_attempts 3 1 ?w1] =>
    rewrite (review_attempts_resp 2 w1 r ra) by (rewrite <- Ha; destruct w; reflexivity) end.
  rewrite normalize_review_decided by (unfold revise_verdict in Hr; rewrite Hr; discriminate).
  destruct r as [dec ap sm rvs fb q]; unfold revise_verdict in Hr; cbn [decision] in Hr; subst dec.
  cbn [decision String.eqb Ascii.eqb Bool.eqb]. reduce_m.
  destruct w as [st0 dk ev cr cl tk ds xs0 rrs0 ra0 rp gl lh go rb]; cbn in Ha, Hres; subst ra0 rrs0.
  destruct x as [xst xsum xf xc xi xq]; cbn in Hx1, Hx2; subst xst.
  destruct xc as [|c xc]; [congruence|].
  cbn. eexists _, [_; _; _; _]. split; [reflexivity|]. repeat split.
Qed.

Lemma review_rounds_all_revise : forall st td bh rs xs k cur hist w restA restX,
  validateProjectState st = [] ->
  k + length rs = SAFETY_CAP -> length xs = length rs ->
  Forall revise_verdict rs -> Forall clean_result xs ->
  reviewAttempts w = app (map Response rs) restA ->
  revisionResults w = app xs restX ->
  exists st' w' old new,
    review_rounds (length rs) st td bh k cur hist w = (Ok (st', Waiting), w') /\
    status st' = WaitingInput /\ inProgress st' = None /\ completed st' = completed st /\
    find_project (projectId st) (store w') = Some st' /\
    count_ev is_exec_revision (events w') = count_ev is_exec_revision (events w) + length rs /\
    events w' = ESave old st' :: EAskGreg (safety_cap_question td) :: app new (events w).
Proof.
  intros st td bh rs. induction rs as [|r rs IH];
    intros xs k cur hist w restA restX Hv Hk Hlen Hr Hx Ha Hres.
  - cbn [length review_rounds]. unfold saveProject.
    rewrite validate_with_inProgress, validate_with_status, Hv.
    destruct w; cbn. eexists _, _, _, []; split; [reflexivity|].
    unfold count_ev; cbn. repeat split; try lia. solve_find.
  - destruct xs as [|x xs]; [discriminate|]. cbn in Hlen. injection Hlen as Hlen.
    inversion Hr as [|? ? Hr1 Hr']; subst. inversion Hx as [|? ? Hx1 Hx']; subst.
    assert (Hk' : Nat.ltb k SAFETY_CAP = true) by (apply Nat.ltb_lt; cbn [length] in Hk; lia).
    destruct (review_rounds_revise_step (length rs) st td bh k cur hist w r
                (app (map Response rs) restA) x (app xs restX) Hk' Ha Hr1 Hres Hx1)
      as (w3 & new3 & E & S3 & A3 & R3 & V3 & C3).
    cbn [length]. rewrite E.
    destruct (IH xs (S k) x (app hist [(feedback r, revisions r)]) w3 restA restX Hv)
      as (st' & w' & old & new & E' & P1 & P2 & P3 & P4 & P5 & P6);
      [cbn [length] in Hk; lia | exact Hlen | exact Hr' | exact Hx' | exact A3 | exact R3 |].
    rewrite E'. exists st', w', old, (app new (EExecRevision td :: new3)).
    split; [reflexivity|]. repeat split; try assumption.
    + rewrite P5, V3. unfold count_ev in *. cbn. rewrite filter_app, length_app, C3. lia.
    + rewrite P6, V3, <- app_assoc. reflexivity.
Qed.

Lemma reviewLoop_rounds st d ex w :
  exists bh w1, reviewLoop st d ex w = review_rounds SAFETY_CAP st (task (nextStep d)) bh 0 ex [] w1 /\
    store w1 = store w /\ events w1 = events w /\
    reviewAttempts w1 = reviewAttempts w /\ revisionResults w1 = revisionResults w.
Proof.
  destruct w as [st0 dk ev cr cl tk ds xs rrs ra rp gl lh go rb].
  destruct lh as [|h lh]; eexists _, _; split; try reflexivity; repeat split.
Qed.



(** C4: a review whose verdict is [ask_greg] (the verdict the spec calls
    [escalate]) makes the round send the reviewer's question with the work
    summary, save the project as waiting_input with inProgress cleared and
    return the [Waiting] sentinel; no revision is run in that round (the
    trace after the review attempt holds only the notice and the save, and
    the revision answers are untouched). *)
Theorem review_ask_greg_waits : forall f st td bh k cur hist w r ra,
  validateProjectState st = [] -> k < SAFETY_CAP ->
  reviewAttempts w = Response r :: ra -> decision r = "ask_greg" ->
  exists st' w' old,
    review_rounds (S f) st td bh k cur hist w = (Ok (st', Waiting), w') /\
    status st' = WaitingInput /\ inProgress st' = None /\ completed st' = completed st /\
    find_project (projectId st) (store w') = Some st' /\
    revisionResults w' = revisionResults w /\
    events w' = ESave old st' :: EAskGreg (review_escalation_text r) :: EReviewAttempt 1 ::
                EDiff (ex_commitHash cur) ::
                ESend (tpl [":mag: Grok is reviewing Claude's work on: *"; td; "*"]) :: events w.
Proof.
  intros f st td bh k cur hist w r ra Hv Hk Ha Hd.
  destruct w as [st0 dk ev cr cl tk ds xs0 rrs0 ra0 rp gl lh go rb]; cbn in Ha; subst ra0.
  destruct r as [dec ap sm rvs fb q]; cbn [decision] in Hd; subst dec.
  cbn [review_rounds]. rewrite (proj2 (Nat.ltb_lt k SAFETY_CAP) Hk).
  rewrite !saveProject_valid by exact Hv.
  eexists _, _, _; split; [reflexivity|]. cbn. repeat split. solve_find.
Qed.

Lemma review_ask_greg_waits_witness :
  validateProjectState sample_state = [] /\ 0 < SAFETY_CAP /\
  reviewAttempts world_ask = [Response (review_with "ask_greg")] /\
  decision (review_with "ask_greg") = "ask_greg" /\
  exists st' w' old,
    review_rounds 1 sample_state "t1" "h0" 0 exec_ok [] world_ask = (Ok (st', Waiting), w') /\
    status st' = WaitingInput /\ inProgress st' = None /\ completed st' = completed sample_state /\
    find_project (projectId sample_state) (store w') = Some st' /\
    revisionResults w' = revisionResults world_ask /\
    events w' = ESave old st' :: EAskGreg (review_escalation_text (review_with "ask_greg")) ::
                EReviewAttempt 1 :: EDiff (ex_commitHash exec_ok) ::
                ESend (tpl [":mag: Grok is reviewing Claude's work on: *"; "t1"; "*"]) :: events world_ask.
Proof.
  split; [reflexivity|]. split; [vm_compute; lia|]. split; [reflexivity|]. split; [reflexivity|].
  apply (review_ask_greg_waits 0 sample_state "t1" "h0" 0 exec_ok [] world_ask
           (review_with "ask_greg") []); try reflexivity. vm_compute; lia.
Defined.

(** C7: every review call ends normally, after at most three attempts;
    when the three attempts all fail, with an API error or an
    unparseable answer, reviewWork waits 2000 ms and 4000 ms between them
    and returns the auto-approve review ([decision = approve], summary
    "Review failed, auto-approved") instead of raising, and the revision
    loop then finalizes the task on that first round, with no revision. *)
Theorem reviewWork_auto_approves : forall st td hist ex d w a1 a2 a3 ra,
  (forall w0, exists rv w', reviewWork st td hist w0 = (Ok rv, w') /\
     count_ev is_review_attempt (events w') <= count_ev is_review_attempt (events w0) + 3) /\
  (reviewAttempts w = a1 :: a2 :: a3 :: ra ->
   failed_attempt a1 = true -> failed_attempt a2 = true -> failed_attempt a3 = true ->
   reviewWork st td hist w =
     (Ok review_fallback,
      set_reviewAttempts (set_events w (EReviewAttempt 3 :: ESleep 4000 :: EReviewAttempt 2 ::
                                        ESleep 2000 :: EReviewAttempt 1 :: events w)) ra) /\
   decision review_fallback = "approve" /\ rv_summary review_fallback = "Review failed, auto-approved" /\
   exists bh w', reviewLoop st d ex w =
     (Ok (st, Finalized (ex_commitHash ex)
                (if is_empty (ex_summary ex) then "Review failed, auto-approved" else ex_summary ex)
                (ex_filesChanged ex) 0 bh), w')).
Proof.
  intros st td hist ex d w a1 a2 a3 ra. split.
  - intros w0. destruct (review_attempts_ok 3 1 w0) as (rv & w' & E & _ & _ & _ & _ & _ & H & _).
    exists rv, w'. split; [exact E | exact H].
  - intros Ha F1 F2 F3.
    assert (Hw : forall w0, reviewAttempts w0 = a1 :: a2 :: a3 :: ra ->
              review_attempts 3 1 w0 =
              (Ok review_fallback,
               set_reviewAttempts (set_events w0 (EReviewAttempt 3 :: ESleep 4000 :: EReviewAttempt 2 ::
                                                 ESleep 2000 :: EReviewAttempt 1 :: events w0)) ra)).
    { intros w0 H0. destruct w0; cbn in H0; subst.
      destruct a1; try discriminate; destruct a2; try discriminate; destruct a3; try discriminate;
        reflexivity. }
    split; [exact (Hw w Ha)|]. split; [reflexivity|]. split; [reflexivity|].
    destruct (reviewLoop_rounds st d ex w) as (bh & w1 & E & S1 & V1 & A1 & R1).
    rewrite E. exists bh. cbn [review_rounds SAFETY_CAP Nat.ltb Nat.leb]. reduce_m. unfold reviewWork.
    match goal with |- context [review_attempts 3 1 ?w2] =>
      rewrite (Hw w2) by (rewrite <- Ha, <- A1; destruct w1; reflexivity) end.
    cbn. eexists. reflexivity.
Qed.

Lemma reviewWork_auto_approves_witness :
  reviewAttempts world_review_down = [ApiError; Unparseable; ApiError] /\
  failed_attempt ApiError = true /\ failed_attempt Unparseable = true /\
  reviewWork sample_state "t1" [] world_review_down =
    (Ok review_fallback,
     set_reviewAttempts (set_events world_review_down
       (EReviewAttempt 3 :: ESleep 4000 :: EReviewAttempt 2 :: ESleep 2000 :: EReviewAttempt 1 ::
        events world_review_down)) []) /\
  exists bh w', reviewLoop sample_state decision_high exec_ok world_review_down =
    (Ok (sample_state, Finalized "abc" "did it" ["a"] 0 bh), w').
Proof.
  split; [reflexivity|]. split; [reflexivity|]. split; [reflexivity|].
  destruct (proj2 (reviewWork_auto_approves sample_state "t1" [] exec_ok decision_high world_review_down
                     ApiError Unparseable ApiError []) eq_refl eq_refl eq_refl eq_refl)
    as (E & _ & _ & L).
  split; [exact E | exact L].
Defined.

(** * Lemmas on one pass of the iteration loop *)

Lemma validate_fields s s' :
  projectId s' = projectId s -> name s' = name s -> repoPath s' = repoPath s ->
  validateProjectState s' = validateProjectState s.
Proof. intros H1 H2 H3. unfold validateProjectState. rewrite H1, H2, H3. reflexivity. Qed.

Lemma bind_ok {A B} (m : M A) (k : A -> M B) w a w1 :
  m w = (Ok a, w1) -> bind m k w = k a w1.
Proof. intros H. unfold bind. rewrite H. reflexivity. Qed.

Lemma bind_ok2 {A B C} (m : M A) (k1 : A -> M B) (k2 : B -> M C) w a w1 :
  m w = (Ok a, w1) -> bind (bind m k1) k2 w = bind (k1 a) k2 w1.
Proof. intros H. unfold bind. rewrite H. reflexivity. Qed.

Lemma bind_throw {A B} (m : M A) (k : A -> M B) w e w1 :
  m w = (Throw e, w1) -> bind m k w = (Throw e, w1).
Proof. intros H. unfold bind. rewrite H. reflexivity. Qed.

Lemma time_up_spec tb ss w :
  exists b, time_up tb ss w = (Ok b, if Z.ltb 0 tb then set_ticks w (S (ticks w)) else w) /\
    (b = true -> Z.ltb 0 tb = true /\ (tb - (clock w (ticks w) - ss) < 60000)%Z).
Proof.
  unfold time_up, timeRemaining. destruct (Z.ltb 0 tb) eqn:E.
  - eexists; split; [reflexivity|]. cbn. intros H. split; [reflexivity|]. apply Z.ltb_lt. exact H.
  - eexists; split; [reflexivity|]. discriminate.
Qed.

Ltac new_events :=
  first [ exists []; split; [reflexivity|]
        | eexists [_]; split; [reflexivity|]
        | eexists [_; _]; split; [reflexivity|]
        | eexists [_; _; _]; split; [reflexivity|]
        | eexists [_; _; _; _]; split; [reflexivity|]
        | eexists [_; _; _; _; _]; split; [reflexivity|] ].

Lemma consult_spec m st bs c w d ds :
  validateProjectState st = [] -> decisions w = Some d :: ds ->
  exists s' w', consult m st bs c w = (Ok (s', d), w') /\
    projectId s' = projectId st /\ name s' = name st /\ repoPath s' = repoPath st /\
    status s' = status st /\ completed s' = completed st /\ inProgress s' = inProgress st /\
    (store w' = store w \/ store w' = put_project s' (store w)) /\
    decisions w' = ds /\ executions w' = executions w /\ revisionResults w' = revisionResults w /\
    reviewAttempts w' = reviewAttempts w /\ gitOk w' = gitOk w /\ logHeads w' = logHeads w /\
    clock w' = clock w /\ ticks w <= ticks w' /\
    exists new1 new0, events w' = app new1 (EPropose (projectId st) :: app new0 (events w)) /\
      count_ev is_exec_task new1 = 0 /\ count_ev is_propose new1 = 0 /\
      count_ev is_exec_task new0 = 0.
Proof.
  intros Hv Hd. destruct w as [st0 dk ev cr cl tk ds0 xs rrs ra rp gl lh go rb]; cbn in Hd; subst ds0.
  unfold consult. cbv zeta.
  set (s1 := if Nat.ltb 1 c && negb (Nat.eqb (length bs) 0)
             then with_gregDirection st (gregDirection st ++ iteration_note c bs) else st).
  assert (F1 : projectId s1 = projectId st /\ name s1 = name st /\ repoPath s1 = repoPath st /\
               status s1 = status st /\ completed s1 = completed st /\ inProgress s1 = inProgress st)
    by (unfold s1; destruct (_ && _); repeat split).
  clearbody s1.
  set (s2 := if is_empty (currentGoal s1) && negb (is_empty (gregDirection s1))
             then with_currentGoal s1 (gregDirection s1) else s1).
  assert (F2 : projectId s2 = projectId st /\ name s2 = name st /\ repoPath s2 = repoPath st /\
               status s2 = status st /\ completed s2 = completed st /\ inProgress s2 = inProgress st)
    by (unfold s2; destruct (_ && _); exact F1).
  clearbody s2. destruct F2 as (P1 & P2 & P3 & P4 & P5 & P6). destruct F1 as (R1 & _).
  assert (Hv2 : validateProjectState (with_gregDirection s2 "") = [])
    by (rewrite (validate_fields st); assumption).
  destruct (Nat.ltb 1 c); destruct (negb (is_empty (gregDirection s2)));
    try rewrite (saveProject_valid _ Hv2);
    eexists _, _; (split; [reflexivity|]); cbn; repeat split; try assumption;
    try (left; reflexivity); try (right; reflexivity); try lia;
    rewrite ?R1;
    first [ eexists [], [_]; split; [reflexivity|]
          | eexists [], [_; _]; split; [reflexivity|]
          | eexists [_], [_]; split; [reflexivity|]
          | eexists [_], [_; _]; split; [reflexivity|] ];
    repeat split.
Qed.

Lemma find_project_id pid l s : find_project pid l = Some s -> projectId s = pid.
Proof.
  induction l as [|x r IH]; cbn; [discriminate|].
  destruct (String.eqb (projectId x) pid) eqn:E.
  - intros H. injection H as <-. apply String.eqb_eq. exact E.
  - exact IH.
Qed.

(** The world after the [time_up] test, when it lets the pass go on. *)
Lemma time_up_world tb w :
  let w1 := if Z.ltb 0 tb then set_ticks w (S (ticks w)) else w in
  store w1 = store w /\ events w1 = events w /\ decisions w1 = decisions w /\
  executions w1 = executions w /\ revisionResults w1 = revisionResults w /\
  reviewAttempts w1 = reviewAttempts w /\ gitOk w1 = gitOk w /\ logHeads w1 = logHeads w /\
  clock w1 = clock w /\ ticks w <= ticks w1.
Proof. cbv zeta. destruct (Z.ltb 0 tb); cbn; repeat split; lia. Qed.

Lemma iteration_escalates pid tb m ss st bs cur w d ds :
  validateProjectState st = [] -> decisions w = Some d :: ds ->
  (needsGreg d || String.eqb (confidence d) "low") = true ->
  exists step w', iteration pid tb m ss st bs cur w = (Ok step, w') /\
    step_branches step = bs /\ step_iteration step = S cur /\ executions w' = executions w /\
    exists new, events w' = app new (events w) /\ count_ev is_exec_task new = 0 /\
    ((step = Leave st bs (S cur) LoopDone /\ decisions w' = decisions w /\ store w' = store w) \/
     (exists st' old mid new0, step = Leave st' bs (S cur) LoopReturn /\
        new = ESave old st' :: EAskGreg (decision_question d) ::
                app mid (EPropose (projectId st) :: new0) /\
        count_ev is_exec_task mid = 0 /\ count_ev is_propose mid = 0 /\
        decisions w' = ds /\ status st' = WaitingInput /\ projectId st' = projectId st /\
        find_project (projectId st') (store w') = Some st')).
Proof.
  intros Hv Hd He.
  destruct (time_up_spec tb ss w) as (b & Ht & _).
  destruct (time_up_world tb w) as (W1 & W2 & W3 & W4 & _).
  set (w1 := if Z.ltb 0 tb then set_ticks w (S (ticks w)) else w) in *.
  clearbody w1.
  unfold iteration. cbv zeta. rewrite (bind_ok _ _ _ _ _ Ht). cbv beta.
  destruct b.
  - eexists _, _; split; [reflexivity|]. cbn. repeat split; try assumption.
    exists []. split; [cbn; congruence|]. split; [reflexivity|].
    left. repeat split; assumption.
  - rewrite <- W3 in Hd.
    destruct (consult_spec m st bs (S cur) w1 d ds Hv Hd)
      as (s' & w2 & Hc & P1 & P2 & P3 & P4 & P5 & P6 & _ & D2 & X2 & _ & _ & _ & _ & _ & _ &
          new1 & new0 & E2 & C1 & Q1 & C0).
    rewrite (bind_ok _ _ _ _ _ Hc). cbv beta iota. rewrite He.
    assert (Hv' : validateProjectState (with_status s' WaitingInput) = []).
    { rewrite validate_with_status, (validate_fields st); assumption. }
    unfold askGreg, emit at 1. unfold bind at 1.
    rewrite (saveProject_valid _ Hv').
    eexists _, _; split; [reflexivity|]. cbn. repeat split; try congruence.
    exists (ESave (option_map status (find_project (projectId s')
              (store w2))) (with_lastChecked (with_status s' WaitingInput) (clock w2 (ticks w2)))
            :: EAskGreg (decision_question d) :: app new1 (EPropose (projectId st) :: new0)).
    split; [rewrite E2, W2; cbn [app]; rewrite <- app_assoc; reflexivity|].
    split; [unfold count_ev in *; cbn; rewrite filter_app, length_app; cbn; lia|].
    right. eexists _, _, _, _. split; [reflexivity|]. split; [reflexivity|].
    split; [exact C1|]. split; [exact Q1|]. split; [exact D2|].
    split; [reflexivity|]. split; [cbn; congruence|]. solve_find.
Qed.

Lemma loadProject_found pid w s : find_project pid (store w) = Some s ->
  loadProject pid w = (Ok s, w).
Proof. intros H. unfold loadProject. rewrite H. reflexivity. Qed.

Lemma iteration_loop_step f pid tb m ss st bs c : Nat.ltb c m = true ->
  iteration_loop (S f) pid tb m ss st bs c =
  (step <- iteration pid tb m ss st bs c ;;
   match step with
   | Next st' bs' c' => iteration_loop f pid tb m ss st' bs' c'
   | Leave st' bs' c' e => ret (st', bs', c', e)
   end).
Proof. intros H. cbn [iteration_loop]. rewrite H. reflexivity. Qed.

(** * Lemmas on the whole pass of the iteration loop *)

Lemma saveProject_run s w : validateProjectState s = [] ->
  exists w', saveProject s w = (Ok (with_lastChecked s (clock w (ticks w))), w') /\
    ticks w' = S (ticks w) /\ clock w' = clock w /\ decisions w' = decisions w /\
    executions w' = executions w /\ gitOk w' = gitOk w /\
    reviewAttempts w' = reviewAttempts w /\ revisionResults w' = revisionResults w /\
    logHeads w' = logHeads w /\ replies w' = replies w /\ goals w' = goals w /\
    store w' = put_project (with_lastChecked s (clock w (ticks w))) (store w) /\
    events w' = ESave (option_map status (find_project (projectId s) (store w)))
                      (with_lastChecked s (clock w (ticks w))) :: events w.
Proof.
  intros H. rewrite (saveProject_valid _ H). destruct w.
  eexists; split; [reflexivity|]. repeat split.
Qed.

Lemma executeTask_cases ns s w :
  (exists x xs, executions w = Some x :: xs /\
     executeTask ns s w = (Ok x, set_executions (set_events w (EExecTask (task ns) :: events w)) xs)) \/
  (exists e w', executeTask ns s w = (Throw e, w')).
Proof.
  destruct w as [st0 dk ev cr cl tk ds [|[x|] xs] rrs ra rp gl lh go rb].
  - right. eexists _, _. reflexivity.
  - left. exists x, xs. split; reflexivity.
  - right. eexists _, _. reflexivity.
Qed.

Lemma consult_fail m st bs c w :
  (decisions w = [] \/ exists ds, decisions w = None :: ds) ->
  exists e w', consult m st bs c w = (Throw e, w').
Proof.
  intros Hd. destruct w as [st0 dk ev cr cl tk ds0 xs rrs ra rp gl lh go rb]; cbn in Hd.
  unfold consult. destruct (Nat.ltb 1 c);
    (destruct Hd as [-> | (ds & ->)]; eexists _, _; reflexivity).
Qed.

Lemma reviewLoop_spec st d ex w : validateProjectState st = [] ->
  exists r w', reviewLoop st d ex w = (Ok r, w') /\
    ticks w <= ticks w' /\ clock w' = clock w /\ gitOk w' = gitOk w /\
    decisions w' = decisions w /\ executions w' = executions w /\
    match r with
    | (st', Finalized _ _ _ _ _) => st' = st
    | (st', Waiting) => completed st' = completed st /\ projectId st' = projectId st
    end.
Proof.
  intros Hv.
  assert (R : exists bh w1, reviewLoop st d ex w =
                review_rounds SAFETY_CAP st (task (nextStep d)) bh 0 ex [] w1 /\
              ticks w1 = ticks w /\ clock w1 = clock w /\ gitOk w1 = gitOk w /\
              decisions w1 = decisions w /\ executions w1 = executions w).
  { destruct w as [st0 dk ev cr cl tk ds xs rrs ra rp gl lh go rb].
    destruct lh as [|h lh]; eexists _, _; split; try reflexivity; repeat split. }
  destruct R as (bh & w1 & E & T1 & C1 & G1 & D1 & X1).
  destruct (review_rounds_ends SAFETY_CAP st (task (nextStep d)) bh 0 ex [] w1 Hv)
    as (r & w' & E' & (T' & Q1 & Q2 & Q3 & Q4 & Q5) & _ & P).
  exists r, w'. rewrite E, E'. split; [reflexivity|].
  split; [lia|]. repeat split; try congruence.
  destruct r as (st', [ch sm fc rc bh'|]); [exact P|].
  destruct P as (_ & _ & P1 & P2). split; [exact P1 | exact (find_project_id _ _ _ P2)].
Qed.

Lemma go_value tb ss w :
  (r <- timeRemaining tb ss ;; ret (remaining_gt r 60000)) w =
  (Ok (if Z.ltb 0 tb then Z.ltb 60000 (tb - (clock w (ticks w) - ss)) else true),
   if Z.ltb 0 tb then set_ticks w (S (ticks w)) else w).
Proof. unfold timeRemaining. destruct (Z.ltb 0 tb); reflexivity. Qed.

Lemma branch_iteration_spec m c tb ss bs sm ch bh w :
  exists bs' w', branch_iteration m c tb ss bs sm ch bh w = (Ok bs', w') /\
    ticks w <= ticks w' /\ clock w' = clock w /\
    (bs' = bs \/
     exists b, bs' = app bs [b] /\ 1 < m /\ c < m /\
       ((tb <= 0)%Z \/ ticks w < ticks w' /\ (60000 < tb - (clock w (ticks w) - ss))%Z)).
Proof.
  unfold branch_iteration.
  destruct (Nat.ltb 1 m && Nat.ltb c m) eqn:E.
  2:{ eexists _, _; split; [reflexivity|]. split; [lia|]. split; [reflexivity|]. left; reflexivity. }
  apply andb_prop in E. destruct E as [E1 E2]. apply Nat.ltb_lt in E1, E2.
  rewrite (bind_ok _ _ _ _ _ (go_value tb ss w)). cbv beta.
  assert (Git : forall w1 (P : Prop), ticks w <= ticks w1 -> clock w1 = clock w -> P ->
    exists bs' w', (ok <- pop gitOk set_gitOk ;;
             match ok with
             | Some true =>
                 emit (EGitBranch (tpl ["iteration-"; nat_str c])) ;;; emit EGitCheckoutMain ;;;
                 (if is_empty bh then ret tt else emit (EGitReset bh)) ;;;
                 sendMessage (tpl [":bookmark: Saved iteration "; nat_str c; " as branch `";
                                   tpl ["iteration-"; nat_str c]; "`"]) ;;;
                 ret (app bs [mkBranch (tpl ["iteration-"; nat_str c]) sm ch])
             | _ => ret bs
             end) w1 = (Ok bs', w') /\
    ticks w1 <= ticks w' /\ clock w' = clock w /\
    (bs' = bs \/ exists b, bs' = app bs [b] /\ 1 < m /\ c < m /\ P)).
  { intros w1 P T1 C1 H.
    destruct w1 as [st0 dk ev cr cl tk ds xs rrs ra rp gl lh gk rb]; cbn in T1, C1.
    destruct (is_empty bh);
    destruct gk as [|[|] gk]; eexists _, _; (split; [reflexivity|]); cbn;
      (split; [lia|]); (split; [exact C1|]); try (left; reflexivity);
      right; eexists; (split; [reflexivity|]); repeat split; assumption. }
  destruct (Z.ltb 0 tb) eqn:T.
  - destruct (Z.ltb 60000 (tb - (clock w (ticks w) - ss))) eqn:G.
    + apply Z.ltb_lt in G.
      destruct (Git (set_ticks w (S (ticks w))) _ ltac:(cbn; lia) eq_refl G)
        as (bs' & w' & Hg & T' & C' & B').
      exists bs', w'. split; [exact Hg|]. cbn in T'. split; [lia|]. split; [exact C'|].
      destruct B' as [B' | (b & B1 & B2 & B3 & B4)]; [left; exact B'|].
      right. exists b. repeat split; try assumption. right. split; [lia | exact B4].
    + eexists _, _; split; [reflexivity|]. cbn. split; [lia|]. split; [reflexivity|]. left; reflexivity.
  - apply Z.ltb_ge in T.
    destruct (Git w _ (le_n _) eq_refl T) as (bs' & w' & Hg & T' & C' & B').
    exists bs', w'. split; [exact Hg|]. split; [exact T'|]. split; [exact C'|].
    destruct B' as [B' | (b & B1 & B2 & B3 & B4)]; [left; exact B'|].
    right. exists b. repeat split; try assumption. left. exact B4.
Qed.


(** Running the known steps of a pass inside a hypothesis. *)
Ltac step_in H :=
  first
  [ match type of H with context [bind (askGreg ?q) ?k ?w0] =>
      rewrite (bind_ok (askGreg q) k w0 tt _ eq_refl) in H end
  | match type of H with context [bind (sendMessage ?q) ?k ?w0] =>
      rewrite (bind_ok (sendMessage q) k w0 tt _ eq_refl) in H end
  | match type of H with context [bind (reportProgress ?a ?b) ?k ?w0] =>
      rewrite (bind_ok (reportProgress a b) k w0 tt _ eq_refl) in H end
  | match type of H with context [bind (reportError ?a ?b) ?k ?w0] =>
      rewrite (bind_ok (reportError a b) k w0 tt _ eq_refl) in H end
  | match type of H with context [bind now ?k ?w0] =>
      rewrite (bind_ok now k w0 _ _ eq_refl) in H end
  | match type of H with context [bind (ret ?x) ?k ?w0] =>
      rewrite (bind_ok (ret x) k w0 x w0 eq_refl) in H end ];
  cbv beta iota in H.

Ltac save_in H Vs :=
  match type of H with context [bind (saveProject ?s) ?k ?w0] =>
    let V := fresh "V" in
    assert (V : validateProjectState s = []) by (apply Vs; cbn; congruence);
    let w3 := fresh "w" in let Hs := fresh "Hs" in
    destruct (saveProject_run s w0 V) as (w3 & Hs & ?T & ?C & _);
    rewrite (bind_ok _ _ _ _ _ Hs) in H; cbv beta iota in H; clear V Hs
  end.

Lemma iteration_outcome pid tb m ss st bs cur w step w' :
  validateProjectState st = [] ->
  iteration pid tb m ss st bs cur w = (Ok step, w') ->
  (match step with Next s _ _ => validateProjectState s = [] | Leave _ _ _ _ => True end) /\
  ticks w <= ticks w' /\ clock w' = clock w /\ projectId (step_state step) = projectId st /\
  ((completed (step_state step) = completed st /\ step_branches step = bs /\
    step_iteration step = S cur) \/
   (exists d ds tr, decisions w = Some d :: ds /\
      completed (step_state step) = app (completed st) [tr] /\
      if isPrerequisite (nextStep d)
      then step_iteration step = cur /\ step_branches step = bs
      else step_iteration step = S cur /\
           (step_branches step = bs \/
            exists b, step_branches step = app bs [b] /\ 1 < m /\ S cur < m /\
              ((tb <= 0)%Z \/
               exists t0 t t1, ticks w <= t0 < t /\ t < t1 < ticks w' /\
                 completedAt tr = clock w t0 /\ lastActivity (step_state step) = clock w t1 /\
                 (60000 < tb - (clock w t - ss))%Z)))).
Proof.
  intros Hv H. unfold iteration in H. cbv zeta in H.
  destruct (time_up_spec tb ss w) as (b & Ht & _).
  destruct (time_up_world tb w) as (_ & _ & W3 & _ & _ & _ & _ & _ & W9 & W10).
  set (w1 := if Z.ltb 0 tb then set_ticks w (S (ticks w)) else w) in *. clearbody w1.
  rewrite (bind_ok _ _ _ _ _ Ht) in H. cbv beta in H.
  destruct b.
  { cbv [ret] in H. injection H as <- <-. split; [exact I|]. split; [exact W10|].
    split; [exact W9|]. split; [reflexivity|]. left. repeat split. }
  assert (Vs : forall s, projectId s = projectId st -> name s = name st -> repoPath s = repoPath st ->
                 validateProjectState s = [])
    by (intros s A B C; rewrite (validate_fields st s A B C); exact Hv).
  destruct (decisions w1) as [|[d|] ds] eqn:Dw.
  1,3: destruct (consult_fail m st bs (S cur) w1) as (e & w2 & Hc); [eauto|];
       rewrite (bind_throw _ _ _ _ _ Hc) in H; discriminate.
  destruct (consult_spec m st bs (S cur) w1 d ds Hv Dw)
    as (s' & w2 & Hc & P1 & P2 & P3 & P4 & P5 & P6 & _ & D2 & X2 & _ & _ & G2 & _ & C2 & T2 & _).
  rewrite (bind_ok _ _ _ _ _ Hc) in H. cbv beta iota in H.
  destruct (needsGreg d || String.eqb (confidence d) "low").
  { step_in H. save_in H Vs. cbv [ret] in H. injection H as <- <-.
    cbn in *. split; [exact I|]. split; [lia|]. split; [congruence|]. split; [congruence|].
    left. repeat split. exact P5. }
  step_in H. save_in H Vs.
  match type of H with context [bind (executeTask ?ns ?s) ?k ?w0] =>
    destruct (executeTask_cases ns s w0) as [(x & xs & Xe & He) | (e & w5 & He)];
    [rewrite (bind_ok _ _ _ _ _ He) in H; cbv beta iota in H
    | rewrite (bind_throw _ _ _ _ _ He) in H; discriminate]
  end.
  set (sX := with_lastChecked _ _) in H.
  assert (Fx : projectId sX = projectId st /\ name sX = name st /\ repoPath sX = repoPath st /\
               completed sX = completed st) by (unfold sX; cbn; repeat split; assumption).
  clearbody sX. destruct Fx as (Q1 & Q2 & Q3 & Q4).
  set (w5 := set_executions _ _) in H.
  assert (T5 : ticks w5 = ticks w0 /\ clock w5 = clock w0) by (split; reflexivity).
  clearbody w5. destruct T5 as (T5 & C5). cbn in T, C.
  destruct (String.eqb (ex_status x) "completed" && negb (is_empty (ex_commitHash x))).
  - destruct (reviewLoop_spec sX d x w5 (Vs sX Q1 Q2 Q3)) as (r & w6 & Hr & T6 & C6 & _ & _ & _ & R).
    rewrite (bind_ok _ _ _ _ _ Hr) in H. cbv beta iota in H.
    destruct r as (st'' & [ch sm fc rc bh'|]); cbv beta iota in H.
    2:{ cbv [ret] in H. injection H as <- <-. destruct R as (R1 & R2). split; [exact I|].
        split; [lia|]. split; [congruence|]. split; [cbn; congruence|].
        left. cbn. repeat split. congruence. }
    subst st''. step_in H. destruct (isPrerequisite (nextStep d)) eqn:Pq.
    + step_in H. step_in H. step_in H. save_in H Vs.
      destruct (Z.eqb tb 0); cbv [ret] in H; injection H as <- <-;
        (split; [first [exact I | cbv iota; apply Vs; cbn; congruence]|]);
        (split; [cbn in *; lia|]); (split; [cbn in *; congruence|]); (split; [cbn in *; congruence|]);
        right; exists d, ds; eexists; (split; [congruence|]);
        (split; [cbn; rewrite Q4; reflexivity|]); rewrite Pq; cbn; (split; [lia|reflexivity]).
    + match type of H with context [bind (bind (branch_iteration ?a ?b ?c ?d ?e ?f ?g ?h) ?k1) ?k2 ?w7] =>
        destruct (branch_iteration_spec a b c d e f g h w7) as (bs' & w8 & Hb & T8 & C8 & B8);
        rewrite (bind_ok2 _ _ _ _ _ _ Hb) in H; cbv beta iota in H
      end.
      assert (Cw : clock w6 = clock w) by (cbn in *; congruence). cbn in B8. rewrite Cw in B8.
      step_in H. step_in H. step_in H. save_in H Vs.
      destruct (Z.eqb tb 0); cbv [ret] in H; injection H as <- <-;
        (split; [first [exact I | cbv iota; apply Vs; cbn; congruence]|]);
        (split; [cbn in *; lia|]); (split; [cbn in *; congruence|]); (split; [cbn in *; congruence|]);
        right; exists d, ds; eexists; (split; [congruence|]);
        (split; [cbn; rewrite Q4; reflexivity|]); rewrite Pq; cbn; (split; [reflexivity|]);
        (destruct B8 as [-> | (b & -> & B1 & B2 & B3)]; [left; reflexivity|right]);
        exists b; (split; [reflexivity|]); (split; [exact B1|]); (split; [exact B2|]);
        (destruct B3 as [B3 | (B3 & B4)]; [left; exact B3|right]);
        exists (ticks w6), (S (ticks w6)), (ticks w8);
        (split; [cbn in *; lia|]); (split; [cbn in *; lia|]); cbn in *;
        (split; [congruence|]); (split; [congruence|]); exact B4.
  - destruct (String.eqb (ex_status x) "completed");
      [| destruct (String.eqb (ex_status x) "needs_input")];
      step_in H; save_in H Vs; cbv [ret] in H; injection H as <- <-;
      (split; [exact I|]); (split; [cbn in *; lia|]); (split; [cbn in *; congruence|]); (split; [cbn in *; congruence|]);
      left; cbn; repeat split; congruence.
Qed.

Lemma bind_inv {A B} (m : M A) (k : A -> M B) w b w' :
  bind m k w = (Ok b, w') -> exists a w1, m w = (Ok a, w1) /\ k a w1 = (Ok b, w').
Proof.
  unfold bind. destruct (m w) as [[a|e|] w1]; intros H; [eauto|discriminate|discriminate].
Qed.

(** C5: when the task of a pass is a prerequisite ([isPrerequisite]) and
    the pass finalizes it (one more TaskRecord), the iteration counter
    after the pass is the one before it, and no IterationBranch is added. *)
Theorem prerequisite_keeps_iteration : forall pid tb m ss st bs cur w d ds step w',
  validateProjectState st = [] -> decisions w = Some d :: ds ->
  isPrerequisite (nextStep d) = true ->
  iteration pid tb m ss st bs cur w = (Ok step, w') ->
  length (completed (step_state step)) = S (length (completed st)) ->
  step_iteration step = cur /\ step_branches step = bs.
Proof.
  intros pid tb m ss st bs cur w d ds step w' Hv Hd Hp Hi Hl.
  destruct (iteration_outcome _ _ _ _ _ _ _ _ _ _ Hv Hi) as (_ & _ & _ & _ & [(Hc & _) | (d' & ds' & tr & Hd' & _ & P)]).
  - rewrite Hc in Hl. lia.
  - rewrite Hd in Hd'. injection Hd' as <- _. rewrite Hp in P. exact P.
Qed.

(** Witness: a prerequisite task approved at once, with [maxIterations = 3]. *)
Lemma prerequisite_keeps_iteration_witness :
  exists step w', iteration "p" 0 3 0 sample_state [] 0 world_prereq = (Ok step, w') /\
    step_iteration step = 0 /\ step_branches step = [].
Proof.
  eexists _, _. split; [cbv; reflexivity|].
  eapply (prerequisite_keeps_iteration "p" 0 3 0 sample_state [] 0 world_prereq decision_prereq []);
    [reflexivity | reflexivity | reflexivity | cbv; reflexivity | reflexivity].
Defined.

(** C6: a pass adds an IterationBranch only after finalizing a
    non-prerequisite task (one more TaskRecord [tr]), when
    [maxIterations > 1] and the incremented counter is below
    [maxIterations]; with a time budget, more than a minute of it is left
    (over 60000 ms) at the clock reading the branching step takes, which
    falls after the task's [completedAt] stamp and before the
    [lastActivity] stamp of the pass, both taken within the pass.  With
    [maxIterations = 1] the loop never adds one. *)
Theorem iteration_branch_conditions :
  (forall pid tb m ss st bs cur w step w',
     validateProjectState st = [] ->
     iteration pid tb m ss st bs cur w = (Ok step, w') ->
     step_branches step <> bs ->
     1 < m /\ S cur < m /\
     exists d ds tr, decisions w = Some d :: ds /\ isPrerequisite (nextStep d) = false /\
       completed (step_state step) = app (completed st) [tr] /\
       ((tb <= 0)%Z \/
        exists t0 t t1, ticks w <= t0 < t /\ t < t1 < ticks w' /\
          completedAt tr = clock w t0 /\ lastActivity (step_state step) = clock w t1 /\
          (60000 < tb - (clock w t - ss))%Z)) /\
  (forall fuel pid tb ss st bs c w r w',
     validateProjectState st = [] ->
     iteration_loop fuel pid tb 1 ss st bs c w = (Ok r, w') ->
     snd (fst (fst r)) = bs).
Proof.
  split.
  - intros pid tb m ss st bs cur w step w' Hv Hi Hb.
    destruct (iteration_outcome _ _ _ _ _ _ _ _ _ _ Hv Hi)
      as (_ & _ & _ & _ & [(_ & Eb & _) | (d & ds & tr & Hd & Hc & P)]); [contradiction|].
    destruct (isPrerequisite (nextStep d)) eqn:Hp; [destruct P; contradiction|].
    destruct P as (_ & [Eb | (b & _ & B1 & B2 & B3)]); [contradiction|].
    split; [exact B1|]. split; [exact B2|]. exists d, ds, tr. repeat split; assumption.
  - induction fuel as [|f IH]; intros pid tb ss st bs c w r w' Hv H; [discriminate|].
    cbn [iteration_loop] in H. destruct (Nat.ltb c 1).
    2:{ injection H as <- _. reflexivity. }
    destruct (bind_inv _ _ _ _ _ H) as (step & w1 & Hi & Hk).
    destruct (iteration_outcome _ _ _ _ _ _ _ _ _ _ Hv Hi) as (V & _ & _ & _ & O).
    assert (Eb : step_branches step = bs).
    { destruct O as [(_ & Eb & _) | (d & ds & tr & _ & _ & P)]; [exact Eb|].
      destruct (isPrerequisite (nextStep d)); [apply P|].
      destruct P as (_ & [Eb | (b & _ & B1 & _)]); [exact Eb | lia]. }
    destruct step as [s' bs' c' | s' bs' c' e]; cbn in Eb; subst bs'.
    + exact (IH _ _ _ _ _ _ _ _ _ V Hk).
    + injection Hk as <- _. reflexivity.
Qed.

(** Witness: in a ten-minute session with [maxIterations = 2] an approved
    task is saved as a branch; with [maxIterations = 1] the loop ends on
    the main line. *)
Lemma iteration_branch_conditions_witness :
  (exists step w', iteration "p" 600000 2 0 sample_state [] 0 world_approve = (Ok step, w') /\
     step_branches step <> [] /\ 1 < 2 /\ 1 < 2 /\
     exists d ds tr, decisions world_approve = Some d :: ds /\ isPrerequisite (nextStep d) = false /\
       completed (step_state step) = app (completed sample_state) [tr] /\
       ((600000 <= 0)%Z \/
        exists t0 t t1, ticks world_approve <= t0 < t /\ t < t1 < ticks w' /\
          completedAt tr = clock world_approve t0 /\
          lastActivity (step_state step) = clock world_approve t1 /\
          (60000 < 600000 - (clock world_approve t - 0))%Z)) /\
  (exists r w', iteration_loop 3 "p" 0 1 0 sample_state [] 0 world_approve = (Ok r, w') /\
     snd (fst (fst r)) = []).
Proof.
  split.
  - eexists _, _. split; [cbv; reflexivity|]. split; [cbv; discriminate|].
    eapply (proj1 iteration_branch_conditions "p" 600000%Z 2 0%Z sample_state [] 0 world_approve);
      [reflexivity | cbv; reflexivity | cbv; discriminate].
  - eexists _, _. split; [cbv; reflexivity|].
    eapply (proj2 iteration_branch_conditions 3 "p" 0%Z 0%Z sample_state [] 0 world_approve);
      [reflexivity | cbv; reflexivity].
Defined.

(** * Decisions taken by a session *)

Lemma nodec_bind {A B} (m : M A) (k : A -> M B) :
  nodec m -> (forall a, nodec (k a)) -> nodec (bind m k).
Proof.
  intros Hm Hk w. unfold bind. specialize (Hm w).
  destruct (m w) as [[a|e|] w1]; cbn in *; try rewrite Hk; congruence.
Qed.
Lemma nodec_ret {A} (a : A) : nodec (ret a).
Proof. intros w; reflexivity. Qed.
Lemma nodec_throw {A} e : nodec (@throw A e).
Proof. intros w; reflexivity. Qed.
Lemma nodec_now : nodec now.
Proof. intros w; reflexivity. Qed.
Lemma nodec_emit e : nodec (emit e).
Proof. intros w; reflexivity. Qed.
Lemma nodec_pop {X} (get : World -> list X) set :
  (forall w v, decisions (set w v) = decisions w) -> nodec (pop get set).
Proof. intros H w. unfold pop. destruct (get w); cbn; [reflexivity | apply H]. Qed.
Lemma nodec_write_project s : nodec (write_project s).
Proof. intros w; reflexivity. Qed.

Create HintDb nodec.
#[export] Hint Resolve nodec_bind nodec_ret nodec_throw nodec_now nodec_emit nodec_write_project : nodec.
#[export] Hint Extern 1 (nodec (pop _ _)) => apply nodec_pop; intros [] ?; reflexivity : nodec.

Ltac nodec_tac :=
  repeat (cbv zeta; first
    [ solve [auto with nodec]
    | apply nodec_bind; intros
    | match goal with |- nodec (match ?x with _ => _ end) => destruct x end ]).

Lemma nodec_saveProject s : nodec (saveProject s).
Proof. unfold saveProject. destruct (validateProjectState s); nodec_tac. Qed.
Lemma nodec_messages q a b : nodec (sendMessage q) /\ nodec (askGreg q) /\
  nodec (reportProgress a b) /\ nodec (reportError a b).
Proof. repeat split; apply nodec_emit. Qed.
#[export] Hint Resolve nodec_saveProject : nodec.
#[export] Hint Extern 1 (nodec (sendMessage _)) => apply nodec_messages : nodec.
#[export] Hint Extern 1 (nodec (askGreg _)) => apply nodec_messages : nodec.
#[export] Hint Extern 1 (nodec (reportProgress _ _)) => apply nodec_messages; exact "" : nodec.
#[export] Hint Extern 1 (nodec (reportError _ _)) => apply nodec_messages; exact "" : nodec.
Lemma nodec_executeTask ns s : nodec (executeTask ns s).
Proof. unfold executeTask. nodec_tac. Qed.
Lemma nodec_review_attempts f a : nodec (review_attempts f a).
Proof.
  revert a. induction f as [|f IH]; intros a; cbn [review_attempts]; unfold sleep; nodec_tac.
Qed.
#[export] Hint Resolve nodec_executeTask nodec_review_attempts : nodec.
Lemma nodec_review_rounds f st td bh rc ex rh : nodec (review_rounds f st td bh rc ex rh).
Proof.
  revert st td bh rc ex rh. induction f as [|f IH]; intros; cbn [review_rounds];
    unfold getCommitDiff, reviewWork, executeRevision; nodec_tac.
Qed.
#[export] Hint Resolve nodec_review_rounds : nodec.
Lemma nodec_reviewLoop st d ex : nodec (reviewLoop st d ex).
Proof. unfold reviewLoop, git_before_hash. nodec_tac. Qed.
Lemma nodec_branch_iteration m c tb ss bs sm ch bh : nodec (branch_iteration m c tb ss bs sm ch bh).
Proof. unfold branch_iteration, timeRemaining. nodec_tac. Qed.
#[export] Hint Resolve nodec_reviewLoop nodec_branch_iteration : nodec.

Lemma nodec_run {A} (m : M A) w r w' : nodec m -> m w = (r, w') -> decisions w' = decisions w.
Proof. intros N H. specialize (N w). rewrite H in N. exact N. Qed.

(** A pass takes at most one decision: the one at the head, unless the
    time is up and it takes none. *)
Lemma iteration_decisions pid tb m ss st bs cur w d0 ds0 r w' :
  validateProjectState st = [] -> decisions w = Some d0 :: ds0 ->
  iteration pid tb m ss st bs cur w = (r, w') ->
  (r = Ok (Leave st bs (S cur) LoopDone) /\ decisions w' = decisions w) \/ decisions w' = ds0.
Proof.
  intros Hv Hd H. unfold iteration in H. cbv zeta in H.
  destruct (time_up_spec tb ss w) as (b & Ht & _).
  destruct (time_up_world tb w) as (_ & _ & W3 & _).
  set (w1 := if Z.ltb 0 tb then set_ticks w (S (ticks w)) else w) in *. clearbody w1.
  rewrite (bind_ok _ _ _ _ _ Ht) in H. cbv beta in H.
  destruct b.
  { cbv [ret] in H. injection H as <- <-. left. split; [reflexivity | exact W3]. }
  rewrite <- W3 in Hd.
  destruct (consult_spec m st bs (S cur) w1 d0 ds0 Hv Hd)
    as (s' & w2 & Hc & _ & _ & _ & _ & _ & _ & _ & D2 & _).
  rewrite (bind_ok _ _ _ _ _ Hc) in H. cbv beta iota in H.
  right. rewrite <- D2.
  match type of H with ?R ?x = _ => refine (nodec_run R x r w' _ H) end.
  nodec_tac.
Qed.

Lemma app_cons_neq {X} (l : list X) x ds : app l (x :: ds) <> ds.
Proof. intros H. apply (f_equal (@length X)) in H. rewrite length_app in H. cbn in H. lia. Qed.

Lemma app_cons_len {X} (l : list X) x ds : ~ length (app l (x :: ds)) <= length ds.
Proof. rewrite length_app. cbn. lia. Qed.

Lemma iteration_loop_escalates d ds :
  (needsGreg d || String.eqb (confidence d) "low") = true ->
  forall fuel pre pid tb m ss st bs c w r w',
  validateProjectState st = [] ->
  decisions w = app (map Some pre) (Some d :: ds) ->
  iteration_loop fuel pid tb m ss st bs c w = (r, w') ->
  length (decisions w') <= length ds ->
  decisions w' = ds /\
  exists st' bs' c' old mid older, r = Ok (st', bs', c', LoopReturn) /\
    events w' = ESave old st' :: EAskGreg (decision_question d) ::
                app mid (EPropose (projectId st) :: older) /\
    count_ev is_exec_task mid = 0 /\ count_ev is_propose mid = 0 /\
    status st' = WaitingInput /\ find_project (projectId st) (store w') = Some st'.
Proof.
  intros He. induction fuel as [|f IH]; intros pre pid tb m ss st bs c w r w' Hv Hd H Hl.
  { cbn in H. injection H as _ <-. rewrite Hd in Hl. exfalso. exact (app_cons_len _ _ _ Hl). }
  cbn [iteration_loop] in H. destruct (Nat.ltb c m).
  2:{ cbv [ret] in H. injection H as _ <-. rewrite Hd in Hl. exfalso. exact (app_cons_len _ _ _ Hl). }
  unfold bind in H.
  destruct (iteration pid tb m ss st bs c w) as [r1 w1] eqn:Hi.
  destruct pre as [|p pre].
  - cbn in Hd.
    destruct (iteration_escalates pid tb m ss st bs c w d ds Hv Hd He)
      as (step & w2 & Hi' & _ & _ & _ & new & E & _ &
          [(-> & D & _) | (st' & old & mid & new0 & -> & -> & C1 & C2 & D2 & S2 & P2 & F2)]);
      rewrite Hi' in Hi; injection Hi as <- <-.
    + cbv [ret] in H. injection H as _ <-. rewrite D, Hd in Hl. cbn in Hl. lia.
    + cbv [ret] in H. injection H as <- <-. split; [exact D2|].
      eexists _, _, _, _, _, _. split; [reflexivity|]. split; [rewrite E; cbn [app]; rewrite <- app_assoc; reflexivity|].
      split; [exact C1|]. split; [exact C2|]. split; [exact S2|]. rewrite <- P2. exact F2.
  - cbn [map app] in Hd.
    destruct (iteration_decisions _ _ _ _ _ _ _ _ _ _ _ _ Hv Hd Hi) as [(-> & D) | D].
    + cbv [ret] in H. injection H as _ <-. rewrite D, Hd in Hl. cbn in Hl.
      exfalso. apply (app_cons_len (map Some pre) (Some d) ds). lia.
    + destruct r1 as [step|e|].
      2,3: injection H as _ <-; rewrite D in Hl; exfalso; exact (app_cons_len _ _ _ Hl).
      destruct (iteration_outcome _ _ _ _ _ _ _ _ _ _ Hv Hi) as (V & _ & _ & Pid & _).
      destruct step as [s' bs' c' | s' bs' c' e].
      * cbn in Pid. rewrite <- Pid.
        exact (IH pre pid tb m ss s' bs' c' w1 r w' V D H Hl).
      * cbv [ret] in H. injection H as _ <-. rewrite D in Hl. exfalso. exact (app_cons_len _ _ _ Hl).
Qed.

(** C3: a decision that needs the human (its [needsGreg] flag, or low
    confidence) ends the session at the pass that receives it, at the
    first pass or at any later pass of a timed session: whenever the
    planner's answers before it are decisions [pre] and the session takes
    [d] (at most the answers after [d] are left), [processProject]
    returns normally, no answer after [d] is taken, and the session's last
    events are the proposal for [pid] that gave [d], then no call to the
    execution agent and no other proposal, then the decision's question
    (or the default one on its task), and the project stored as
    [waiting_input]. *)
Theorem processProject_escalates_decision : forall f pid w st pre d ds r w',
  find_project pid (store w) = Some st -> status st = Active -> validateProjectState st = [] ->
  decisions w = app (map Some pre) (Some d :: ds) ->
  (needsGreg d || String.eqb (confidence d) "low") = true ->
  processProject f pid w = (r, w') ->
  length (decisions w') <= length ds ->
  r = Ok tt /\ decisions w' = ds /\
  exists st' old mid older,
    events w' = ESave old st' :: EAskGreg (decision_question d) ::
                app mid (EPropose pid :: older) /\
    count_ev is_exec_task mid = 0 /\ count_ev is_propose mid = 0 /\
    status st' = WaitingInput /\ find_project pid (store w') = Some st'.
Proof.
  intros f pid w st pre d ds r w' Hf Hs Hv Hd He H Hl.
  pose proof (find_project_id _ _ _ Hf) as Hid.
  unfold processProject in H. rewrite (bind_ok _ _ _ _ _ (loadProject_found _ _ _ Hf)) in H.
  cbv beta in H. rewrite Hs in H. cbv iota in H.
  rewrite (bind_ok (ret st) _ w st w eq_refl) in H. cbv beta zeta in H.
  rewrite (bind_ok now _ w _ _ eq_refl) in H. cbv beta in H.
  set (tb := (Z.of_nat (timeBudget st) * 60 * 1000)%Z) in H.
  set (m := if Nat.eqb (maxIterations st) 0 then 1 else maxIterations st) in H.
  set (w0 := set_ticks w (S (ticks w))) in H.
  set (msg := tpl _) in H.
  set (w1 := if Z.ltb 0 tb then set_events w0 (ESend msg :: events w0) else w0) in H.
  assert (Hw1 : (if Z.ltb 0 tb then sendMessage msg else ret tt) w0 = (Ok tt, w1))
    by (unfold w1; destruct (Z.ltb 0 tb); reflexivity).
  assert (D1 : decisions w1 = decisions w) by (unfold w1, w0; destruct (Z.ltb 0 tb); reflexivity).
  clearbody w1.
  rewrite (bind_ok _ _ _ _ _ Hw1) in H. cbv beta in H.
  rewrite <- D1 in Hd. unfold bind at 1 in H.
  destruct (iteration_loop f pid tb m (clock w (ticks w)) st [] 0 w1) as [r1 w2] eqn:Hl2.
  assert (D2 : decisions w' = decisions w2).
  { destruct r1 as [[[[s b] c] [|]]|e|]; cbv beta iota in H.
    - match type of H with ?R ?x = _ => exact (nodec_run R x r w' ltac:(nodec_tac) H) end.
    - cbv [ret] in H. injection H as _ <-. reflexivity.
    - injection H as _ <-. reflexivity.
    - injection H as _ <-. reflexivity. }
  rewrite D2 in Hl.
  destruct (iteration_loop_escalates d ds He f pre pid tb m _ st [] 0 w1 r1 w2 Hv Hd Hl2 Hl)
    as (Ed & st' & bs' & c' & old & mid & older & -> & E & C1 & C2 & S2 & F2).
  cbv beta iota in H. cbv [ret] in H. injection H as <- <-.
  split; [reflexivity|]. split; [exact Ed|].
  exists st', old, mid, older. rewrite <- Hid. repeat split; assumption.
Qed.

(** Witness: a ten-minute session whose first decision is carried out
    and approved (and saved as a branch) and whose second, at the second
    pass, has low confidence. *)
Lemma processProject_escalates_decision_witness :
  exists r w', processProject 2 "p" world_two_passes = (r, w') /\
  r = Ok tt /\ decisions w' = [] /\
  exists st' old mid older,
    events w' = ESave old st' :: EAskGreg (decision_question decision_low) ::
                app mid (EPropose "p" :: older) /\
    count_ev is_exec_task mid = 0 /\ count_ev is_propose mid = 0 /\
    status st' = WaitingInput /\ find_project "p" (store w') = Some st'.
Proof.
  eexists _, _. split; [vm_compute; reflexivity|].
  eapply (processProject_escalates_decision 2 "p" world_two_passes timed_state [decision_high]
            decision_low []);
    [reflexivity | reflexivity | reflexivity | reflexivity | reflexivity | vm_compute; reflexivity
    | vm_compute; lia].
Defined.

(** * The reply router and the dispatch guard *)

(** C8: with two waiting projects, the router resumes the first one in
    directory order ([waiting[0]]), here [a], not the one active last,
    [b]; [b] stays waiting, unchanged. *)
Theorem greg_reply_resumes_first_waiting :
  (lastActivity waiting_a < lastActivity waiting_b)%Z /\
  let r := gregHandler 1 "try plan B" world_two_waiting in
  fst r = Ok tt /\
  option_map status (find_project "a" (store (snd r))) = Some Active /\
  option_map gregDirection (find_project "a" (store (snd r))) = Some "try plan B" /\
  find_project "b" (store (snd r)) = Some waiting_b.
Proof.
  split; [cbn; lia|]. cbv zeta. repeat split; vm_compute; reflexivity.
Qed.

(** C9: a task whose execution throws leaves the stored record active
    with [inProgress] set after the cycle; on the next cycle a
    low-confidence decision stores it as [waiting_input] with
    [inProgress] still set, since that path does not clear it. *)
Theorem inProgress_left_on_waiting_project :
  let w1 := snd (dispatchCycle 1 world_exec_down) in
  let w2 := snd (dispatchCycle 1 w1) in
  fst (dispatchCycle 1 world_exec_down) = Ok tt /\
  option_map status (find_project "p" (store w1)) = Some Active /\
  option_map inProgress (find_project "p" (store w1)) = Some (Some (mkTaskRef "t1" 1 "claude")) /\
  fst (dispatchCycle 1 w1) = Ok tt /\
  option_map status (find_project "p" (store w2)) = Some WaitingInput /\
  option_map inProgress (find_project "p" (store w2)) = Some (Some (mkTaskRef "t1" 1 "claude")).
Proof. cbv zeta. repeat split; vm_compute; reflexivity. Qed.

(** C10: a tick that finds [cycleRunning] set returns at once and
    changes nothing; otherwise the flag is set, the body runs inside
    [try ... finally], and whatever the body does, returning or
    throwing (anything but running out of fuel), the flag is false
    afterwards. *)
Theorem dispatchCycle_guard : forall fuel w,
  (cycleRunning w = true -> dispatchCycle fuel w = (Ok tt, w)) /\
  (cycleRunning w = false ->
     dispatchCycle fuel w =
       try_finally (dispatch_body fuel) (put_cycleRunning false) (set_cycleRunning w true) /\
     forall r w', dispatchCycle fuel w = (r, w') -> r <> OutOfFuel -> cycleRunning w' = false).
Proof.
  intros fuel w. split.
  - intros H. unfold dispatchCycle, bind, get_cycleRunning. rewrite H. reflexivity.
  - intros H.
    assert (E : dispatchCycle fuel w =
                try_finally (dispatch_body fuel) (put_cycleRunning false) (set_cycleRunning w true))
      by (unfold dispatchCycle, bind, get_cycleRunning, put_cycleRunning at 1; rewrite H; reflexivity).
    split; [exact E|]. intros r w' Er Hr. rewrite E in Er. unfold try_finally in Er.
    destruct (dispatch_body fuel (set_cycleRunning w true)) as [[a|e|] w1];
      [| | contradiction Hr; congruence]; cbn in Er; injection Er as <- <-; reflexivity.
Qed.

(** Witness: a tick while a cycle runs, and a cycle whose project throws. *)
Lemma dispatchCycle_guard_witness :
  dispatchCycle 1 (set_cycleRunning world_exec_down true) = (Ok tt, set_cycleRunning world_exec_down true) /\
  cycleRunning (snd (dispatchCycle 1 world_exec_down)) = false.
Proof.
  split.
  - apply (proj1 (dispatchCycle_guard 1 (set_cycleRunning world_exec_down true))). reflexivity.
  - apply (proj2 (proj2 (dispatchCycle_guard 1 world_exec_down) eq_refl) (Ok tt)).
    + vm_compute. reflexivity.
    + discriminate.
Defined.

(** * A logic of store triples, for the status edges *)

Lemma grows_refl w : grows w w.
Proof. exists []. split; [reflexivity | constructor]. Qed.

Lemma grows_trans w1 w2 w3 : grows w1 w2 -> grows w2 w3 -> grows w1 w3.
Proof.
  intros (n1 & E1 & F1) (n2 & E2 & F2). exists (app n2 n1). split.
  - rewrite E2, E1, app_assoc. reflexivity.
  - apply Forall_app. split; assumption.
Qed.

Lemma quiet_ret {A} (a : A) : quiet (ret a).
Proof. intros w. split; [reflexivity | apply grows_refl]. Qed.

Lemma quiet_throw {A} e : quiet (@throw A e).
Proof. intros w. split; [reflexivity | apply grows_refl]. Qed.

Lemma quiet_now : quiet now.
Proof. intros w. split; [reflexivity|]. exists []. split; [reflexivity | constructor]. Qed.

Lemma quiet_emit e : good_save e -> quiet (emit e).
Proof. intros H w. split; [reflexivity|]. exists [e]. split; [reflexivity | repeat constructor; exact H]. Qed.

Lemma quiet_pop {X} (get : World -> list X) set :
  (forall w l, store (set w l) = store w /\ events (set w l) = events w) -> quiet (pop get set).
Proof.
  intros H w. unfold pop. destruct (get w) as [|x r].
  - split; [reflexivity | apply grows_refl].
  - destruct (H w r) as [H1 H2]. split; [exact H1|]. exists []. split; [exact H2 | constructor].
Qed.

Lemma quiet_bind {A B} (m : M A) (k : A -> M B) :
  quiet m -> (forall a, quiet (k a)) -> quiet (bind m k).
Proof.
  intros Hm Hk w. unfold bind. destruct (Hm w) as [S1 G1].
  destruct (m w) as [[a|e|] w1]; cbn in *; [|split; assumption | split; assumption].
  destruct (Hk a w1) as [S2 G2]. split; [congruence | exact (grows_trans _ _ _ G1 G2)].
Qed.

Ltac quiet_tac :=
  repeat (first
    [ apply quiet_ret | apply quiet_throw | apply quiet_now
    | apply quiet_emit; exact I
    | apply quiet_pop; intros; split; reflexivity
    | apply quiet_bind; [| let x := fresh "x" in intros x]
    | match goal with
      | |- quiet (if ?b then _ else _) => destruct b
      | |- quiet (match ?x with Some _ => _ | None => _ end) => destruct x
      end
    | progress cbv zeta ]).

Lemma quiet_sendMessage q : quiet (sendMessage q).
Proof. apply quiet_emit. exact I. Qed.
Lemma quiet_askGreg q : quiet (askGreg q).
Proof. apply quiet_emit. exact I. Qed.
Lemma quiet_reportProgress a b : quiet (reportProgress a b).
Proof. apply quiet_emit. exact I. Qed.
Lemma quiet_reportError a b : quiet (reportError a b).
Proof. apply quiet_emit. exact I. Qed.
Lemma quiet_analyzeRepo p : quiet (analyzeRepo p).
Proof. apply quiet_emit. exact I. Qed.
Lemma quiet_getCommitDiff p h : quiet (getCommitDiff p h).
Proof. apply quiet_emit. exact I. Qed.
Lemma quiet_proposeNextStep s : quiet (proposeNextStep s).
Proof. unfold proposeNextStep. quiet_tac. Qed.
Lemma quiet_executeTask ns s : quiet (executeTask ns s).
Proof. unfold executeTask. quiet_tac. Qed.
Lemma quiet_executeRevision r t s : quiet (executeRevision r t s).
Proof. unfold executeRevision. quiet_tac. Qed.
Lemma quiet_waitForGreg : quiet waitForGreg.
Proof. unfold waitForGreg. quiet_tac. Qed.
Lemma quiet_parseGoal g : quiet (parseGoal g).
Proof. unfold parseGoal. quiet_tac. Qed.
Lemma quiet_git_before_hash : quiet git_before_hash.
Proof. unfold git_before_hash. quiet_tac. Qed.
Lemma quiet_time_up tb ss : quiet (time_up tb ss).
Proof. unfold time_up, timeRemaining. quiet_tac. Qed.
Lemma quiet_branch_iteration m c tb ss bs sm ch bh : quiet (branch_iteration m c tb ss bs sm ch bh).
Proof. unfold branch_iteration, timeRemaining, sendMessage. quiet_tac. Qed.

Lemma quiet_review_attempts fuel attempt : quiet (review_attempts fuel attempt).
Proof.
  revert attempt. induction fuel as [|f IH]; intros attempt; cbn [review_attempts]; [apply quiet_ret|].
  destruct (Nat.leb attempt 3); [|apply quiet_ret].
  apply quiet_bind; [apply quiet_emit; exact I | intros _].
  apply quiet_bind; [apply quiet_pop; intros; split; reflexivity | intros a].
  destruct a as [[| |r]|];
    try (apply quiet_bind; [destruct (Nat.ltb attempt 3); [apply quiet_emit; exact I | apply quiet_ret] | intros _; apply IH]).
  apply quiet_ret.
Qed.

Lemma quiet_reviewWork s t h : quiet (reviewWork s t h).
Proof. apply quiet_review_attempts. Qed.

Lemma quiet_if {A} (b : bool) (m1 m2 : M A) : quiet m1 -> quiet m2 -> quiet (if b then m1 else m2).
Proof. destruct b; auto. Qed.

Create HintDb quiet.
#[export] Hint Resolve quiet_ret quiet_now quiet_sendMessage quiet_askGreg quiet_reportProgress
  quiet_reportError quiet_analyzeRepo quiet_getCommitDiff quiet_proposeNextStep quiet_executeTask
  quiet_executeRevision quiet_waitForGreg quiet_parseGoal quiet_git_before_hash quiet_time_up
  quiet_branch_iteration quiet_reviewWork quiet_if quiet_bind quiet_throw : quiet.

Lemma hoare_bind {A B} P (Q : A -> list ProjectState -> Prop) R (m : M A) (k : A -> M B) :
  hoare P m Q -> (forall a, hoare (Q a) (k a) R) -> hoare P (bind m k) R.
Proof.
  intros Hm Hk w HP. unfold bind. destruct (Hm w HP) as [G1 Q1].
  destruct (m w) as [[a|e|] w1]; cbn in *.
  - destruct (Hk a w1 (Q1 a eq_refl)) as [G2 Q2]. split; [exact (grows_trans _ _ _ G1 G2) | exact Q2].
  - split; [exact G1 | discriminate].
  - split; [exact G1 | discriminate].
Qed.

Lemma hoare_quiet {A} P (m : M A) : quiet m -> hoare P m (fun _ => P).
Proof.
  intros H w HP. destruct (H w) as [S G]. split; [exact G|]. intros a _. rewrite S. exact HP.
Qed.

Lemma hoare_ret {A} P (Q : A -> list ProjectState -> Prop) a :
  (forall l, P l -> Q a l) -> hoare P (ret a) Q.
Proof. intros H w HP. split; [apply grows_refl|]. intros b E. injection E as <-. apply H, HP. Qed.

Lemma hoare_bind_ret {A B} P R (a : A) (k : A -> M B) : hoare P (k a) R -> hoare P (bind (ret a) k) R.
Proof. intros H w HP. exact (H w HP). Qed.

Lemma hoare_pure {A} (X : Prop) P (m : M A) Q : (X -> hoare P m Q) -> hoare (fun l => X /\ P l) m Q.
Proof. intros H w [HX HP]. exact (H HX w HP). Qed.

Lemma hoare_from_pre {A} (X : Prop) P (m : M A) Q :
  (forall l, P l -> X) -> (X -> hoare P m Q) -> hoare P m Q.
Proof. intros H1 H2 w HP. exact (H2 (H1 _ HP) w HP). Qed.

Lemma hoare_false {A} P (m : M A) Q : (forall l, ~ P l) -> hoare P m Q.
Proof. intros H w HP. destruct (H _ HP). Qed.

Lemma hoare_conseq {A} P P' (Q Q' : A -> list ProjectState -> Prop) m :
  hoare P' m Q' -> (forall l, P l -> P' l) -> (forall a l, Q' a l -> Q a l) -> hoare P m Q.
Proof.
  intros H HP HQ w Hw. destruct (H w (HP _ Hw)) as [G Hq]. split; [exact G|].
  intros a E. apply HQ, Hq, E.
Qed.

(** Saving a valid record along a documented edge; an invalid one throws
    before writing. *)
Lemma hoare_save s pid a b : projectId s = pid -> status s = b -> documented_edge a b = true ->
  hoare (stored_is pid a) (saveProject s)
    (fun s' l => s' = with_lastChecked s (lastChecked s') /\ stored_is pid b l).
Proof.
  intros Hp Hb He w Hs. unfold saveProject. destruct (validateProjectState s).
  - destruct w as [st0 dk ev cr cl tk ds xs rrs ra rp gl lh gk rb]. unfold stored_is in Hs. cbn in Hs |- *.
    split.
    + eexists [_]. split; [reflexivity|]. constructor; [|constructor]. cbn.
      rewrite Hp, Hs, Hb. exact He.
    + intros s' E. injection E as <-. split; [reflexivity|]. unfold stored_is.
      pose proof (find_put (with_lastChecked s (cl tk)) st0) as F. cbn in F. rewrite <- Hp, F.
      cbn. rewrite Hb. reflexivity.
  - split; [apply grows_refl | discriminate].
Qed.

(** One step of a triple proof: a quiet computation, or a save. *)
Ltac hq := eapply hoare_bind; [apply hoare_quiet; solve [auto with quiet] | intros ?].
Ltac hqn x := eapply hoare_bind; [apply hoare_quiet; solve [auto with quiet] | intros x].

Lemma loadProject_hoare pid (P : ProjectState -> list ProjectState -> Prop) :
  hoare (fun l => forall s, find_project pid l = Some s -> P s l) (loadProject pid) P.
Proof.
  intros w H. unfold loadProject. destruct (find_project pid (store w)) eqn:E; cbn.
  - split; [apply grows_refl|]. intros a Ea. injection Ea as <-. apply H; reflexivity.
  - split; [apply grows_refl | discriminate].
Qed.

(** The revision loop, from a stored active record: an approval returns
    the same state with the record still active. *)
Lemma review_rounds_hoare f st pid td bh k cur hist :
  status st = Active -> projectId st = pid ->
  hoare (stored_is pid Active) (review_rounds f st td bh k cur hist)
    (fun r l => match snd r with
                | Finalized _ _ _ _ _ => fst r = st /\ stored_is pid Active l
                | Waiting => True
                end).
Proof.
  intros Hs Hp. revert k cur hist. induction f as [|f IH]; intros k cur hist.
  - cbn [review_rounds]. cbv zeta. hq.
    eapply hoare_bind; [apply (hoare_save _ _ _ WaitingInput); [exact Hp | reflexivity | reflexivity] | intros s'].
    apply hoare_ret. intros; exact I.
  - cbn [review_rounds]. cbv zeta. destruct (Nat.ltb k SAFETY_CAP).
    2:{ hq. eapply hoare_bind;
          [apply (hoare_save _ _ _ WaitingInput); [exact Hp | reflexivity | reflexivity] | intros s'].
        apply hoare_ret. intros; exact I. }
    hq. hq. hqn rv.
    destruct (String.eqb (decision rv) "approve").
    { hq. apply hoare_ret. intros l H. split; [reflexivity | exact H]. }
    destruct (String.eqb (decision rv) "ask_greg").
    { hq. eapply hoare_bind;
        [apply (hoare_save _ _ _ WaitingInput); [exact Hp | reflexivity | reflexivity] | intros s'].
      apply hoare_ret. intros; exact I. }
    hq. hqn rr.
    destruct (String.eqb (ex_status rr) "completed" && negb (is_empty (ex_commitHash rr))).
    + apply IH.
    + hq. eapply hoare_bind;
        [apply (hoare_save _ _ _ WaitingInput); [exact Hp | reflexivity | reflexivity] | intros s'].
      apply hoare_ret. intros; exact I.
Qed.

Lemma reviewLoop_hoare st pid d ex :
  status st = Active -> projectId st = pid ->
  hoare (stored_is pid Active) (reviewLoop st d ex)
    (fun r l => match snd r with
                | Finalized _ _ _ _ _ => fst r = st /\ stored_is pid Active l
                | Waiting => True
                end).
Proof. intros Hs Hp. unfold reviewLoop. hq. apply review_rounds_hoare; assumption. Qed.

Lemma hoare_quiet_true {A} P (m : M A) : quiet m -> hoare P m (fun _ _ => True).
Proof. intros H. eapply hoare_conseq; [apply hoare_quiet, H | exact (fun _ h => h) | intros; exact I]. Qed.

Lemma loadProject_spec pid P :
  hoare P (loadProject pid) (fun s l => projectId s = pid /\ (find_project pid l = Some s /\ P l)).
Proof.
  intros w H. unfold loadProject. destruct (find_project pid (store w)) eqn:E; cbn.
  - split; [apply grows_refl|]. intros a Ea. injection Ea as <-.
    split; [exact (find_project_id _ _ _ E) | split; assumption].
  - split; [apply grows_refl | discriminate].
Qed.

Lemma stored_of_find pid s l : find_project pid l = Some s -> stored_is pid (status s) l.
Proof. intros H. unfold stored_is. rewrite H. reflexivity. Qed.

Lemma consult_hoare m st q bs c :
  status st = Active -> projectId st = q ->
  hoare (stored_is q Active) (consult m st bs c)
    (fun p l => status (fst p) = Active /\ projectId (fst p) = q /\ stored_is q Active l).
Proof.
  intros Hs Hp. unfold consult. hq. hq. cbv zeta.
  destruct (Nat.ltb 1 c && negb (Nat.eqb (length bs) 0)); hqn d;
    repeat match goal with |- context [if ?b then _ else _] => destruct b end;
    try (eapply hoare_bind;
         [apply (hoare_save _ _ _ Active); [cbn; congruence | cbn; congruence | reflexivity]
         | intros s3]);
    apply hoare_ret;
    first [ intros l [E3 H3]; rewrite E3; cbn; repeat split; (congruence || exact H3)
          | intros l H3; cbn; repeat split; (congruence || exact H3) ].
Qed.

(** A save of a record derived from one of known id and status. *)
Ltac save_as b :=
  eapply hoare_bind;
  [apply (hoare_save _ _ _ b); [cbn; congruence | cbn; congruence | reflexivity] | intros ?].
Ltac save_as_n b x :=
  eapply hoare_bind;
  [apply (hoare_save _ _ _ b); [cbn; congruence | cbn; congruence | reflexivity] | intros x].

Lemma iteration_hoare pid tb m ss st q bs cur :
  status st = Active -> projectId st = q ->
  hoare (stored_is q Active) (iteration pid tb m ss st bs cur)
    (fun step l => match step with
                   | Next s _ _ => status s = Active /\ projectId s = q /\ stored_is q Active l
                   | Leave _ _ _ _ => True
                   end).
Proof.
  intros Hs Hp. unfold iteration. cbv zeta. hqn stop.
  destruct stop; [apply hoare_ret; intros; exact I|].
  eapply hoare_bind; [apply consult_hoare; eassumption | intros [s' d]].
  apply hoare_pure; intros Hs'. apply hoare_pure; intros Hp'. cbn in Hs', Hp'.
  destruct (needsGreg d || String.eqb (confidence d) "low").
  { hq. save_as WaitingInput. apply hoare_ret; intros; exact I. }
  hq. save_as_n Active s1. apply hoare_pure; intros E1.
  assert (F1 : status s1 = Active) by (rewrite E1; cbn; exact Hs').
  assert (F2 : projectId s1 = q) by (rewrite E1; cbn; exact Hp').
  clear E1. hqn x.
  destruct (String.eqb (ex_status x) "completed" && negb (is_empty (ex_commitHash x))).
  - eapply hoare_bind; [apply reviewLoop_hoare; eassumption | intros [s2 r]].
    destruct r as [ch sm fc rc bh|]; [|apply hoare_ret; intros; exact I].
    apply hoare_pure; intros E2. cbn in E2. subst s2.
    hq. eapply hoare_bind;
      [apply hoare_quiet; destruct (isPrerequisite (nextStep d)); solve [auto with quiet] | intros [bs' ci]].
    hq. hq. save_as Active.
    destruct (Z.eqb tb 0); apply hoare_ret; [intros; exact I|].
    intros l [E3 H3]. rewrite E3. cbn. repeat split; (congruence || exact H3).
  - destruct (String.eqb (ex_status x) "completed");
      [| destruct (String.eqb (ex_status x) "needs_input")];
      hq; [save_as WaitingInput | save_as WaitingInput | save_as Active];
      apply hoare_ret; intros; exact I.
Qed.

Lemma iteration_loop_hoare f pid tb m ss st q bs c :
  status st = Active -> projectId st = q ->
  hoare (stored_is q Active) (iteration_loop f pid tb m ss st bs c) (fun _ _ => True).
Proof.
  revert st bs c. induction f as [|f IH]; intros st bs c Hs Hp; cbn [iteration_loop].
  - intros w _. split; [apply grows_refl | discriminate].
  - destruct (Nat.ltb c m); [|apply hoare_ret; intros; exact I].
    eapply hoare_bind; [apply iteration_hoare; eassumption | intros [s' bs' c' | s' bs' c' e]].
    + apply hoare_pure; intros Hs'. apply hoare_pure; intros Hp'. apply IH; assumption.
    + apply hoare_ret. intros; exact I.
Qed.

Lemma processProject_hoare f pid :
  hoare (fun l => forall s, find_project pid l = Some s -> status s <> Paused)
        (processProject f pid) (fun _ _ => True).
Proof.
  unfold processProject. eapply hoare_bind; [apply loadProject_spec | intros s].
  apply hoare_pure; intros Hp.
  destruct (status s) eqn:Es.
  4: (apply hoare_ret; intros; exact I).
  2: (apply hoare_false; intros l [Hf HP]; exact (HP s Hf Es)).
  all: apply (hoare_bind _ (fun s1 l => (status s1 = Active /\ projectId s1 = pid) /\ stored_is pid Active l)).
  2,4: intros s1; apply hoare_pure; intros [Hs1 Hp1]; cbv zeta; hq; hq;
       eapply hoare_bind; [apply iteration_loop_hoare; eassumption | intros [[[? ?] ?] ex]];
       destruct ex; cbv beta iota; apply hoare_quiet_true; solve [auto with quiet].
  - apply hoare_ret. intros l [Hf _]. split; [split; assumption|].
    rewrite <- Es. apply stored_of_find, Hf.
  - hq. hq. hqn parsed. cbv zeta.
    eapply hoare_bind;
      [eapply hoare_conseq;
         [apply (hoare_save _ pid Completed Active); [cbn; congruence | reflexivity | reflexivity]
         | intros l [Hf _]; rewrite <- Es; apply stored_of_find, Hf
         | intros ? ? H; exact H]
      | intros s1].
    apply hoare_pure; intros E1. hq. apply hoare_ret. intros l H.
    rewrite E1. cbn. split; [split; [reflexivity | congruence] | exact H].
Qed.

Lemma resumeProject_hoare pid text :
  hoare (stored_is pid WaitingInput) (resumeProject pid text) (fun _ _ => True).
Proof.
  unfold resumeProject. eapply hoare_bind; [apply loadProject_spec | intros s].
  apply hoare_pure; intros Hp. hq.
  eapply hoare_conseq;
    [apply (hoare_save _ pid WaitingInput Active); [cbn; congruence | reflexivity | reflexivity]
    | intros l [_ H]; exact H
    | intros; exact I].
Qed.

Lemma attach_direction_hoare pid text :
  hoare (stored_is pid Active) (attach_direction pid text) (fun _ _ => True).
Proof.
  unfold attach_direction. eapply hoare_bind; [apply loadProject_spec | intros s].
  apply hoare_pure; intros Hp.
  apply (hoare_from_pre (status s = Active)).
  { intros l [Hf H]. unfold stored_is in H. rewrite Hf in H. injection H as H. exact H. }
  intros Hs. hq.
  eapply hoare_conseq;
    [apply (hoare_save _ pid Active Active); [cbn; congruence | cbn; congruence | reflexivity]
    | intros l [_ H]; exact H
    | intros; exact I].
Qed.

Lemma keeps_bind {A B} (m : M A) (k : A -> M B) :
  keeps m -> (forall a, keeps (k a)) -> keeps (bind m k).
Proof.
  intros Hm Hk w. unfold bind. specialize (Hm w).
  destruct (m w) as [[a|e|] w1]; cbn in *; [rewrite Hk|..]; assumption.
Qed.

Lemma keeps_ret {A} (a : A) : keeps (ret a).
Proof. intros w. reflexivity. Qed.
Lemma keeps_throw {A} e : keeps (@throw A e).
Proof. intros w. reflexivity. Qed.
Lemma keeps_now : keeps now.
Proof. intros w. reflexivity. Qed.
Lemma keeps_emit e : keeps (emit e).
Proof. intros w. reflexivity. Qed.
Lemma keeps_write_project s : keeps (write_project s).
Proof. intros w. reflexivity. Qed.
Lemma keeps_loadProject pid : keeps (loadProject pid).
Proof. intros w. unfold loadProject. destruct (find_project pid (store w)); reflexivity. Qed.

Create HintDb keeps.
#[export] Hint Resolve keeps_bind keeps_ret keeps_throw keeps_now keeps_emit
  keeps_write_project keeps_loadProject : keeps.

Lemma keeps_saveProject s : keeps (saveProject s).
Proof. unfold saveProject. destruct (validateProjectState s); auto with keeps. Qed.
Lemma keeps_resumeProject pid text : keeps (resumeProject pid text).
Proof. unfold resumeProject. auto using keeps_saveProject with keeps. Qed.
Lemma keeps_attach_direction pid text : keeps (attach_direction pid text).
Proof. unfold attach_direction. auto using keeps_saveProject with keeps. Qed.

Lemma dispatch_running f w : cycleRunning w = true -> dispatchCycle f w = (Ok tt, w).
Proof. intros H. unfold dispatchCycle, bind, get_cycleRunning. rewrite H. reflexivity. Qed.

Lemma bind_grows {A B} (m : M A) (k : A -> M B) w :
  grows w (snd (m w)) ->
  (forall a, fst (m w) = Ok a -> grows (snd (m w)) (snd (k a (snd (m w))))) ->
  grows w (snd (bind m k w)).
Proof.
  intros H1 H2. unfold bind. destruct (m w) as [[a|e|] w1]; cbn in *; auto.
  apply (grows_trans _ w1); auto.
Qed.

Lemma try_catch_grows {A} (m : M A) w : grows w (snd (m w)) -> grows w (snd (try_catch m w)).
Proof. unfold try_catch. destruct (m w) as [[a|e|] w1]; auto. Qed.

Lemma load_ids_quiet st : quiet (load_ids_with_status st).
Proof.
  intros w. unfold load_ids_with_status. destruct (dirOk w); (split; [reflexivity | apply grows_refl]).
Qed.

(** With one record per id (one file per project), the first id listed
    with a status is stored with that status. *)
Lemma find_filtered st pid rest l :
  NoDup (map projectId l) ->
  map projectId (filter (fun s => status_eqb s.(status) st) l) = pid :: rest ->
  stored_is pid st l.
Proof.
  induction l as [|x r IH]; cbn; [discriminate|]. intros Hn E.
  inversion Hn as [|? ? Hx Hr]; subst.
  unfold stored_is; cbn.
  destruct (status_eqb (status x) st) eqn:Ex; cbn in E.
  - injection E as <- _. rewrite String.eqb_refl. cbn. f_equal.
    destruct (status x), st; try discriminate; reflexivity.
  - destruct (String.eqb (projectId x) pid) eqn:Ep.
    + apply String.eqb_eq in Ep. exfalso. apply Hx. rewrite Ep.
      assert (Hi : In pid (map projectId (filter (fun s => status_eqb s.(status) st) r)))
        by (rewrite E; left; reflexivity).
      apply in_map_iff in Hi as (y & <- & Hy). apply filter_In in Hy as [Hy _].
      apply in_map, Hy.
    + apply IH; assumption.
Qed.

Lemma gregHandler_grows f text w :
  cycleRunning w = true -> NoDup (map projectId (store w)) ->
  grows w (snd (gregHandler f text w)).
Proof.
  intros Hc Hn. unfold gregHandler.
  apply bind_grows.
  2: { intros r _. destruct r as [e|u]; [apply (proj2 (quiet_reportError _ _ _)) | apply grows_refl]. }
  apply try_catch_grows. apply bind_grows; [apply (proj2 (load_ids_quiet _ _))|].
  intros ids E. unfold loadWaitingProjects, load_ids_with_status in E |- *.
  destruct (dirOk w) eqn:Ed; cbn in E; [|discriminate]. injection E as <-. cbn [snd].
  destruct (map projectId (filter (fun s => status_eqb s.(status) WaitingInput) (store w)))
    as [|pid rest] eqn:Ew.
  - apply bind_grows; [apply (proj2 (load_ids_quiet _ _))|].
    intros ids E. unfold loadActiveProjects, load_ids_with_status in E |- *.
    rewrite Ed in E |- *. injection E as <-. cbn [snd].
    destruct (map projectId (filter (fun s => status_eqb s.(status) Active) (store w)))
      as [|pid' rest'] eqn:Ea.
    + rewrite dispatch_running; [apply grows_refl | exact Hc].
    + apply bind_grows.
      { apply (proj1 (attach_direction_hoare pid' text w (find_filtered _ _ _ _ Hn Ea))). }
      intros s _. apply bind_grows; [apply (proj2 (quiet_sendMessage _ _))|].
      intros u _. rewrite dispatch_running; [apply grows_refl|].
      unfold sendMessage; rewrite keeps_emit, keeps_attach_direction. exact Hc.
  - apply bind_grows.
    { apply (proj1 (resumeProject_hoare pid text w (find_filtered _ _ _ _ Hn Ew))). }
    intros u _. rewrite dispatch_running; [apply grows_refl|].
    rewrite keeps_resumeProject. exact Hc.
Qed.



(** * Parsed records: validation, templates and file names *)

Lemma app_eq_nil_iff {A} (l1 l2 : list A) : app l1 l2 = [] <-> l1 = [] /\ l2 = [].
Proof. split; [apply app_eq_nil | intros [-> ->]; reflexivity]. Qed.

Lemma if_nil_iff {A} (b : bool) (x : A) : (if b then [] else [x]) = [] <-> b = true.
Proof. destruct b; split; intros; (reflexivity || discriminate). Qed.

Lemma if_nil_iff' {A} (b : bool) (x : A) : (if b then [x] else []) = [] <-> b = false.
Proof. destruct b; split; intros; (reflexivity || discriminate). Qed.

Lemma json_null_cases j : j = JNull \/ j <> JNull.
Proof. destruct j; [left; reflexivity | right; discriminate ..]. Qed.

Lemma check_in_nil l label v : check_in l label v = inr [] <-> includes_str l v = true.
Proof.
  unfold check_in. destruct (includes_str l v); [tauto|].
  destruct (tmpl v); split; discriminate.
Qed.

(** X1: validateDecision reports no error exactly when the decision is
    not [null], its [nextStep.task] is truthy, its [confidence] is one of
    high, medium and low, and its [needsGreg] is a boolean. *)
Theorem validateDecision_accepts : forall d,
  validateDecision d = inr [] <->
  d <> JNull /\ truthy (oprop (prop d "nextStep") "task") = true /\
  includes_str ["high"; "medium"; "low"] (prop d "confidence") = true /\
  is_bool (prop d "needsGreg") = true.
Proof.
  intros d.
  assert (E : d <> JNull -> validateDecision d =
    match check_in ["high"; "medium"; "low"] "invalid confidence: " (prop d "confidence") with
    | inl e => inl e
    | inr e2 => inr (app (if truthy (oprop (prop d "nextStep") "task") then []
                          else ["nextStep.task is required"])
                        (app e2 (if is_bool (prop d "needsGreg") then []
                                 else ["needsGreg must be boolean"])))
    end) by (destruct d; [contradiction | reflexivity ..]).
  destruct (json_null_cases d) as [->|Hn].
  - split; [discriminate | intros [H _]; contradiction].
  - rewrite (E Hn). rewrite <- check_in_nil with (label := "invalid confidence: ").
    destruct (check_in _ _ _) as [e|e2].
    + split; [discriminate | intros (_ & _ & H & _); discriminate].
    + split.
      * intros H. injection H as H.
        apply app_eq_nil_iff in H as [H1 H]; apply app_eq_nil_iff in H as [H2 H3].
        apply if_nil_iff in H1, H3. subst. repeat split; auto.
      * intros (_ & H1 & H2 & H3). rewrite H1, H3. injection H2 as ->. reflexivity.
Qed.

(** X2: validateExecution reports no error exactly when the result is not
    [null], its [status] is completed, failed or needs_input, and its
    [summary] is truthy. *)
Theorem validateExecution_accepts : forall r,
  validateExecution r = inr [] <->
  r <> JNull /\ includes_str ["completed"; "failed"; "needs_input"] (prop r "status") = true /\
  truthy (prop r "summary") = true.
Proof.
  intros r.
  assert (E : r <> JNull -> validateExecution r =
    match check_in ["completed"; "failed"; "needs_input"] "invalid status: " (prop r "status") with
    | inl e => inl e
    | inr e1 => inr (app e1 (if truthy (prop r "summary") then [] else ["summary is required"]))
    end) by (destruct r; [contradiction | reflexivity ..]).
  destruct (json_null_cases r) as [->|Hn].
  - split; [discriminate | intros [H _]; contradiction].
  - rewrite (E Hn). rewrite <- check_in_nil with (label := "invalid status: ").
    destruct (check_in _ _ _) as [e|e1].
    + split; [discriminate | intros (_ & H & _); discriminate].
    + split.
      * intros H. injection H as H.
        apply app_eq_nil_iff in H as [H1 H2]. apply if_nil_iff in H2. subst. repeat split; auto.
      * intros (_ & H1 & H2). rewrite H2. injection H1 as ->. reflexivity.
Qed.

Lemma required_nil (v : option json) (m : string) :
  (if negb (truthy v) || negb (is_str v) then [m] else []) = [] <->
  exists s, v = Some (JStr s) /\ s <> "".
Proof.
  destruct v as [[| | | s | |]|]; cbn; rewrite ?orb_true_r, ?orb_false_r;
    split; intros H; try discriminate;
    try (destruct H as (x & Hx & _); discriminate).
  - destruct (is_empty s) eqn:Es; [discriminate|]. exists s. split; [reflexivity|].
    intros ->. discriminate.
  - destruct H as (x & Hx & Hn). injection Hx as <-. unfold is_empty.
    destruct (String.eqb_spec s ""); [contradiction | reflexivity].
Qed.

Lemma validateProjectState_json_nil : forall j,
  validateProjectState_json j = inr [] <->
  j <> JNull /\
  (exists s, prop j "projectId" = Some (JStr s) /\ s <> "") /\
  (exists s, prop j "name" = Some (JStr s) /\ s <> "") /\
  (exists s, prop j "repoPath" = Some (JStr s) /\ s <> "") /\
  includes_str STATUSES (prop j "status") = true /\
  is_array (prop j "completed") = true.
Proof.
  intros j.
  assert (E : j <> JNull -> validateProjectState_json j =
    let required k :=
      if negb (truthy (prop j k)) || negb (is_str (prop j k)) then [k ++ " is required"] else [] in
    match check_in STATUSES "invalid status: " (prop j "status") with
    | inl e => inl e
    | inr e4 =>
        inr (app (required "projectId") (app (required "name") (app (required "repoPath")
              (app e4 (if is_array (prop j "completed") then [] else ["completed must be an array"])))))
    end) by (destruct j; [contradiction | reflexivity ..]).
  destruct (json_null_cases j) as [->|Hn].
  - split; [discriminate | intros [H _]; contradiction].
  - rewrite (E Hn). cbv zeta. rewrite <- check_in_nil with (label := "invalid status: ").
    destruct (check_in _ _ _) as [e|e4].
    + split; [discriminate | intros (_ & _ & _ & _ & H & _); discriminate].
    + split.
      * intros H. injection H as H.
        apply app_eq_nil_iff in H as [H1 H]; apply app_eq_nil_iff in H as [H2 H];
        apply app_eq_nil_iff in H as [H3 H]; apply app_eq_nil_iff in H as [H4 H5].
        apply required_nil in H1, H2, H3. apply if_nil_iff in H5. subst.
        repeat split; auto.
      * intros (_ & H1 & H2 & H3 & H4 & H5).
        apply (required_nil _ ("projectId" ++ " is required")) in H1.
        apply (required_nil _ ("name" ++ " is required")) in H2.
        apply (required_nil _ ("repoPath" ++ " is required")) in H3.
        rewrite H1, H2, H3, H5. injection H4 as ->. reflexivity.
Qed.

(** X3: validateProjectState, on a parsed record, reports no error
    exactly when the record is not [null], its projectId, name and
    repoPath are non-empty strings, its status is one of active, paused,
    completed and waiting_input, and its completed field is an array. *)
Theorem validateProjectState_json_accepts : forall j,
  validateProjectState_json j = inr [] <->
  j <> JNull /\
  (exists s, prop j "projectId" = Some (JStr s) /\ s <> "") /\
  (exists s, prop j "name" = Some (JStr s) /\ s <> "") /\
  (exists s, prop j "repoPath" = Some (JStr s) /\ s <> "") /\
  includes_str STATUSES (prop j "status") = true /\
  is_array (prop j "completed") = true.
Proof. exact validateProjectState_json_nil. Qed.

(** * Properties of the helpers, the state module and the admin API *)

Lemma str_app_assoc (a b c : string) : (a ++ b) ++ c = a ++ (b ++ c).
Proof. induction a as [|x a IH]; cbn; [reflexivity | now rewrite IH]. Qed.

Lemma str_app_nil_r (a : string) : a ++ "" = a.
Proof. induction a as [|x a IH]; cbn; [reflexivity | now rewrite IH]. Qed.

Lemma str_length_app (a b : string) : String.length (a ++ b) = String.length a + String.length b.
Proof. induction a as [|x a IH]; cbn; [reflexivity | now rewrite IH]. Qed.

Lemma str_app_inv_r (a b c : string) : a ++ c = b ++ c -> a = b.
Proof.
  revert b. induction a as [|x a IH]; intros [|y b] H; cbn in H.
  - reflexivity.
  - apply (f_equal String.length) in H. cbn in H. rewrite (str_length_app b c) in H. lia.
  - apply (f_equal String.length) in H. cbn in H. rewrite (str_length_app a c) in H. lia.
  - injection H as -> H. f_equal. exact (IH b H).
Qed.

Lemma ends_with_eq (suf s : string) :
  ends_with suf s = String.eqb s suf || match s with EmptyString => false | String _ r => ends_with suf r end.
Proof. destruct s; reflexivity. Qed.

Lemma ends_with_spec (suf s : string) : ends_with suf s = true <-> exists t, s = t ++ suf.
Proof.
  induction s as [|c s IH]; rewrite ends_with_eq, orb_true_iff, String.eqb_eq.
  - split.
    + intros [<-|H]; [exists ""; reflexivity | discriminate].
    + intros ([|x t] & H); [left; exact H | discriminate].
  - split.
    + intros [<-|H]; [exists ""; reflexivity|].
      apply IH in H as (t & ->). exists (String c t). reflexivity.
    + intros ([|x t] & H); [left; exact H|].
      right. injection H as -> ->. apply IH. exists t. reflexivity.
Qed.

Lemma ends_with_app (suf t : string) : ends_with suf (t ++ suf) = true.
Proof. apply ends_with_spec. exists t. reflexivity. Qed.

Lemma ends_with_app_suffix (p q s : string) : ends_with (p ++ q) (s ++ q) = ends_with p s.
Proof.
  apply eq_iff_eq_true. rewrite !ends_with_spec. split.
  - intros (t & H). rewrite <- str_app_assoc in H. exists t. exact (str_app_inv_r _ _ _ H).
  - intros (t & ->). exists t. apply str_app_assoc.
Qed.

Lemma substring_0_all (s : string) : substring 0 (String.length s) s = s.
Proof. induction s as [|c s IH]; cbn; [reflexivity | now rewrite IH]. Qed.

Lemma prefix_nil (s : string) : String.prefix "" s = true.
Proof. destruct s; reflexivity. Qed.

Lemma prefix_json_app (c : ascii) (a y : string) :
  String.prefix ".json" (String c (a ++ ".json" ++ y)) = String.prefix ".json" (String c a).
Proof.
  destruct a as [|c1 [|c2 [|c3 [|c4 a]]]]; cbn [String.prefix append];
    repeat match goal with |- context [ascii_dec ?x ?y] => destruct (ascii_dec x y) end;
    rewrite ?prefix_nil; try reflexivity; try congruence.
Qed.

Lemma replace_first_cons (pat rep : string) (c : ascii) (s : string) :
  replace_first pat rep (String c s) =
  if String.prefix pat (String c s)
  then rep ++ substring (String.length pat) (String.length (String c s) - String.length pat) (String c s)
  else String c (replace_first pat rep s).
Proof. reflexivity. Qed.

Lemma replace_json_first (a x : string) : contains ".json" a = false ->
  replace_first ".json" "" (a ++ ".json" ++ x) = a ++ x.
Proof.
  induction a as [|c a IH]; intros H.
  - cbn. rewrite prefix_nil, Nat.sub_0_r. apply substring_0_all.
  - cbn [contains] in H. apply orb_false_iff in H as [H1 H2].
    change (replace_first ".json" "" (String c (a ++ (".json" ++ x))) = String c (a ++ x)).
    rewrite replace_first_cons, prefix_json_app, H1. f_equal. exact (IH H2).
Qed.

Lemma obj_get_app (l1 l2 : list (string * json)) k :
  obj_get (app l1 l2) k = match obj_get l2 k with Some v => Some v | None => obj_get l1 k end.
Proof.
  induction l1 as [|[k' v'] r IH]; cbn.
  - destruct (obj_get l2 k); reflexivity.
  - rewrite IH. destruct (obj_get l2 k); reflexivity.
Qed.

Lemma obj_get_map_set (l : list (string * json)) k v k' :
  obj_get (map (fun kv => if String.eqb (fst kv) k then (k, v) else kv) l) k' =
  if String.eqb k k' then (if existsb (fun kv => String.eqb (fst kv) k) l then Some v else None)
  else obj_get l k'.
Proof.
  induction l as [|[k0 v0] r IH]; cbn.
  - destruct (String.eqb k k'); reflexivity.
  - destruct (String.eqb k0 k) eqn:E0; cbn; rewrite IH.
    + apply String.eqb_eq in E0. subst k0.
      destruct (String.eqb k k'); [|reflexivity].
      destruct (existsb _ r); reflexivity.
    + destruct (String.eqb k k') eqn:E.
      * apply String.eqb_eq in E. subst k'. rewrite E0.
        destruct (existsb _ r); reflexivity.
      * reflexivity.
Qed.

Lemma obj_get_set (l : list (string * json)) k v k' :
  obj_get (obj_set l k v) k' = if String.eqb k k' then Some v else obj_get l k'.
Proof.
  unfold obj_set. destruct (existsb _ l) eqn:Ex.
  - rewrite obj_get_map_set, Ex. reflexivity.
  - rewrite obj_get_app. cbn. destruct (String.eqb k k'); reflexivity.
Qed.

Lemma obj_get_spread (t src : list (string * json)) k :
  obj_get (obj_spread t src) k = match obj_get src k with Some v => Some v | None => obj_get t k end.
Proof.
  unfold obj_spread. revert t.
  induction src as [|[k0 v0] r IH]; intros t; [reflexivity|].
  cbn [fold_left fst snd obj_get]. rewrite IH, obj_get_set.
  destruct (obj_get r k); [reflexivity|]. destruct (String.eqb k0 k); reflexivity.
Qed.

Lemma createProjectTemplate_get : forall t1 t2 overrides k,
  prop (createProjectTemplate t1 t2 overrides) k =
  match obj_get overrides k with
  | Some v => Some v
  | None => obj_get (project_template t1 t2) k
  end.
Proof.
  intros. unfold createProjectTemplate, prop. rewrite !obj_get_spread.
  destruct (obj_get overrides k); [reflexivity|]. cbn [obj_get].
  destruct (obj_get (project_template t1 t2) k); reflexivity.
Qed.

(** X4: Each property of the record createProjectTemplate builds is the
    override's value when the overrides have that key, and the template's
    default otherwise. *)
Theorem createProjectTemplate_lookup : forall t1 t2 overrides k,
  prop (createProjectTemplate t1 t2 overrides) k =
  match obj_get overrides k with
  | Some v => Some v
  | None => obj_get (project_template t1 t2) k
  end.
Proof. exact createProjectTemplate_get. Qed.

Lemma ends_with_backup_json (id : string) :
  ends_with ".backup.json" (id ++ ".json") = ends_with ".backup" id.
Proof. exact (ends_with_app_suffix ".backup" ".json" id). Qed.

Lemma ends_with_json (id : string) : ends_with ".json" (id ++ ".json") = true.
Proof. apply ends_with_app. Qed.

(** X5: For project ids that contain no '.json' and do not end in '.backup',
    the project listing turns the file names projectPath gives back into
    exactly those ids, in order. *)
Theorem file_ids_projectPath : forall ids,
  Forall (fun id => contains ".json" id = false /\ ends_with ".backup" id = false) ids ->
  file_ids (map projectPath ids) = ids.
Proof.
  induction ids as [|id r IH]; intros H; [reflexivity|].
  inversion H as [|? ? [Hc Hb] Hr]; subst.
  unfold file_ids in *. cbn [map filter]. change (projectPath id) with (id ++ ".json").
  rewrite ends_with_json, ends_with_backup_json, Hb. cbn [andb negb map].
  rewrite (IH Hr). f_equal.
  rewrite <- (str_app_nil_r (id ++ ".json")), str_app_assoc.
  rewrite replace_json_first by exact Hc. apply str_app_nil_r.
Qed.

(** X6: A project whose id ends in '.backup' is never listed, because its file
    <id>.json ends in '.backup.json' and is taken for a backup. *)
Theorem file_ids_skips_backup_ids : forall id files,
  ends_with ".backup" id = true ->
  file_ids (projectPath id :: files) = file_ids files.
Proof.
  intros id files H. unfold file_ids, projectPath. cbn [filter].
  rewrite ends_with_json, ends_with_backup_json, H. reflexivity.
Qed.

(** X7: A project whose id contains '.json' is listed under another id:
    replace('.json', '') removes the first occurrence, so the file of id
    a.json-b is listed as a-b.json. *)
Theorem file_ids_renames_json_ids : forall a b,
  contains ".json" a = false -> ends_with ".backup" (a ++ ".json" ++ b) = false ->
  file_ids [projectPath (a ++ ".json" ++ b)] = [a ++ b ++ ".json"].
Proof.
  intros a b Ha Hb. unfold file_ids, projectPath. cbn [filter].
  rewrite ends_with_json, ends_with_backup_json, Hb. cbn [andb negb map].
  rewrite str_app_assoc, str_app_assoc, replace_json_first by exact Ha. reflexivity.
Qed.

(** X8: On a valid state, markComplete saves it with status completed,
    inProgress null and lastChecked set to the current time. On an invalid
    state it throws 'Cannot save invalid project state: ' followed by the
    errors, and the store is left unchanged. *)
Theorem markComplete_saves_completed : forall s w,
  match validateProjectState s with
  | [] => exists w', markComplete s w = (Ok tt, w') /\
          find_project (projectId s) (store w') =
            Some (with_lastChecked (with_inProgress (with_status s Completed) None) (clock w (ticks w)))
  | errors => markComplete s w =
          (Throw (tpl ["Cannot save invalid project state: "; join ", " errors]), w)
  end.
Proof.
  intros s w. unfold markComplete.
  destruct (validateProjectState s) as [|e es] eqn:Hv.
  - assert (Hv' : validateProjectState (with_inProgress (with_status s Completed) None) = [])
      by (rewrite validate_with_inProgress, validate_with_status; exact Hv).
    destruct (saveProject_run _ w Hv') as (w' & Hrun & _ & _ & _ & _ & _ & _ & _ & _ & _ & _ & Hst & _).
    exists w'. split.
    + unfold bind. rewrite Hrun. reflexivity.
    + rewrite Hst. exact (find_put _ _).
  - unfold bind, saveProject.
    rewrite validate_with_inProgress, validate_with_status, Hv. reflexivity.
Qed.

Lemma file_ids_projectPath_witness :
  Forall (fun id => contains ".json" id = false /\ ends_with ".backup" id = false) ["demo"; "web-app"] /\
  file_ids (map projectPath ["demo"; "web-app"]) = ["demo"; "web-app"].
Proof.
  assert (H : Forall (fun id => contains ".json" id = false /\ ends_with ".backup" id = false)
                ["demo"; "web-app"])
    by (repeat constructor).
  split; [exact H | exact (file_ids_projectPath _ H)].
Defined.

Lemma file_ids_skips_backup_ids_witness :
  ends_with ".backup" "old.backup" = true /\
  file_ids (projectPath "old.backup" :: ["demo.json"]) = file_ids ["demo.json"].
Proof.
  split; [reflexivity | apply file_ids_skips_backup_ids; reflexivity].
Defined.

Lemma file_ids_renames_json_ids_witness :
  contains ".json" "cfg" = false /\ ends_with ".backup" ("cfg" ++ ".json" ++ "-v2") = false /\
  file_ids [projectPath ("cfg" ++ ".json" ++ "-v2")] = ["cfg" ++ "-v2" ++ ".json"].
Proof.
  split; [reflexivity | split; [reflexivity | apply file_ids_renames_json_ids; reflexivity]].
Defined.

Module AdminFacts.
Import Admin.

Lemma file_lookup_put d f c f' :
  file_lookup (dir_put d f c) f' = if String.eqb f f' then Some c else file_lookup d f'.
Proof.
  induction d as [|[g cg] r IH]; cbn.
  - destruct (String.eqb f f'); reflexivity.
  - destruct (String.eqb g f) eqn:E; cbn.
    + apply String.eqb_eq in E; subst g. destruct (String.eqb f f'); reflexivity.
    + rewrite IH. destruct (String.eqb f f') eqn:E'; [|reflexivity].
      apply String.eqb_eq in E'; subst f'. rewrite E. reflexivity.
Qed.

Lemma file_lookup_remove d f f' :
  file_lookup (dir_remove d f) f' = if String.eqb f f' then None else file_lookup d f'.
Proof.
  unfold dir_remove. induction d as [|[g cg] r IH]; cbn.
  - destruct (String.eqb f f'); reflexivity.
  - destruct (String.eqb g f) eqn:E; cbn.
    + apply String.eqb_eq in E; subst g. rewrite IH.
      destruct (String.eqb f f'); reflexivity.
    + rewrite IH. destruct (String.eqb f f') eqn:E'; [|reflexivity].
      apply String.eqb_eq in E'; subst f'. rewrite E. reflexivity.
Qed.

Lemma or_else_falsy v b : truthy v = false -> or_else v b = b.
Proof. destruct v as [j|]; cbn; [intros H; rewrite H|]; reflexivity. Qed.

Lemma or_else_truthy j b : truthy (Some j) = true -> or_else (Some j) b = j.
Proof. cbn. intros H. rewrite H. reflexivity. Qed.

(** X10: POST /api/projects never answers 200 and writes nothing when the
    body's repoPath is missing or falsy. *)
Theorem post_project_requires_repoPath : forall pI t1 t2 data d,
  truthy (oprop data "repoPath") = false ->
  snd (post_project pI t1 t2 data d) = d /\ code (fst (post_project pI t1 t2 data d)) <> 200%Z.
Proof.
  intros pI t1 t2 data d Hr.
  destruct data as [data|]; [|split; [reflexivity | discriminate]].
  cbn [oprop] in Hr.
  destruct data; try (split; [reflexivity | discriminate]);
  unfold post_project; destruct (prop _ "projectId") as [pid|]; try (split; [reflexivity | discriminate]);
  destruct (negb (truthy (Some pid))); try (split; [reflexivity | discriminate]);
  match goal with |- context [validateProjectState_json ?st] =>
    assert (Hst : prop st "repoPath" = Some (JStr ""))
      by (rewrite createProjectTemplate_get; cbn [obj_get String.eqb Ascii.eqb Bool.eqb andb];
          rewrite (or_else_falsy _ _ Hr); reflexivity);
    destruct (validateProjectState_json st) as [e|[|e es]] eqn:V
  end; try (split; [reflexivity | discriminate]).
  all: apply validateProjectState_json_nil in V; destruct V as (_ & _ & _ & (s & Hs & Hne) & _);
    rewrite Hst in Hs; injection Hs as <-; contradiction.
Qed.

(** X11: A POST /api/projects answered 200 writes the answered record to
    <projectId>.json. That record takes name from the body or else the
    projectId, takes status from the body or else 'active', and starts with
    completed [] and inProgress null. *)
Theorem post_project_creates : forall pI t1 t2 data d r d',
  post_project pI t1 t2 data d = (r, d') -> code r = 200%Z ->
  exists dj id, data = Some dj /\ prop dj "projectId" = Some (JStr id) /\
    d' = dir_put d (id ++ ".json") (inr (body r)) /\
    prop (body r) "name" = Some (or_else (prop dj "name") (JStr id)) /\
    prop (body r) "status" = Some (or_else (prop dj "status") (JStr "active")) /\
    prop (body r) "completed" = Some (JArr []) /\
    prop (body r) "inProgress" = Some JNull.
Proof.
  intros pI t1 t2 data d r d' Hrun Hc.
  destruct data as [data|]; [|injection Hrun as <- <-; discriminate].
  destruct data; try (injection Hrun as <- <-; discriminate);
  unfold post_project in Hrun; destruct (prop _ "projectId") as [pid|] eqn:Hpid;
    try (injection Hrun as <- <-; discriminate);
  destruct (negb (truthy (Some pid))); try (injection Hrun as <- <-; discriminate);
  match type of Hrun with context [validateProjectState_json ?st] =>
    remember st as state eqn:Hstate;
    destruct (validateProjectState_json state) as [e|[|e es]] eqn:V;
    try (injection Hrun as <- <-; discriminate)
  end;
  assert (Hp : prop state "projectId" = Some pid)
    by (rewrite Hstate, createProjectTemplate_get; reflexivity);
  pose proof V as V';
  apply validateProjectState_json_nil in V'; destruct V' as (_ & (id & Hid & _) & _);
  rewrite Hp in Hid; injection Hid as ->; rewrite Hp in Hrun; cbn [tmpl to_str] in Hrun;
  injection Hrun as <- <-; cbn [fst snd body];
  eexists; exists id; (split; [reflexivity|]); (split; [exact Hpid|]); (split; [reflexivity|]);
  rewrite Hstate, !createProjectTemplate_get; cbn [obj_get String.eqb Ascii.eqb Bool.eqb andb];
  repeat split.
Qed.

Lemma nat_str_aux_digit : forall fuel n acc,
  (exists c r, acc = String c r /\ digit c) \/ 0 < fuel ->
  exists c r, nat_str_aux fuel n acc = String c r /\ digit c.
Proof.
  induction fuel as [|f IH]; intros n acc H; cbn [nat_str_aux].
  - destruct H as [H|H]; [exact H | lia].
  - assert (Hd : digit (ascii_of_nat (48 + n mod 10))).
    { unfold digit. rewrite nat_ascii_embedding.
      - pose proof (Nat.mod_upper_bound n 10 ltac:(lia)). lia.
      - pose proof (Nat.mod_upper_bound n 10 ltac:(lia)). lia. }
    destruct (Nat.ltb n 10).
    + cbn. eexists _, _. split; [reflexivity | exact Hd].
    + apply IH. left. cbn. eexists _, _. split; [reflexivity | exact Hd].
Qed.

Lemma nat_str_digit n : exists c r, nat_str n = String c r /\ digit c.
Proof. apply nat_str_aux_digit. right. lia. Qed.

Lemma indexed_get {X} (f : X -> json) : forall l n k,
  obj_get (indexed f n l) k <> None -> exists m, k = nat_str m.
Proof.
  induction l as [|x r IH]; intros n k H; cbn in H; [contradiction|].
  destruct (obj_get (indexed f (S n) r) k) eqn:E.
  - apply (IH (S n)). rewrite E. discriminate.
  - destruct (String.eqb (nat_str n) k) eqn:E2; [|contradiction].
    apply String.eqb_eq in E2. exists n. symmetry. exact E2.
Qed.

(** A key that starts with no digit is no index. *)
Lemma word_key_not_index k m : word_key k -> k <> nat_str m.
Proof.
  intros Hk ->. destruct (nat_str_digit m) as (c & r & E & Hd).
  rewrite E in Hk. exact (Hk Hd).
Qed.

Lemma indexed_get_word {X} (f : X -> json) l n k : word_key k -> obj_get (indexed f n l) k = None.
Proof.
  intros Hk. destruct (obj_get (indexed f n l) k) eqn:E; [|reflexivity].
  destruct (indexed_get f l n k) as (m & Hm); [rewrite E; discriminate|].
  exfalso. exact (word_key_not_index k m Hk Hm).
Qed.

Lemma base_get ex k : word_key k -> obj_get (obj_spread [] (spread_src (Some ex))) k = prop ex k.
Proof.
  intros Hk. rewrite obj_get_spread.
  destruct ex; cbn [spread_src prop obj_get]; try reflexivity.
  - rewrite indexed_get_word by exact Hk. reflexivity.
  - rewrite indexed_get_word by exact Hk. reflexivity.
  - destruct (obj_get fields k); reflexivity.
Qed.

Lemma base_get_unf ex k : word_key k ->
  obj_get (obj_spread [] (match ex with
                          | JStr s => indexed (fun c => JStr (String c EmptyString)) 0 (list_ascii_of_string s)
                          | JArr items => indexed (fun j => j) 0 items
                          | JObj fs => fs
                          | _ => []
                          end)) k = prop ex k.
Proof. exact (base_get ex k). Qed.

Lemma obj_get_set_opt fs k v k' :
  obj_get (set_opt fs k v) k' =
  if String.eqb k k' then match v with Some j => Some j | None => obj_get fs k' end
  else obj_get fs k'.
Proof.
  destruct v as [j|]; cbn [set_opt].
  - rewrite obj_get_set. reflexivity.
  - destruct (String.eqb k k'); reflexivity.
Qed.

Lemma sbind_inr {A B} (a : A) (k : A -> string + B) : sbind (inr a) k = k a.
Proof. reflexivity. Qed.

Ltac sbind_inv H :=
  repeat match type of H with
         | context [sbind ?m _] =>
             let E := fresh "E" in
             destruct m eqn:E; [discriminate H | rewrite sbind_inr in H; cbv beta in H]
         end.


Lemma nullish_or_get dv ex k v : ex <> JNull ->
  nullish_or dv (get (Some ex) k) = inr v -> v = merged dv (prop ex k).
Proof.
  intros Hn H. destruct dv as [[]|]; cbn in H |- *;
    try (injection H as <-; reflexivity);
    destruct ex; try contradiction; injection H as <-; reflexivity.
Qed.

Lemma merged_fill dv ev :
  match merged dv ev with Some j => Some j | None => ev end = merged dv ev.
Proof. destruct dv as [[]|]; cbn; try reflexivity; destruct ev; reflexivity. Qed.

Lemma get_some j k v : j <> JNull -> get (Some j) k = inr v -> v = prop j k.
Proof. intros Hn H. destruct j; try contradiction; injection H as <-; reflexivity. Qed.

Ltac word_key_tac := cbn [word_key]; unfold digit; cbn; lia.

Lemma put_update_inv t ex data u :
  put_update t ex data = inr u ->
  exists dj, data = Some dj /\ dj <> JNull /\ ex <> JNull /\
    prop u "projectId" = prop ex "projectId" /\
    prop u "name" = merged (prop dj "name") (prop ex "name") /\
    prop u "status" = merged (prop dj "status") (prop ex "status").
Proof.
  intros H. unfold put_update in H. sbind_inv H.
  injection H as <-.
  destruct data as [dj|]; [|discriminate].
  assert (Hdj : dj <> JNull) by (intros ->; discriminate).
  assert (Hex : ex <> JNull).
  { intros ->. match goal with Hc : get (Some JNull) "context" = inr _ |- _ => discriminate Hc end. }
  exists dj. split; [reflexivity|]. do 2 (split; [assumption|]).
  match goal with
  | Hn : get (Some dj) "name" = inr ?dn, Hn' : nullish_or ?dn (get (Some ex) "name") = inr ?nm,
    Hs : get (Some dj) "status" = inr ?ds, Hs' : nullish_or ?ds (get (Some ex) "status") = inr ?st |- _ =>
      apply get_some in Hn, Hs; try assumption; subst dn ds;
      apply nullish_or_get in Hn', Hs'; try assumption; subst nm st
  end.
  cbn [prop]. rewrite !obj_get_set, !obj_get_set_opt.
  cbn [String.eqb Ascii.eqb Bool.eqb andb].
  rewrite !base_get_unf by word_key_tac.
  rewrite !merged_fill. repeat split.
Qed.

Lemma post_project_shape pI t1 t2 data d :
  snd (post_project pI t1 t2 data d) = d \/
  exists f st, validateProjectState_json st = inr [] /\
    snd (post_project pI t1 t2 data d) = dir_put d f (inr st).
Proof.
  destruct data as [data|]; [|left; reflexivity].
  destruct data; try (left; reflexivity);
  unfold post_project; destruct (prop _ "projectId") as [pid|]; try (left; reflexivity);
  destruct (negb (truthy (Some pid))); try (left; reflexivity);
  match goal with |- context [validateProjectState_json ?st] =>
    destruct (validateProjectState_json st) as [e|[|e es]] eqn:V; try (left; reflexivity);
    destruct (tmpl (prop st "projectId")); [right; eexists _, _; split; [exact V | reflexivity] | left; reflexivity]
  end.
Qed.

Lemma put_project_shape t id data d :
  snd (put_project t id data d) = d \/
  exists f st, validateProjectState_json st = inr [] /\
    snd (put_project t id data d) = dir_put d f (inr st).
Proof.
  unfold put_project. destruct (file_lookup d (id ++ ".json")) as [[e|ex]|]; try (left; reflexivity).
  destruct (put_update t ex data) as [e|u]; try (left; reflexivity).
  destruct (validateProjectState_json u) as [e|[|e es]] eqn:V; try (left; reflexivity).
  right. eexists _, _. split; [exact V | reflexivity].
Qed.

Lemma shape_valid d d' :
  (d' = d \/ exists f st, validateProjectState_json st = inr [] /\ d' = dir_put d f (inr st)) ->
  forall f j, file_lookup d' f = Some (inr j) -> file_lookup d f <> Some (inr j) ->
  validateProjectState_json j = inr [].
Proof.
  intros [->|(g & st & V & ->)] f j H1 H2; [contradiction|].
  rewrite file_lookup_put in H1. destruct (String.eqb g f); [|contradiction].
  injection H1 as <-. exact V.
Qed.

(** X12: Every file that POST /api/projects or PUT /api/projects/:id writes or
    changes holds a record that validateProjectState accepts. *)
Theorem admin_writes_only_valid_records : forall pI t1 t2 t id data d,
  (forall f j, file_lookup (snd (post_project pI t1 t2 data d)) f = Some (inr j) ->
     file_lookup d f <> Some (inr j) -> validateProjectState_json j = inr []) /\
  (forall f j, file_lookup (snd (put_project t id data d)) f = Some (inr j) ->
     file_lookup d f <> Some (inr j) -> validateProjectState_json j = inr []).
Proof.
  intros. split; apply shape_valid; [apply post_project_shape | apply put_project_shape].
Qed.

(** X14: A PUT /api/projects/:id answered 200 overwrites the existing
    <id>.json with the answered record. That record keeps the stored
    projectId, and takes name and status from the body unless they are null or
    missing there, in which case the stored ones stay. *)
Theorem put_project_merges : forall t id data d r d',
  put_project t id data d = (r, d') -> code r = 200%Z ->
  exists existing dj, file_lookup d (id ++ ".json") = Some (inr existing) /\ data = Some dj /\
    d' = dir_put d (id ++ ".json") (inr (body r)) /\
    prop (body r) "projectId" = prop existing "projectId" /\
    prop (body r) "name" = merged (prop dj "name") (prop existing "name") /\
    prop (body r) "status" = merged (prop dj "status") (prop existing "status").
Proof.
  intros t id data d r d' H Hc. unfold put_project in H.
  destruct (file_lookup d (id ++ ".json")) as [[e|ex]|] eqn:F; try (injection H as <- <-; discriminate).
  destruct (put_update t ex data) as [e|u] eqn:U; try (injection H as <- <-; discriminate).
  destruct (validateProjectState_json u) as [e|[|e es]] eqn:V; try (injection H as <- <-; discriminate).
  injection H as <- <-. cbn [body].
  destruct (put_update_inv _ _ _ _ U) as (dj & -> & _ & _ & H1 & H2 & H3).
  exists ex, dj. repeat split; assumption.
Qed.

(** X15: DELETE /api/projects/:id answers 404 and changes nothing when
    <id>.json is missing. Otherwise it answers 200, removes both <id>.json and
    <id>.backup.json, and leaves every other file as it was. *)
Theorem delete_project_removes : forall id d,
  match file_lookup d (id ++ ".json") with
  | None => delete_project id d = (mkResp 404 (error_body ("Project not found: " ++ id)), d)
  | Some _ =>
      code (fst (delete_project id d)) = 200%Z /\
      file_lookup (snd (delete_project id d)) (id ++ ".json") = None /\
      file_lookup (snd (delete_project id d)) (id ++ ".backup.json") = None /\
      (forall f, f <> id ++ ".json" -> f <> id ++ ".backup.json" ->
         file_lookup (snd (delete_project id d)) f = file_lookup d f)
  end.
Proof.
  intros id d. unfold delete_project.
  destruct (file_lookup d (id ++ ".json")) eqn:F; [|reflexivity].
  cbn [fst snd code]. rewrite !file_lookup_remove, !String.eqb_refl.
  split; [reflexivity|]. split.
  - destruct (String.eqb (id ++ ".backup.json") (id ++ ".json")); reflexivity.
  - split; [reflexivity|]. intros f H1 H2. rewrite !file_lookup_remove.
    destruct (String.eqb_spec (id ++ ".backup.json") f); [congruence|].
    destruct (String.eqb_spec (id ++ ".json") f); [congruence|]. reflexivity.
Qed.

Lemma post_project_requires_repoPath_witness :
  truthy (oprop (Some (JObj [("projectId", JStr "demo")])) "repoPath") = false /\
  snd (post_project (fun _ => "NaN") "t1" "t2" (Some (JObj [("projectId", JStr "demo")])) []) = [] /\
  code (fst (post_project (fun _ => "NaN") "t1" "t2" (Some (JObj [("projectId", JStr "demo")])) [])) <> 200%Z.
Proof. split; [reflexivity | apply post_project_requires_repoPath; reflexivity]. Defined.

Lemma post_project_creates_witness :
  post_project (fun _ => "NaN") "t1" "t2" (Some (JObj [("projectId", JStr "demo"); ("repoPath", JStr "/r")])) [] =
    (fst (post_project (fun _ => "NaN") "t1" "t2" (Some (JObj [("projectId", JStr "demo"); ("repoPath", JStr "/r")])) []),
     snd (post_project (fun _ => "NaN") "t1" "t2" (Some (JObj [("projectId", JStr "demo"); ("repoPath", JStr "/r")])) [])) /\
  code (fst (post_project (fun _ => "NaN") "t1" "t2" (Some (JObj [("projectId", JStr "demo"); ("repoPath", JStr "/r")])) [])) = 200%Z /\
  exists dj id, Some (JObj [("projectId", JStr "demo"); ("repoPath", JStr "/r")]) = Some dj /\
    prop dj "projectId" = Some (JStr id) /\
    snd (post_project (fun _ => "NaN") "t1" "t2" (Some (JObj [("projectId", JStr "demo"); ("repoPath", JStr "/r")])) []) =
      dir_put [] (id ++ ".json") (inr (body (fst (post_project (fun _ => "NaN") "t1" "t2" (Some (JObj [("projectId", JStr "demo"); ("repoPath", JStr "/r")])) [])))) /\
    prop (body (fst (post_project (fun _ => "NaN") "t1" "t2" (Some (JObj [("projectId", JStr "demo"); ("repoPath", JStr "/r")])) []))) "name" =
      Some (or_else (prop dj "name") (JStr id)) /\
    prop (body (fst (post_project (fun _ => "NaN") "t1" "t2" (Some (JObj [("projectId", JStr "demo"); ("repoPath", JStr "/r")])) []))) "status" =
      Some (or_else (prop dj "status") (JStr "active")) /\
    prop (body (fst (post_project (fun _ => "NaN") "t1" "t2" (Some (JObj [("projectId", JStr "demo"); ("repoPath", JStr "/r")])) []))) "completed" =
      Some (JArr []) /\
    prop (body (fst (post_project (fun _ => "NaN") "t1" "t2" (Some (JObj [("projectId", JStr "demo"); ("repoPath", JStr "/r")])) []))) "inProgress" =
      Some JNull.
Proof.
  split; [reflexivity|]. split; [vm_compute; reflexivity|].
  apply (post_project_creates (fun _ => "NaN") "t1" "t2" (Some (JObj [("projectId", JStr "demo"); ("repoPath", JStr "/r")])) [] (fst (post_project (fun _ => "NaN") "t1" "t2" (Some (JObj [("projectId", JStr "demo"); ("repoPath", JStr "/r")])) [])) (snd (post_project (fun _ => "NaN") "t1" "t2" (Some (JObj [("projectId", JStr "demo"); ("repoPath", JStr "/r")])) [])));
    [reflexivity | vm_compute; reflexivity].
Defined.

Lemma put_project_merges_witness :
  (put_project "t" "demo" (Some (JObj [("name", JStr "New")])) [("demo.json", inr (JObj [("projectId", JStr "demo"); ("name", JStr "Demo"); ("repoPath", JStr "/r"); ("status", JStr "active"); ("completed", JArr []); ("context", JObj [])]))]) = (fst (put_project "t" "demo" (Some (JObj [("name", JStr "New")])) [("demo.json", inr (JObj [("projectId", JStr "demo"); ("name", JStr "Demo"); ("repoPath", JStr "/r"); ("status", JStr "active"); ("completed", JArr []); ("context", JObj [])]))]), snd (put_project "t" "demo" (Some (JObj [("name", JStr "New")])) [("demo.json", inr (JObj [("projectId", JStr "demo"); ("name", JStr "Demo"); ("repoPath", JStr "/r"); ("status", JStr "active"); ("completed", JArr []); ("context", JObj [])]))])) /\
  code (fst (put_project "t" "demo" (Some (JObj [("name", JStr "New")])) [("demo.json", inr (JObj [("projectId", JStr "demo"); ("name", JStr "Demo"); ("repoPath", JStr "/r"); ("status", JStr "active"); ("completed", JArr []); ("context", JObj [])]))])) = 200%Z /\
  exists existing dj, file_lookup [("demo.json", inr (JObj [("projectId", JStr "demo"); ("name", JStr "Demo"); ("repoPath", JStr "/r"); ("status", JStr "active"); ("completed", JArr []); ("context", JObj [])]))] ("demo" ++ ".json") = Some (inr existing) /\
    Some (JObj [("name", JStr "New")]) = Some dj /\
    snd (put_project "t" "demo" (Some (JObj [("name", JStr "New")])) [("demo.json", inr (JObj [("projectId", JStr "demo"); ("name", JStr "Demo"); ("repoPath", JStr "/r"); ("status", JStr "active"); ("completed", JArr []); ("context", JObj [])]))]) = dir_put [("demo.json", inr (JObj [("projectId", JStr "demo"); ("name", JStr "Demo"); ("repoPath", JStr "/r"); ("status", JStr "active"); ("completed", JArr []); ("context", JObj [])]))] ("demo" ++ ".json") (inr (body (fst (put_project "t" "demo" (Some (JObj [("name", JStr "New")])) [("demo.json", inr (JObj [("projectId", JStr "demo"); ("name", JStr "Demo"); ("repoPath", JStr "/r"); ("status", JStr "active"); ("completed", JArr []); ("context", JObj [])]))])))) /\
    prop (body (fst (put_project "t" "demo" (Some (JObj [("name", JStr "New")])) [("demo.json", inr (JObj [("projectId", JStr "demo"); ("name", JStr "Demo"); ("repoPath", JStr "/r"); ("status", JStr "active"); ("completed", JArr []); ("context", JObj [])]))]))) "projectId" = prop existing "projectId" /\
    prop (body (fst (put_project "t" "demo" (Some (JObj [("name", JStr "New")])) [("demo.json", inr (JObj [("projectId", JStr "demo"); ("name", JStr "Demo"); ("repoPath", JStr "/r"); ("status", JStr "active"); ("completed", JArr []); ("context", JObj [])]))]))) "name" = merged (prop dj "name") (prop existing "name") /\
    prop (body (fst (put_project "t" "demo" (Some (JObj [("name", JStr "New")])) [("demo.json", inr (JObj [("projectId", JStr "demo"); ("name", JStr "Demo"); ("repoPath", JStr "/r"); ("status", JStr "active"); ("completed", JArr []); ("context", JObj [])]))]))) "status" = merged (prop dj "status") (prop existing "status").
Proof.
  split; [reflexivity|]. split; [vm_compute; reflexivity|].
  apply (put_project_merges "t" "demo" (Some (JObj [("name", JStr "New")])) [("demo.json", inr (JObj [("projectId", JStr "demo"); ("name", JStr "Demo"); ("repoPath", JStr "/r"); ("status", JStr "active"); ("completed", JArr []); ("context", JObj [])]))] (fst (put_project "t" "demo" (Some (JObj [("name", JStr "New")])) [("demo.json", inr (JObj [("projectId", JStr "demo"); ("name", JStr "Demo"); ("repoPath", JStr "/r"); ("status", JStr "active"); ("completed", JArr []); ("context", JObj [])]))])) (snd (put_project "t" "demo" (Some (JObj [("name", JStr "New")])) [("demo.json", inr (JObj [("projectId", JStr "demo"); ("name", JStr "Demo"); ("repoPath", JStr "/r"); ("status", JStr "active"); ("completed", JArr []); ("context", JObj [])]))])));
    [reflexivity | vm_compute; reflexivity].
Defined.

Lemma split_on_not_nil c s : split_on c s <> [].
Proof.
  induction s as [|a r IH]; cbn; [discriminate|].
  destruct (Ascii.eqb a c); [discriminate|].
  destruct (split_on c r); discriminate.
Qed.

(** X16: GET /api/logs always returns between 1 and 100 lines. *)
Theorem get_logs_bounds raw : 1 <= length (get_logs raw) <= 100.
Proof.
  destruct raw as [s|]; cbn; [|lia].
  unfold slice_last. rewrite length_skipn.
  set (l := split_on _ (trim s)).
  assert (H : l <> []) by apply split_on_not_nil.
  destruct l; [contradiction|]. cbn [length]. lia.
Qed.



End AdminFacts.

Module LoggerFacts.
Import Logger.

(** X18: A LOG_LEVEL naming a member of Object.prototype (toString,
    constructor, __proto__, ...) turns filtering off: every message is
    written, debug ones included. *)
Theorem write_inherited_level_keeps_all cfg ts level msg meta :
  In cfg proto_names -> write cfg ts level msg meta = Some (format ts level msg meta).
Proof.
  intros H. unfold write.
  assert (E : currentLevel cfg = LInherited).
  { cbn in H. repeat (destruct H as [<-|H]; [reflexivity|]). contradiction. }
  rewrite E. destruct (LEVELS level); reflexivity.
Qed.

Lemma write_inherited_level_keeps_all_witness :
  In "toString" proto_names /\
  write "toString" "t" "debug" "m" None = Some (format "t" "debug" "m" None).
Proof. split; [cbn; tauto | apply write_inherited_level_keeps_all; cbn; tauto]. Defined.

(** X19: Error messages are written whatever LOG_LEVEL is. *)
Theorem write_error_always cfg ts msg meta :
  write cfg ts "error" msg meta = Some (format ts "error" msg meta).
Proof.
  unfold write, currentLevel, LEVELS.
  destruct (String.eqb cfg "debug"); [reflexivity|].
  destruct (String.eqb cfg "info"); [reflexivity|].
  destruct (String.eqb cfg "warn"); [reflexivity|].
  destruct (String.eqb cfg "error"); [reflexivity|].
  destruct (existsb (String.eqb cfg) proto_names); reflexivity.
Qed.

(** X20: Debug messages are written only when LOG_LEVEL is 'debug' or names a
    member of Object.prototype; an unset or empty LOG_LEVEL drops them. *)
Theorem write_debug_needs env ts msg meta :
  write (logLevel_of env) ts "debug" msg meta <> None ->
  env = Some "debug" \/ exists p, env = Some p /\ In p proto_names.
Proof.
  intros H. destruct env as [s|]; [|exfalso; apply H; reflexivity].
  unfold logLevel_of in H. destruct (is_empty s); [exfalso; apply H; reflexivity|].
  unfold write, currentLevel, LEVELS in H.
  destruct (String.eqb s "debug") eqn:E1; [left; apply String.eqb_eq in E1; subst; reflexivity|].
  destruct (String.eqb s "info"); [exfalso; apply H; reflexivity|].
  destruct (String.eqb s "warn"); [exfalso; apply H; reflexivity|].
  destruct (String.eqb s "error"); [exfalso; apply H; reflexivity|].
  destruct (existsb (String.eqb s) proto_names) eqn:E2; [|exfalso; apply H; reflexivity].
  right. apply existsb_exists in E2. destruct E2 as (p & Hp & Ep).
  apply String.eqb_eq in Ep. subst. exists p. split; [reflexivity|exact Hp].
Qed.

Lemma write_debug_needs_witness :
  write (logLevel_of (Some "debug")) "t" "debug" "m" None <> None /\
  (Some "debug" = Some "debug" \/ exists p, Some "debug" = Some p /\ In p proto_names).
Proof.
  split; [discriminate|]. apply (write_debug_needs _ "t" "m" None). discriminate.
Defined.
End LoggerFacts.

Module AnalyzerFacts.
Import Analyzer.



Lemma z_str_nonneg z : (0 <= z)%Z -> z_str z = nat_str (Z.to_nat z).
Proof. intros H. unfold z_str. destruct (Z.ltb_spec z 0); [lia|reflexivity]. Qed.

(** X21: For a date in the past, timeSince gives a count and a unit: seconds
    below 60, minutes from 1 to 59, hours from 1 to 23, or days from 1 up. The
    count is the elapsed time in that unit, rounded down. *)
Theorem timeSince_past now t : (0 <= now - t)%Z ->
  exists n u, timeSince now (Some t) = nat_str n ++ u /\
    let s := ((now - t) / 1000)%Z in
    (u = "s" /\ Z.of_nat n = s /\ n < 60 \/
     u = "m" /\ Z.of_nat n = (s / 60)%Z /\ 1 <= n < 60 \/
     u = "h" /\ Z.of_nat n = (s / 3600)%Z /\ 1 <= n < 24 \/
     u = "d" /\ Z.of_nat n = (s / 86400)%Z /\ 1 <= n).
Proof.
  intros H. cbn [timeSince]. set (s := ((now - t) / 1000)%Z).
  assert (Hs : (0 <= s)%Z) by (unfold s; apply Z.div_pos; lia).
  destruct (Z.ltb_spec s 60).
  { rewrite z_str_nonneg by lia. exists (Z.to_nat s), "s". split; [reflexivity|]. left; split; [reflexivity|lia]. }
  destruct (Z.ltb_spec s 3600).
  { rewrite z_str_nonneg by (apply Z.div_pos; lia). exists (Z.to_nat (s / 60)), "m".
    split; [reflexivity|]. right; left. repeat split.
    - apply Z2Nat.id. apply Z.div_pos; lia.
    - enough (1 <= s / 60)%Z by lia. apply Z.div_le_lower_bound; lia.
    - enough (s / 60 < 60)%Z by lia. apply Z.div_lt_upper_bound; lia. }
  destruct (Z.ltb_spec s 86400).
  { rewrite z_str_nonneg by (apply Z.div_pos; lia). exists (Z.to_nat (s / 3600)), "h".
    split; [reflexivity|]. right; right; left. repeat split.
    - apply Z2Nat.id. apply Z.div_pos; lia.
    - enough (1 <= s / 3600)%Z by lia. apply Z.div_le_lower_bound; lia.
    - enough (s / 3600 < 24)%Z by lia. apply Z.div_lt_upper_bound; lia. }
  rewrite z_str_nonneg by (apply Z.div_pos; lia). exists (Z.to_nat (s / 86400)), "d".
  split; [reflexivity|]. right; right; right. split; [reflexivity|]. split.
  - apply Z2Nat.id. apply Z.div_pos; lia.
  - enough (1 <= s / 86400)%Z by lia. apply Z.div_le_lower_bound; lia.
Qed.

(** X22: For a date in the future, timeSince gives a negative number of
    seconds ('-' and a count of at least 1), however far away the date is. *)
Theorem timeSince_future now t : (now < t)%Z ->
  exists k, timeSince now (Some t) = "-" ++ nat_str k ++ "s" /\ 1 <= k /\
            (- Z.of_nat k = (now - t) / 1000)%Z.
Proof.
  intros H. cbn [timeSince]. set (s := ((now - t) / 1000)%Z).
  assert (Hs : (s < 0)%Z) by (unfold s; apply Z.div_lt_upper_bound; lia).
  destruct (Z.ltb_spec s 60); [|lia].
  unfold z_str. destruct (Z.ltb_spec s 0); [|lia].
  exists (Z.to_nat (- s)). split; [rewrite str_app_assoc; reflexivity|]. split; lia.
Qed.


Lemma timeSince_past_witness :
  (0 <= 90000 - 0)%Z /\
  exists n u, timeSince 90000 (Some 0%Z) = nat_str n ++ u /\
    let s := ((90000 - 0) / 1000)%Z in
    (u = "s" /\ Z.of_nat n = s /\ n < 60 \/
     u = "m" /\ Z.of_nat n = (s / 60)%Z /\ 1 <= n < 60 \/
     u = "h" /\ Z.of_nat n = (s / 3600)%Z /\ 1 <= n < 24 \/
     u = "d" /\ Z.of_nat n = (s / 86400)%Z /\ 1 <= n).
Proof. split; [lia | apply timeSince_past; lia]. Defined.

Lemma timeSince_future_witness :
  (0 < 1500)%Z /\
  exists k, timeSince 0 (Some 1500%Z) = "-" ++ nat_str k ++ "s" /\ 1 <= k /\
            (- Z.of_nat k = (0 - 1500) / 1000)%Z.
Proof. split; [lia | apply timeSince_future; lia]. Defined.



Lemma substring0_length n s : String.length (substring 0 n s) = Nat.min n (String.length s).
Proof.
  revert n. induction s as [|c s IH]; intros [|n]; cbn; try reflexivity. now rewrite IH.
Qed.

Lemma substring0_app n a b : n <= String.length a -> substring 0 n (a ++ b) = substring 0 n a.
Proof.
  revert n. induction a as [|c a IH]; intros [|n] H; cbn in *; try reflexivity; [destruct b; reflexivity|lia|].
  rewrite IH by lia. reflexivity.
Qed.

Lemma substring0_idem n s : substring 0 n (substring 0 n s) = substring 0 n s.
Proof.
  revert n. induction s as [|c s IH]; intros [|n]; cbn; try reflexivity. now rewrite IH.
Qed.

Lemma cap_length (n : N) s : (N.of_nat (String.length (cap n s)) <= n + 16)%N.
Proof.
  unfold cap. destruct (N.ltb_spec n (N.of_nat (String.length s))); [|lia].
  rewrite str_length_app, substring0_length. cbn [truncated_mark String.length nl append]. lia.
Qed.

Lemma cap_prefix (n : N) s : substring 0 (N.to_nat n) (cap n s) = substring 0 (N.to_nat n) s.
Proof.
  unfold cap. destruct (N.ltb_spec n (N.of_nat (String.length s))); [|reflexivity].
  rewrite substring0_app by (rewrite substring0_length; lia). apply substring0_idem.
Qed.

Section Contents.
Variable P : string * string -> Prop.

Lemma set_str_forall acc k v :
  Forall P acc -> (k <> "__proto__" -> P (k, v)) -> Forall P (set_str acc k v).
Proof.
  intros Hacc Hk. unfold set_str.
  destruct (String.eqb_spec k "__proto__"); [exact Hacc|].
  destruct (existsb _ acc).
  - apply Forall_map. eapply Forall_impl; [|exact Hacc]. intros [a b] Hab; cbn.
    destruct (String.eqb a k); auto.
  - apply Forall_app. split; [exact Hacc|]. constructor; auto.
Qed.

Lemma set_str_length acc k v : length (set_str acc k v) <= S (length acc).
Proof.
  unfold set_str. destruct (String.eqb k "__proto__"); [lia|].
  destruct (existsb _ acc); [rewrite length_map; lia|].
  rewrite length_app. cbn. lia.
Qed.
End Contents.

Lemma firstn_in {X} n (l : list X) x : In x (firstn n l) -> In x l.
Proof. intros H. rewrite <- (firstn_skipn n l). apply in_or_app. now left. Qed.

(** X23: When both git diffs succeed, getCommitDiff returns a diff of at most
    8016 characters that starts with the first 8000 characters of the real
    diff. Its file list has no empty names, and it holds contents for at most
    15 listed files, each at most 3016 characters and never under the key
    __proto__. *)
Theorem getCommitDiff_caps d0 n0 show :
  let r := getCommitDiff (inr d0) (inr n0) show in
  (N.of_nat (String.length (diff r)) <= 8016)%N /\
  substring 0 (N.to_nat 8000) (diff r) = substring 0 (N.to_nat 8000) d0 /\
  ~ In "" (filesChanged r) /\
  length (fileContents r) <= 15 /\
  Forall (fun kv => In (fst kv) (filesChanged r) /\ fst kv <> "__proto__" /\
                    (N.of_nat (String.length (snd kv)) <= 3016)%N) (fileContents r).
Proof.
  cbn zeta. unfold getCommitDiff. cbn [diff filesChanged fileContents].
  set (fileList := filter _ _).
  set (f := fun acc file => _).
  set (P := fun kv : string * string => In (fst kv) fileList /\ fst kv <> "__proto__" /\
                    (N.of_nat (String.length (snd kv)) <= 3016)%N).
  assert (Hf : forall xs acc, incl xs fileList -> Forall P acc ->
            Forall P (fold_left f xs acc) /\ length (fold_left f xs acc) <= length acc + length xs).
  { induction xs as [|x xs IH]; intros acc Hin Hacc; cbn [fold_left]; [split; [exact Hacc|cbn; lia]|].
    assert (Hx : In x fileList) by (apply Hin; left; reflexivity).
    destruct (IH (f acc x)) as [IH1 IH2].
    - intros y Hy. apply Hin. right. exact Hy.
    - unfold f. apply set_str_forall; [exact Hacc|]. intros Hp. split; [exact Hx|]. split; [exact Hp|].
      cbn [snd]. destruct (show x); [cbn; lia|]. apply (cap_length 3000).
    - split; [exact IH1|].
      assert (Hl : length (f acc x) <= S (length acc)) by (unfold f; apply set_str_length).
      cbn [length]. lia. }
  destruct (Hf (firstn 15 fileList) []) as [H1 H2].
  { intros y Hy. eapply firstn_in. exact Hy. }
  { constructor. }
  split; [apply (cap_length 8000)|]. split; [apply (cap_prefix 8000)|]. split.
  { unfold fileList. rewrite filter_In. intros [_ H]. discriminate H. }
  split; [|exact H1].
  rewrite length_firstn in H2. cbn [length] in H2. lia.
Qed.
End AnalyzerFacts.

Module RetryFacts.
Import Retry.

Lemma attempts_first_valid fuel attempt v inv fl ans le d :
  fst (attempts fuel attempt v inv fl ans le) = inr d ->
  exists i, attempt <= i < attempt + fuel /\ ans i = inr d /\ v d = inr [] /\
    forall j, attempt <= j < i -> forall d', ans j = inr d' -> v d' <> inr [].
Proof.
  revert attempt le. induction fuel as [|f IH]; intros attempt le H; cbn in H; [discriminate|].
  destruct (ans attempt) as [e|a] eqn:Ea.
  - destruct (attempts f (S attempt) v inv fl ans e) as [r sl] eqn:Er. cbn in H. subst r.
    destruct (IH (S attempt) e) as (i & Hi & Hd & Hv & Hj); [rewrite Er; reflexivity|].
    exists i. split; [lia|]. split; [exact Hd|]. split; [exact Hv|].
    intros j Hj' d' Ed'. destruct (Nat.eq_dec j attempt) as [->|Hne]; [congruence|]. apply (Hj j); [lia|exact Ed'].
  - destruct (v a) as [e|[|x xs]] eqn:Ev.
    + destruct (attempts f (S attempt) v inv fl ans e) as [r sl] eqn:Er. cbn in H. subst r.
      destruct (IH (S attempt) e) as (i & Hi & Hd & Hv & Hj); [rewrite Er; reflexivity|].
      exists i. split; [lia|]. split; [exact Hd|]. split; [exact Hv|].
      intros j Hj' d' Ed'. destruct (Nat.eq_dec j attempt) as [->|Hne]; [congruence|]. apply (Hj j); [lia|exact Ed'].
    + cbn in H. injection H as <-. exists attempt. split; [lia|]. split; [exact Ea|]. split; [exact Ev|].
      intros j Hj. lia.
    + destruct (IH (S attempt) _ H) as (i & Hi & Hd & Hv & Hj).
      exists i. split; [lia|]. split; [exact Hd|]. split; [exact Hv|].
      intros j Hj' d' Ed'. destruct (Nat.eq_dec j attempt) as [->|Hne]; [congruence|]. apply (Hj j); [lia|exact Ed'].
Qed.

Lemma attempts_some_valid fuel attempt v inv fl ans le :
  (exists i d, attempt <= i < attempt + fuel /\ ans i = inr d /\ v d = inr []) ->
  exists d, fst (attempts fuel attempt v inv fl ans le) = inr d.
Proof.
  revert attempt le. induction fuel as [|f IH]; intros attempt le (i & d & Hi & Hd & Hv); [lia|].
  cbn. destruct (Nat.eq_dec i attempt) as [->|Hne].
  - rewrite Hd, Hv. exists d. reflexivity.
  - assert (Hrec : forall le', exists d, fst (attempts f (S attempt) v inv fl ans le') = inr d).
    { intros le'. apply IH. exists i, d. split; [lia|]. split; assumption. }
    destruct (ans attempt) as [e|a].
    + destruct (Hrec e) as [d' Hd']. destruct (attempts f (S attempt) v inv fl ans e). exists d'. exact Hd'.
    + destruct (v a) as [e|[|x xs]].
      * destruct (Hrec e) as [d' Hd']. destruct (attempts f (S attempt) v inv fl ans e). exists d'. exact Hd'.
      * exists a. reflexivity.
      * apply Hrec.
Qed.

Lemma attempts3_sleeps v inv fl ans le :
  In (snd (attempts 3 1 v inv fl ans le)) [[]; [2000%Z]; [4000%Z]; [2000%Z; 4000%Z]].
Proof.
  cbn [attempts].
  destruct (ans 1) as [e1|a1]; [|destruct (v a1) as [e1|[|x1 xs1]]];
  (destruct (ans 2) as [e2|a2]; [|destruct (v a2) as [e2|[|x2 xs2]]]);
  (destruct (ans 3) as [e3|a3]; [|destruct (v a3) as [e3|[|x3 xs3]]]);
  cbn; tauto.
Qed.

Lemma attempts3_parsed v inv fl ans le :
  (forall i, 1 <= i <= 3 -> exists d es, ans i = inr d /\ v d = inr es) ->
  snd (attempts 3 1 v inv fl ans le) = [].
Proof.
  intros H. cbn [attempts].
  destruct (H 1) as (d1 & es1 & -> & ->); [lia|].
  destruct (H 2) as (d2 & es2 & -> & ->); [lia|].
  destruct (H 3) as (d3 & es3 & -> & ->); [lia|].
  destruct es1, es2, es3; reflexivity.
Qed.

Lemma attempts3_thrown v inv fl ans le e1 e2 e3 :
  ans 1 = inl e1 -> ans 2 = inl e2 -> ans 3 = inl e3 ->
  attempts 3 1 v inv fl ans le = (inl (fl ++ e3), [2000%Z; 4000%Z]).
Proof. intros H1 H2 H3. cbn [attempts]. rewrite H1, H2, H3. reflexivity. Qed.

(** X24: proposeNextStep only returns a decision that is the parsed answer of
    one of its three attempts, that validateDecision accepts, and that no
    earlier attempt's accepted answer precedes. Whenever some attempt gives an
    accepted decision, it returns one. *)
Theorem proposeNextStep_first_valid ans :
  (forall d, fst (proposeNextStep ans) = inr d ->
     exists i, 1 <= i <= 3 /\ ans i = inr d /\ validateDecision d = inr [] /\
       forall j, 1 <= j < i -> forall d', ans j = inr d' -> validateDecision d' <> inr []) /\
  ((exists i d, 1 <= i <= 3 /\ ans i = inr d /\ validateDecision d = inr []) ->
     exists d, fst (proposeNextStep ans) = inr d).
Proof.
  split.
  - intros d H. destruct (attempts_first_valid _ _ _ _ _ _ _ _ H) as (i & Hi & R).
    exists i. split; [lia|exact R].
  - intros (i & d & Hi & R). apply attempts_some_valid. exists i, d. split; [lia|exact R].
Qed.





(** X25: When every attempt's answer parses and validateDecision does not
    throw on it, proposeNextStep never waits between attempts, even while it
    retries invalid decisions. *)
Theorem proposeNextStep_parsed_no_wait ans :
  (forall i, 1 <= i <= 3 -> exists d es, ans i = inr d /\ validateDecision d = inr es) ->
  snd (proposeNextStep ans) = [].
Proof. apply attempts3_parsed. Qed.

Lemma proposeNextStep_parsed_no_wait_witness :
  (forall i, 1 <= i <= 3 -> exists d es, (fun _ : nat => inr (JObj []) : answer) i = inr d /\
                                     validateDecision d = inr es) /\
  snd (proposeNextStep (fun _ => inr (JObj []))) = [].
Proof.
  assert (H : forall i, 1 <= i <= 3 -> exists d es, (fun _ : nat => inr (JObj []) : answer) i = inr d /\
                                     validateDecision d = inr es).
  { intros i _. eexists; eexists. split; [reflexivity|]. vm_compute. reflexivity. }
  split; [exact H | apply proposeNextStep_parsed_no_wait; exact H].
Defined.

(** X26: When all three attempts throw, proposeNextStep waits 2000 ms and then
    4000 ms, and throws 'Grok failed after 3 attempts: ' followed by the third
    error's message. *)
Theorem proposeNextStep_all_thrown ans e1 e2 e3 :
  ans 1 = inl e1 -> ans 2 = inl e2 -> ans 3 = inl e3 ->
  proposeNextStep ans = (inl ("Grok failed after 3 attempts: " ++ e3), [2000%Z; 4000%Z]).
Proof. apply attempts3_thrown. Qed.

Lemma proposeNextStep_all_thrown_witness :
  proposeNextStep (fun _ => inl "timeout") =
    (inl ("Grok failed after 3 attempts: " ++ "timeout"), [2000%Z; 4000%Z]).
Proof. apply (proposeNextStep_all_thrown _ "timeout" "timeout" "timeout"); reflexivity. Defined.

(** X27: When every answer parses to an object without a truthy projectId or
    currentGoal, parseGoal waits 2000 ms and then 4000 ms. It then throws
    'Grok parseGoal failed after 3 attempts: Missing projectId or currentGoal
    in parsed result'. *)
Theorem parseGoal_backoff ans :
  (forall i, 1 <= i <= 3 -> exists p, ans i = inr p /\ p <> JNull /\
     (truthy (prop p "projectId") = false \/ truthy (prop p "currentGoal") = false)) ->
  parseGoal ans =
    (inl "Grok parseGoal failed after 3 attempts: Missing projectId or currentGoal in parsed result",
     [2000%Z; 4000%Z]).
Proof.
  intros H. unfold parseGoal. cbn [parse_attempts].
  assert (E : forall p, p <> JNull ->
     (truthy (prop p "projectId") = false \/ truthy (prop p "currentGoal") = false) ->
     match Admin.get (Some p) "projectId" with
     | inl e => inl e
     | inr pid =>
         if negb (truthy pid) || negb (truthy (prop p "currentGoal"))
         then inl "Missing projectId or currentGoal in parsed result"
         else inr p
     end = inl "Missing projectId or currentGoal in parsed result").
  { intros p Hp Hf. destruct p; try contradiction; cbn [Admin.get];
      destruct Hf as [-> | ->]; rewrite ?orb_true_r; reflexivity. }
  destruct (H 1) as (p1 & -> & Hp1 & Hf1); [lia|]. rewrite (E p1 Hp1 Hf1).
  destruct (H 2) as (p2 & -> & Hp2 & Hf2); [lia|]. rewrite (E p2 Hp2 Hf2).
  destruct (H 3) as (p3 & -> & Hp3 & Hf3); [lia|]. rewrite (E p3 Hp3 Hf3).
  reflexivity.
Qed.

Lemma parseGoal_backoff_witness :
  parseGoal (fun _ => inr (JObj [("projectId", JStr "demo")])) =
    (inl "Grok parseGoal failed after 3 attempts: Missing projectId or currentGoal in parsed result",
     [2000%Z; 4000%Z]).
Proof.
  apply parseGoal_backoff. intros i _. eexists. split; [reflexivity|].
  split; [discriminate|]. right. reflexivity.
Defined.

(** X28: parseGoal only returns the parsed answer of one of its three
    attempts, and that answer is not null and has a truthy projectId and
    currentGoal. *)
Theorem parseGoal_result ans p :
  fst (parseGoal ans) = inr p ->
  exists i, 1 <= i <= 3 /\ ans i = inr p /\ p <> JNull /\
    truthy (prop p "projectId") = true /\ truthy (prop p "currentGoal") = true.
Proof.
  unfold parseGoal.
  assert (G : forall fuel attempt le, fst (parse_attempts fuel attempt ans le) = inr p ->
    exists i, attempt <= i < attempt + fuel /\ ans i = inr p /\ p <> JNull /\
      truthy (prop p "projectId") = true /\ truthy (prop p "currentGoal") = true).
  { induction fuel as [|f IH]; intros attempt le H; cbn [parse_attempts] in H; [discriminate|].
    destruct (ans attempt) as [e|a] eqn:Ea.
    - destruct (parse_attempts f (S attempt) ans e) eqn:Er. cbn in H. subst.
      destruct (IH (S attempt) e) as (i & Hi & R); [rewrite Er; reflexivity|].
      exists i. split; [lia|exact R].
    - destruct (Admin.get (Some a) "projectId") as [e|pid] eqn:Eg.
      + destruct (parse_attempts f (S attempt) ans e) eqn:Er. cbn in H. subst.
        destruct (IH (S attempt) e) as (i & Hi & R); [rewrite Er; reflexivity|].
        exists i. split; [lia|exact R].
      + destruct (negb (truthy pid) || negb (truthy (prop a "currentGoal"))) eqn:Et.
        * destruct (parse_attempts f (S attempt) ans _) eqn:Er. cbn in H. subst.
          destruct (IH (S attempt) "Missing projectId or currentGoal in parsed result") as (i & Hi & R); [rewrite Er; reflexivity|].
          exists i. split; [lia|exact R].
        * cbn in H. injection H as ->. exists attempt. split; [lia|]. split; [exact Ea|].
          assert (Hn : p <> JNull) by (intros ->; discriminate Eg).
          split; [exact Hn|].
          destruct p; try (exfalso; apply Hn; reflexivity); cbn [Admin.get] in Eg;
            injection Eg as <-; apply orb_false_iff in Et as [E1 E2];
            apply negb_false_iff in E1, E2; split; assumption. }
  intros H. destruct (G 3 1 "" H) as (i & Hi & R).
  exists i. split; [lia|exact R].
Qed.

Lemma parseGoal_result_witness :
  fst (parseGoal ((fun _ => inr (JObj [("projectId", JStr "demo"); ("currentGoal", JStr "ship")])) : nat -> answer)) = inr (JObj [("projectId", JStr "demo"); ("currentGoal", JStr "ship")]) /\
  exists i, 1 <= i <= 3 /\ ((fun _ => inr (JObj [("projectId", JStr "demo"); ("currentGoal", JStr "ship")])) : nat -> answer) i = inr (JObj [("projectId", JStr "demo"); ("currentGoal", JStr "ship")]) /\ (JObj [("projectId", JStr "demo"); ("currentGoal", JStr "ship")]) <> JNull /\
    truthy (prop (JObj [("projectId", JStr "demo"); ("currentGoal", JStr "ship")]) "projectId") = true /\ truthy (prop (JObj [("projectId", JStr "demo"); ("currentGoal", JStr "ship")]) "currentGoal") = true.
Proof. split; [reflexivity | apply parseGoal_result; reflexivity]. Defined.
End RetryFacts.

Module InspectFacts.
Import Inspect.

Lemma no_commit_status st : status (no_commit st) <> "completed".
Proof. unfold no_commit. destruct (isClean st); discriminate. Qed.

(** X29: inspectResult reports status completed exactly when git log and git
    status succeed and the latest commit's hash differs from beforeHash; a
    null beforeHash counts as different. It then reports that commit's hash
    and message. *)
Theorem inspectResult_completed bh log_r status_r names_r :
  let r := inspectResult bh log_r status_r names_r in
  status r = "completed" <->
  exists c cs st, log_r = inr (c :: cs) /\ status_r = inr st /\ bh <> Some (hash c) /\
    commitHash r = Some (hash c) /\ summary r = message c.
Proof.
  cbn zeta. split.
  - destruct log_r as [e|all]; [discriminate|]. destruct status_r as [e|st]; [discriminate|].
    cbn [inspectResult]. destruct all as [|c cs]; [intros H; exfalso; exact (no_commit_status _ H)|].
    cbn [hd_error].
    destruct (match bh with Some b => negb (String.eqb (hash c) b) | None => true end) eqn:Eb;
      [|intros H; exfalso; exact (no_commit_status _ H)].
    intros _. exists c, cs, st. split; [reflexivity|]. split; [reflexivity|]. split; [|split; reflexivity].
    intros ->. rewrite String.eqb_refl in Eb. discriminate.
  - intros (c & cs & st & -> & -> & Hb & _). cbn [inspectResult hd_error].
    destruct bh as [b|]; [|reflexivity].
    destruct (String.eqb_spec (hash c) b) as [<-|]; [contradiction|reflexivity].
Qed.

(** X30: inspectResult reports status needs_input only when git status
    succeeded and the tree is not clean. It then reports no commit hash, and
    the modified, created and untracked files as the changed files. *)
Theorem inspectResult_needs_input bh log_r status_r names_r :
  let r := inspectResult bh log_r status_r names_r in
  status r = "needs_input" ->
  exists st, status_r = inr st /\ isClean st = false /\ commitHash r = None /\
    filesChanged r = app (modified st) (app (created st) (not_added st)).
Proof.
  cbn zeta. destruct log_r as [e|all]; [discriminate|]. destruct status_r as [e|st]; [discriminate|].
  cbn [inspectResult].
  assert (N : status (no_commit st) = "needs_input" ->
    exists st', (inr st : string + GitStatus) = inr st' /\ isClean st' = false /\ commitHash (no_commit st) = None /\
      filesChanged (no_commit st) = app (modified st') (app (created st') (not_added st'))).
  { unfold no_commit. destruct (isClean st) eqn:E; [discriminate|]. intros _.
    exists st. repeat split; assumption. }
  destruct (hd_error all) as [c|]; [|exact N].
  destruct (match bh with Some b => negb (String.eqb (hash c) b) | None => true end); [discriminate|exact N].
Qed.

Lemma inspectResult_needs_input_witness :
  status (inspectResult (Some "h0") (inr [mkCommit "h0" "init"]) (inr (mkGitStatus false ["a.js"] [] [])) (inr "")) = "needs_input" /\
  exists st, inr (mkGitStatus false ["a.js"] [] []) = (inr st : string + GitStatus) /\ isClean st = false /\
    commitHash (inspectResult (Some "h0") (inr [mkCommit "h0" "init"]) (inr (mkGitStatus false ["a.js"] [] [])) (inr "")) = None /\
    filesChanged (inspectResult (Some "h0") (inr [mkCommit "h0" "init"]) (inr (mkGitStatus false ["a.js"] [] [])) (inr "")) = app (modified st) (app (created st) (not_added st)).
Proof.
  split; [reflexivity|].
  exact (inspectResult_needs_input (Some "h0") (inr [mkCommit "h0" "init"])
           (inr (mkGitStatus false ["a.js"] [] [])) (inr "") eq_refl).
Defined.
End InspectFacts.

End Dispatch.
